(** * market-watcher-pro: the signal pipeline of the edge functions

    A shallow embedding of the two Deno edge functions that carry the
    trading logic of the repository:

    - [SignalScanner] embeds [supabase/functions/signal-scanner/index.ts]
      (Bollinger Bands, VWAP, crossing detection);
    - [AutoInvest] embeds the auto-invest function (trading-hours gate,
      daily limits, position sizing, order/position creation and the
      trailing-stop refresh).

    A JavaScript [number] is idealised: the scanner needs [Math.sqrt] and is
    therefore modelled over the real numbers; the auto-invest function only
    uses field operations, comparisons and [Math.floor] and is modelled over
    the rationals, where every definition evaluates.  Rounding of binary64
    arithmetic is outside both models.

    The tables are lists of rows and a query is a filter over them.  What
    the functions take from their surroundings is an explicit argument: the
    wall clock, the start of the day, the draws of [Math.random()].  The two
    writes whose error the source tests (the order insert, the row update of
    the trailing-stop pass) get their outcome from an argument as well; reads,
    and the writes whose result the source never looks at, take effect. *)

From Stdlib Require Import Strings.String Strings.Ascii.
From Stdlib Require Import List Bool Arith ZArith QArith Qround Qminmax.
From Stdlib Require Import Reals Lra Lia Lqa.
From Stdlib Require Import Qabs.
Import ListNotations.

(** ** Enumerations shared by both functions (the SQL enum types) *)

Inductive SignalType : Type :=
  | bb_breakout_up
  | bb_breakout_down
  | bb_mean_reversion_up
  | bb_mean_reversion_down
  | vwap_cross_up
  | vwap_cross_down
  | custom.

Definition SignalType_eqb (a b : SignalType) : bool :=
  match a, b with
  | bb_breakout_up, bb_breakout_up
  | bb_breakout_down, bb_breakout_down
  | bb_mean_reversion_up, bb_mean_reversion_up
  | bb_mean_reversion_down, bb_mean_reversion_down
  | vwap_cross_up, vwap_cross_up
  | vwap_cross_down, vwap_cross_down
  | custom, custom => true
  | _, _ => false
  end.

Definition SignalType_eq_dec (a b : SignalType) : {a = b} + {a <> b}.
Proof. decide equality. Defined.

Inductive OrderSide : Type := buy | sell.

(* ===================================================================== *)
(** ** signal-scanner/index.ts *)
(* ===================================================================== *)

Module SignalScanner.

Local Open Scope R_scope.

Record Bar : Type := mkBar {
  timestamp : R;
  open : R;
  high : R;
  low : R;
  close : R;
  volume : R
}.

Record Bands : Type := mkBands {
  upper : R;
  middle : R;
  lower : R
}.

(** [prices.slice(-period)]: the last [period] elements; [slice(-0)] is
    [slice(0)], the whole array. *)
Definition slice_last (period : nat) (prices : list R) : list R :=
  match period with
  | O => prices
  | _ => skipn (length prices - period) prices
  end.

(** [calculateBB(prices, period, stdDev)].  [period] is a count of bars
    (an INTEGER column); for [period = 0] the JavaScript quotients are not
    finite (the bands are Infinity or NaN) and the value below has no
    meaning: what is proved of the values of the bands is proved for a
    positive period. *)
Definition calculateBB (prices : list R) (period : nat) (stdDev : R)
  : option Bands :=
  if (length prices <? period)%nat then None
  else
    let slice := slice_last period prices in
    let mean := fold_left (fun a b => a + b) slice 0 / INR period in
    let variance :=
      fold_left (fun sum p => sum + (p - mean) ^ 2) slice 0 / INR period in
    let std := sqrt variance in
    Some {| upper := mean + std * stdDev;
            middle := mean;
            lower := mean - std * stdDev |}.

(** [calculateVWAP(bars)]: the loop keeps the pair
    [(cumulativeTPV, cumulativeVolume)]. *)
Definition typicalPrice (bar : Bar) : R := (high bar + low bar + close bar) / 3.

Definition vwap_step (acc : R * R) (bar : Bar) : R * R :=
  (fst acc + typicalPrice bar * volume bar, snd acc + volume bar).

Definition calculateVWAP (bars : list Bar) : R :=
  let acc := fold_left vwap_step bars (0, 0) in
  if Rgt_dec (snd acc) 0 then fst acc / snd acc else 0.

(** The comparisons of the detector, as booleans. *)
Definition Rleb (a b : R) : bool := if Rle_dec a b then true else false.
Definition Rltb (a b : R) : bool := if Rlt_dec a b then true else false.

(** JavaScript truthiness of [vwap]: [null] and [0] are falsy. *)
Definition truthy (v : option R) : option R :=
  match v with
  | Some x => if Req_dec_T x 0 then None else Some x
  | None => None
  end.

Definition push_if (c : bool) (s : SignalType) (acc : list SignalType)
  : list SignalType :=
  if c then acc ++ [s] else acc.

(** The body of the scan loop between [// Detect signals] and the rule
    matching: [detectedSignals] after all the pushes. *)
Definition detectedSignals (previousPrice currentPrice : R) (bb : Bands)
  (vwap : option R) : list SignalType :=
  let d0 := [] in
  let d1 := push_if (Rleb previousPrice (upper bb) && Rltb (upper bb) currentPrice)
                    bb_breakout_up d0 in
  let d2 := push_if (Rleb (lower bb) previousPrice && Rltb currentPrice (lower bb))
                    bb_breakout_down d1 in
  let d3 := push_if (Rltb previousPrice (lower bb) && Rltb (lower bb) currentPrice)
                    bb_mean_reversion_up d2 in
  let d4 := push_if (Rltb (upper bb) previousPrice && Rltb currentPrice (upper bb))
                    bb_mean_reversion_down d3 in
  match truthy vwap with
  | Some v =>
      let d5 := push_if (Rleb previousPrice v && Rltb v currentPrice)
                        vwap_cross_up d4 in
      push_if (Rleb v previousPrice && Rltb currentPrice v) vwap_cross_down d5
  | None => d4
  end.

(** *** The scan loop (the revision of the function with validation) *)

(** [x || d] on nullable numbers. *)
Definition orR (x : option R) (d : R) : R :=
  match truthy x with Some v => v | None => d end.

Definition orZ (x : option Z) (d : Z) : Z :=
  match x with
  | Some z => if (z =? 0)%Z then d else z
  | None => d
  end.

(** Rows of the tables the scan reads and writes, with the columns the
    scan uses; a row holds the values the code writes. *)
Module Trader.
Record t : Type := mk {
  user_id : string;
  auto_trade_enabled : bool;
  max_position_size : option R;
  preferred_broker : option string
}.
End Trader.

Module Watchlist.
Record t : Type := mk {
  id : string;
  user_id : string;
  symbol : string;
  enabled : bool;
  bb_period : option Z;
  bb_std_dev : option R;
  vwap_enabled : bool
}.
End Watchlist.

Module Rule.
Record t : Type := mk {
  id : string;
  user_id : string;
  signal_type : SignalType;
  enabled : bool;
  option_strategy : string;
  position_size_percent : option R;
  max_position_value : option R;
  trailing_stop_percent : option R;
  stop_loss_percent : option R;
  take_profit_percent : option R
}.
End Rule.

Module SignalRow.
Record t : Type := mk {
  id : string;
  user_id : string;
  watchlist_id : string;
  signal_rule_id : string;
  symbol : string;
  signal_type : SignalType;
  price_at_signal : R;
  bb_upper : R;
  bb_lower : R;
  bb_middle : R;
  vwap : option R;
  volume : R;
  executed : bool
}.
End SignalRow.

Module OrderRow.
Record t : Type := mk {
  id : string;
  user_id : string;
  signal_id : string;
  ibkr_order_id : string;
  symbol : string;
  side : OrderSide;
  quantity : Z;
  limit_price : R;
  status : string;
  strategy : string;
  trailing_stop_percent : option R;
  stop_loss_price : option R;
  take_profit_price : option R;
  broker : string
}.
End OrderRow.

Module PositionRow.
Record t : Type := mk {
  user_id : string;
  order_id : string;
  symbol : string;
  quantity : Z;
  avg_cost : R;
  current_price : R;
  trailing_stop_price : option R;
  stop_loss_price : option R;
  take_profit_price : option R;
  is_open : bool;
  broker : string
}.
End PositionRow.

Record Store : Type := mkStore {
  trading_settings : list Trader.t;
  watchlist : list Watchlist.t;
  signal_rules : list Rule.t;
  signals : list SignalRow.t;
  orders : list OrderRow.t;
  positions : list PositionRow.t
}.

(** The mock market data of one item: [rnd] is the sequence of
    [Math.random()] draws from the draw of [basePrice] on, [now] is
    [Date.now()].  The loop counts [i] down from 100; its [k]-th iteration
    has [i = 100 - k] and makes six draws. *)
Definition mockBar (now basePrice : R) (rnd : nat -> R) (k : nat) : Bar :=
  let i := INR (100 - k) in
  let price := basePrice + sin (i / 10) * 5 + (rnd (6 * k + 1)%nat - 1 / 2) * 2 in
  {| timestamp := now - i * 60000;
     open := price + (rnd (6 * k + 2)%nat - 1 / 2);
     high := price + rnd (6 * k + 3)%nat * 2;
     low := price - rnd (6 * k + 4)%nat * 2;
     close := price + (rnd (6 * k + 5)%nat - 1 / 2);
     volume := IZR (Int_part (rnd (6 * k + 6)%nat * 1000000)) |}.

Definition mockBars (now : R) (rnd : nat -> R) : list Bar :=
  let basePrice := 150 + rnd 0%nat * 50 in
  map (mockBar now basePrice rnd) (seq 0 101).

(** [/^[A-Z]{1,5}$/.test(symbol)]. *)
Definition isUpperAZ (c : ascii) : bool :=
  (65 <=? nat_of_ascii c)%nat && (nat_of_ascii c <=? 90)%nat.

Fixpoint allUpperAZ (s : string) : bool :=
  match s with
  | EmptyString => true
  | String c rest => isUpperAZ c && allUpperAZ rest
  end.

Definition validSymbol (symbol : string) : bool :=
  (1 <=? String.length symbol)%nat && (String.length symbol <=? 5)%nat
  && allUpperAZ symbol.

Definition bbPeriod (item : Watchlist.t) : nat :=
  Z.to_nat (Z.max 5 (Z.min 100 (orZ (Watchlist.bb_period item) 20))).

Definition bbStdDev (item : Watchlist.t) : R :=
  Rmax (1 / 2) (Rmin 5 (orR (Watchlist.bb_std_dev item) 2)).

(** What the loop body knows about an item once the signals are detected. *)
Record Analysis : Type := mkAnalysis {
  currentPrice : R;
  bb : Bands;
  item_vwap : option R;
  last_volume : R;
  detected : list SignalType
}.

(** The body of the item loop down to the detection; [None] stands for the
    two [continue]s.  With fewer than two bars a price is [undefined],
    every comparison is false and nothing is detected. *)
Definition analyse (item : Watchlist.t) (bars : list Bar) : option Analysis :=
  if negb (validSymbol (Watchlist.symbol item)) then None
  else
    let prices := map close bars in
    let vwap := if Watchlist.vwap_enabled item
                then Some (calculateVWAP bars) else None in
    match calculateBB prices (bbPeriod item) (bbStdDev item) with
    | None => None
    | Some bands =>
        match rev bars with
        | last_bar :: previous_bar :: _ =>
            Some {| currentPrice := close last_bar;
                    bb := bands;
                    item_vwap := vwap;
                    last_volume := volume last_bar;
                    detected := detectedSignals (close previous_bar)
                                  (close last_bar) bands vwap |}
        | _ => None
        end
    end.

Definition matchingRules (signalRules : list Rule.t) (item : Watchlist.t)
  (signalType : SignalType) : list Rule.t :=
  filter (fun r => (Rule.user_id r =? Watchlist.user_id item)%string
                   && SignalType_eqb (Rule.signal_type r) signalType)
         signalRules.

(** The validated rule parameters. *)
Definition positionSizePercent (rule : Rule.t) : R :=
  Rmax (1 / 10) (Rmin 100 (orR (Rule.position_size_percent rule) 5)).

Definition maxPositionValue (rule : Rule.t) : R :=
  Rmax 100 (Rmin 1000000 (orR (Rule.max_position_value rule) 10000)).

Definition validatedPercent (raw : option R) (hi : R) : option R :=
  match truthy raw with
  | Some x => Some (Rmax (1 / 10) (Rmin hi x))
  | None => None
  end.

Definition scan_side (signalType : SignalType) : OrderSide :=
  if existsb (SignalType_eqb signalType)
       [bb_breakout_up; bb_mean_reversion_up; vwap_cross_up]
  then buy else sell.

Definition side_sign (side : OrderSide) : R :=
  match side with buy => 1 | sell => -1 end.

Definition or_ibkr (b : option string) : string :=
  match b with
  | Some x => if (x =? "")%string then "ibkr"%string else x
  | None => "ibkr"%string
  end.

(** [.single()]: the row when the query has exactly one. *)
Definition single {A : Type} (l : list A) : option A :=
  match l with
  | [x] => Some x
  | _ => None
  end.

Definition userSettings (s : Store) (user : string) : option Trader.t :=
  single (filter (fun t => (Trader.user_id t =? user)%string)
                 (trading_settings s)).

(** The outcomes of the writes made for the [k]-th matched rule: the key of
    the inserted signal row or [signalError], the generated [SCAN-...]
    identifier, the key of the inserted order row or [orderError]. *)
Record ScanIO : Type := mkScanIO {
  signal_row : option string;
  scan_order_id : string;
  order_row : option string
}.

Record Scan : Type := mkScan {
  store : Store;
  matches_seen : nat;
  signalsGenerated : list SignalRow.t
}.

Definition new_signal (item : Watchlist.t) (a : Analysis)
  (signalType : SignalType) (rule : Rule.t) (row_id : string) : SignalRow.t :=
  {| SignalRow.id := row_id;
     SignalRow.user_id := Watchlist.user_id item;
     SignalRow.watchlist_id := Watchlist.id item;
     SignalRow.signal_rule_id := Rule.id rule;
     SignalRow.symbol := Watchlist.symbol item;
     SignalRow.signal_type := signalType;
     SignalRow.price_at_signal := currentPrice a;
     SignalRow.bb_upper := upper (bb a);
     SignalRow.bb_lower := lower (bb a);
     SignalRow.bb_middle := middle (bb a);
     SignalRow.vwap := item_vwap a;
     SignalRow.volume := last_volume a;
     SignalRow.executed := false |}.

(** [Math.floor(maxPositionSize / currentPrice)].  At a price of zero the
    JavaScript quotient is infinite and fails the test [quantity <=
    1000000]; here the quotient is 0 and fails the test [quantity > 0]:
    no order either way. *)
Definition inlineQuantity (us : Trader.t) (rule : Rule.t) (price : R) : Z :=
  let accountValue := 100000 in
  let maxPositionSize :=
    Rmin (orR (Trader.max_position_size us) 10000)
         (Rmin (maxPositionValue rule)
               (accountValue * positionSizePercent rule / 100)) in
  Int_part (maxPositionSize / price).

Definition inline_stop (price : R) (side : OrderSide) (rule : Rule.t)
  : option R :=
  match truthy (validatedPercent (Rule.stop_loss_percent rule) 50) with
  | Some pct => Some (price * (1 - side_sign side * pct / 100))
  | None => None
  end.

Definition inline_target (price : R) (side : OrderSide) (rule : Rule.t)
  : option R :=
  match truthy (validatedPercent (Rule.take_profit_percent rule) 100) with
  | Some pct => Some (price * (1 + side_sign side * pct / 100))
  | None => None
  end.

Definition inline_order (item : Watchlist.t) (a : Analysis)
  (signalType : SignalType) (rule : Rule.t) (us : Trader.t)
  (signal_id ibkr row_id : string) : OrderRow.t :=
  let side := scan_side signalType in
  {| OrderRow.id := row_id;
     OrderRow.user_id := Watchlist.user_id item;
     OrderRow.signal_id := signal_id;
     OrderRow.ibkr_order_id := ibkr;
     OrderRow.symbol := Watchlist.symbol item;
     OrderRow.side := side;
     OrderRow.quantity := inlineQuantity us rule (currentPrice a);
     OrderRow.limit_price := currentPrice a;
     OrderRow.status := "submitted";
     OrderRow.strategy := Rule.option_strategy rule;
     OrderRow.trailing_stop_percent := Rule.trailing_stop_percent rule;
     OrderRow.stop_loss_price := inline_stop (currentPrice a) side rule;
     OrderRow.take_profit_price := inline_target (currentPrice a) side rule;
     OrderRow.broker := or_ibkr (Trader.preferred_broker us) |}.

Definition inline_position (item : Watchlist.t) (a : Analysis)
  (signalType : SignalType) (rule : Rule.t) (us : Trader.t)
  (order_id : string) : PositionRow.t :=
  let side := scan_side signalType in
  let quantity := inlineQuantity us rule (currentPrice a) in
  {| PositionRow.user_id := Watchlist.user_id item;
     PositionRow.order_id := order_id;
     PositionRow.symbol := Watchlist.symbol item;
     PositionRow.quantity := match side with buy => quantity | sell => (- quantity)%Z end;
     PositionRow.avg_cost := currentPrice a;
     PositionRow.current_price := currentPrice a;
     PositionRow.trailing_stop_price :=
       match truthy (Rule.trailing_stop_percent rule) with
       | Some tsp => Some (currentPrice a * (1 - tsp / 100))
       | None => None
       end;
     PositionRow.stop_loss_price := inline_stop (currentPrice a) side rule;
     PositionRow.take_profit_price := inline_target (currentPrice a) side rule;
     PositionRow.is_open := true;
     PositionRow.broker := or_ibkr (Trader.preferred_broker us) |}.

Definition set_executed (id : string) (row : SignalRow.t) : SignalRow.t :=
  if (SignalRow.id row =? id)%string then
    {| SignalRow.id := SignalRow.id row;
       SignalRow.user_id := SignalRow.user_id row;
       SignalRow.watchlist_id := SignalRow.watchlist_id row;
       SignalRow.signal_rule_id := SignalRow.signal_rule_id row;
       SignalRow.symbol := SignalRow.symbol row;
       SignalRow.signal_type := SignalRow.signal_type row;
       SignalRow.price_at_signal := SignalRow.price_at_signal row;
       SignalRow.bb_upper := SignalRow.bb_upper row;
       SignalRow.bb_lower := SignalRow.bb_lower row;
       SignalRow.bb_middle := SignalRow.bb_middle row;
       SignalRow.vwap := SignalRow.vwap row;
       SignalRow.volume := SignalRow.volume row;
       SignalRow.executed := true |}
  else row.

Definition with_signal (s : Store) (row : SignalRow.t) : Store :=
  {| trading_settings := trading_settings s;
     watchlist := watchlist s;
     signal_rules := signal_rules s;
     signals := signals s ++ [row];
     orders := orders s;
     positions := positions s |}.

(** The order insert, the executed-mark and the position insert. *)
Definition with_execution (s : Store) (signal_id : string) (o : OrderRow.t)
  (pos : PositionRow.t) : Store :=
  {| trading_settings := trading_settings s;
     watchlist := watchlist s;
     signal_rules := signal_rules s;
     signals := map (set_executed signal_id) (signals s);
     orders := orders s ++ [o];
     positions := positions s ++ [pos] |}.

(** The auto-execute branch that follows the insert of a signal row. *)
Definition auto_execute (attempt : ScanIO) (item : Watchlist.t) (a : Analysis)
  (signalType : SignalType) (rule : Rule.t) (signal_id : string) (s : Store)
  : Store :=
  match userSettings s (Watchlist.user_id item) with
  | Some us =>
      if Trader.auto_trade_enabled us then
        let quantity := inlineQuantity us rule (currentPrice a) in
        if (0 <? quantity)%Z && (quantity <=? 1000000)%Z then
          match order_row attempt with
          | Some row_id =>
              with_execution s signal_id
                (inline_order item a signalType rule us signal_id
                              (scan_order_id attempt) row_id)
                (inline_position item a signalType rule us row_id)
          | None => s
          end
        else s
      else s
  | None => s
  end.

(** One iteration of [for (const rule of matchingRules || [])]. *)
Definition process_match (io : nat -> ScanIO) (item : Watchlist.t)
  (a : Analysis) (signalType : SignalType) (sc : Scan) (rule : Rule.t) : Scan :=
  let attempt := io (matches_seen sc) in
  match signal_row attempt with
  | None =>
      {| store := store sc; matches_seen := S (matches_seen sc);
         signalsGenerated := signalsGenerated sc |}
  | Some row_id =>
      let signal := new_signal item a signalType rule row_id in
      {| store := auto_execute attempt item a signalType rule row_id
                    (with_signal (store sc) signal);
         matches_seen := S (matches_seen sc);
         signalsGenerated := signalsGenerated sc ++ [signal] |}
  end.

Definition process_type (io : nat -> ScanIO) (signalRules : list Rule.t)
  (item : Watchlist.t) (a : Analysis) (sc : Scan) (signalType : SignalType)
  : Scan :=
  fold_left (process_match io item a signalType)
            (matchingRules signalRules item signalType) sc.

(** One iteration of [for (const item of watchlistItems)]; [bars] is the
    market data generated for the item. *)
Definition process_item (io : nat -> ScanIO) (signalRules : list Rule.t)
  (sc : Scan) (entry : Watchlist.t * list Bar) : Scan :=
  match analyse (fst entry) (snd entry) with
  | None => sc
  | Some a =>
      fold_left (process_type io signalRules (fst entry) a) (detected a) sc
  end.

Definition userIds (s : Store) : list string :=
  map Trader.user_id (filter Trader.auto_trade_enabled (trading_settings s)).

Definition watchlistItems (s : Store) : list Watchlist.t :=
  filter (fun w => existsb (String.eqb (Watchlist.user_id w)) (userIds s)
                   && Watchlist.enabled w) (watchlist s).

Definition signalRules (s : Store) : list Rule.t :=
  filter (fun r => existsb (String.eqb (Rule.user_id r)) (userIds s)
                   && Rule.enabled r) (signal_rules s).

Inductive ScanResponse : Type :=
  | NoActiveTraders
  | NoWatchlistItems
  | ScanComplete (signals : list SignalRow.t).

(** The items of the scan, in query order, each with its market data:
    [bars_for k] is what the [k]-th item's iteration generates. *)
Definition with_bars (bars_for : nat -> list Bar) (items : list Watchlist.t)
  : list (Watchlist.t * list Bar) :=
  combine items (map bars_for (seq 0 (length items))).

Definition run_scan (bars_for : nat -> list Bar) (io : nat -> ScanIO)
  (s : Store) : Scan :=
  fold_left (process_item io (signalRules s))
            (with_bars bars_for (watchlistItems s))
            {| store := s; matches_seen := 0; signalsGenerated := [] |}.

(** The request handler. *)
Definition scan (bars_for : nat -> list Bar) (io : nat -> ScanIO) (s : Store)
  : Store * ScanResponse :=
  match userIds s with
  | [] => (s, NoActiveTraders)
  | _ =>
      match watchlistItems s with
      | [] => (s, NoWatchlistItems)
      | _ =>
          let sc := run_scan bars_for io s in
          (store sc, ScanComplete (signalsGenerated sc))
      end
  end.

(** *** Reference notions used to state the properties of the scan *)

(** The signals a response reports. *)
Definition scan_signals (r : ScanResponse) : list SignalRow.t :=
  match r with
  | ScanComplete l => l
  | _ => []
  end.

(** [row] is the signal row the scan of store [s] writes for the [k]-th
    enabled item of an auto-trading user, a signal type detected on the
    item's bars and an enabled rule of that user and type. *)
Definition generated_from (bars_for : nat -> list Bar) (s : Store)
  (row : SignalRow.t) : Prop :=
  exists k item a rule,
    nth_error (watchlistItems s) k = Some item
    /\ In item (watchlist s)
    /\ Watchlist.enabled item = true
    /\ validSymbol (Watchlist.symbol item) = true
    /\ (exists t, In t (trading_settings s)
                  /\ Trader.user_id t = Watchlist.user_id item
                  /\ Trader.auto_trade_enabled t = true)
    /\ analyse item (bars_for k) = Some a
    /\ In (SignalRow.signal_type row) (detected a)
    /\ In rule (signal_rules s)
    /\ Rule.enabled rule = true
    /\ Rule.user_id rule = Watchlist.user_id item
    /\ Rule.signal_type rule = SignalRow.signal_type row
    /\ row = new_signal item a (SignalRow.signal_type row) rule
                        (SignalRow.id row).

(** What holds of an order the scan places: its size, the generated signal
    it answers, the settings row that allowed it, and the rule its
    protective prices come from. *)
Definition inline_sound (s : Store) (generated : list SignalRow.t)
  (o : OrderRow.t) : Prop :=
  (1 <= OrderRow.quantity o <= 1000000)%Z
  /\ (exists row, In row generated
        /\ OrderRow.signal_id o = SignalRow.id row
        /\ OrderRow.user_id o = SignalRow.user_id row
        /\ OrderRow.symbol o = SignalRow.symbol row
        /\ OrderRow.limit_price o = SignalRow.price_at_signal row
        /\ OrderRow.side o = scan_side (SignalRow.signal_type row))
  /\ (exists us, In us (trading_settings s)
        /\ Trader.user_id us = OrderRow.user_id o
        /\ Trader.auto_trade_enabled us = true
        /\ (0 < OrderRow.limit_price o ->
            IZR (OrderRow.quantity o) * OrderRow.limit_price o
            <= Rmin (orR (Trader.max_position_size us) 10000) 100000))
  /\ (exists rule,
        OrderRow.stop_loss_price o
        = inline_stop (OrderRow.limit_price o) (OrderRow.side o) rule
        /\ OrderRow.take_profit_price o
           = inline_target (OrderRow.limit_price o) (OrderRow.side o) rule
        /\ OrderRow.trailing_stop_percent o = Rule.trailing_stop_percent rule
        /\ OrderRow.strategy o = Rule.option_strategy rule).

(** Position [p] is the one opened for order [o]. *)
Definition opened_by (o : OrderRow.t) (p : PositionRow.t) : Prop :=
  PositionRow.order_id p = OrderRow.id o
  /\ PositionRow.user_id p = OrderRow.user_id o
  /\ PositionRow.symbol p = OrderRow.symbol o
  /\ PositionRow.quantity p
     = match OrderRow.side o with
       | buy => OrderRow.quantity o
       | sell => (- OrderRow.quantity o)%Z
       end
  /\ PositionRow.avg_cost p = OrderRow.limit_price o
  /\ PositionRow.current_price p = OrderRow.limit_price o
  /\ PositionRow.stop_loss_price p = OrderRow.stop_loss_price o
  /\ PositionRow.take_profit_price p = OrderRow.take_profit_price o
  /\ PositionRow.is_open p = true
  /\ PositionRow.broker p = OrderRow.broker o.

(** Row [r'] of the signals table after the scan against the row [r] it
    was before (or was inserted as): unchanged, or marked executed with an
    order of the scan that references it. *)
Definition table_row (new_orders : list OrderRow.t) (r r' : SignalRow.t)
  : Prop :=
  r' = r
  \/ (r' = set_executed (SignalRow.id r) r
      /\ exists o, In o new_orders /\ OrderRow.signal_id o = SignalRow.id r).

(** The writes of a scan that took store [s] to [s'] and generated the
    signal rows [generated]. *)
Definition scan_effect (s s' : Store) (generated : list SignalRow.t) : Prop :=
  trading_settings s' = trading_settings s
  /\ watchlist s' = watchlist s
  /\ signal_rules s' = signal_rules s
  /\ exists new_orders new_positions,
       orders s' = orders s ++ new_orders
       /\ positions s' = positions s ++ new_positions
       /\ Forall2 opened_by new_orders new_positions
       /\ Forall (inline_sound s generated) new_orders
       /\ Forall2 (table_row new_orders) (signals s ++ generated) (signals s').

(** *** Reference notions used to state the indicator properties *)

Fixpoint Rsum (l : list R) : R :=
  match l with
  | [] => 0
  | x :: t => x + Rsum t
  end.

(** The last [n] elements of [l], taken from the right. *)
Definition lastn (n : nat) (l : list R) : list R := rev (firstn n (rev l)).

Definition mean_of (l : list R) : R := Rsum l / INR (length l).

(** Population variance: squared deviations from the mean, divided by
    the number of samples. *)
Definition population_variance (l : list R) : R :=
  Rsum (map (fun p => (p - mean_of l) * (p - mean_of l)) l) / INR (length l).

(** The bar [b] with its volume multiplied by [c]. *)
Definition scaleVolume (c : R) (b : Bar) : Bar :=
  {| timestamp := timestamp b; open := open b; high := high b; low := low b;
     close := close b; volume := c * volume b |}.

(** *** Sample data for the scan *)

Definition flat_bar (c : R) : Bar :=
  {| timestamp := 0; open := c; high := c; low := c; close := c;
     volume := 100 |}.

(** Four quiet bars and a jump. *)
Definition jump_bars : list Bar := map flat_bar [10; 10; 10; 10; 20].

Definition trader_alice : Trader.t :=
  Trader.mk "alice"%string true None None.

Definition item_aapl : Watchlist.t :=
  Watchlist.mk "w1"%string "alice"%string "AAPL"%string true (Some 5%Z)
               (Some 1) false.

Definition rule_breakout : Rule.t :=
  Rule.mk "r1"%string "alice"%string bb_breakout_up true "buy_call"%string
          None None None None None.

Definition scan_store : Store :=
  mkStore [trader_alice] [item_aapl] [rule_breakout] [] [] [].

Definition writes_ok (k : nat) : ScanIO :=
  mkScanIO (Some "s1"%string) "SCAN-1"%string (Some "o1"%string).

End SignalScanner.

(* ===================================================================== *)
(** ** The auto-invest function *)
(* ===================================================================== *)

Module AutoInvest.

Local Open Scope Q_scope.
Local Open Scope string_scope.

(** A JavaScript [number] where the source tests [Number.isFinite]. *)
Inductive number : Type :=
  | Finite (q : Q)
  | PosInfinity
  | NegInfinity
  | NaN.

Inductive OrderStatus : Type :=
  | pending | submitted | filled | partial | cancelled | rejected.

Inductive OptionStrategy : Type :=
  | buy_call | buy_put | sell_call | sell_put | bull_call_spread
  | bear_put_spread | iron_condor | straddle | strangle.

(** *** Rows, one record per table; a nullable column is an [option]. *)

Module Settings.
Record t : Type := mk {
  user_id : string;
  auto_trade_enabled : bool;
  max_daily_trades : option Z;
  max_daily_loss : option Q;
  max_position_size : option Q;
  trading_hours_start : string;
  trading_hours_end : string;
  preferred_broker : option string
}.
End Settings.

Module Position.
Record t : Type := mk {
  id : string;
  user_id : string;
  order_id : option string;
  symbol : string;
  quantity : Z;
  avg_cost : Q;
  current_price : option Q;
  unrealized_pnl : option Q;
  trailing_stop_price : option Q;
  stop_loss_price : option Q;
  take_profit_price : option Q;
  is_open : bool;
  broker : string
}.
End Position.

Module Signal.
Record t : Type := mk {
  id : string;
  user_id : string;
  symbol : string;
  signal_type : SignalType;
  price_at_signal : number;
  executed : bool;
  signal_rule_id : option string
}.
End Signal.

Module SignalRule.
Record t : Type := mk {
  id : string;
  user_id : string;
  option_strategy : OptionStrategy;
  trailing_stop_percent : option Q;
  stop_loss_percent : option Q;
  take_profit_percent : option Q;
  position_size_percent : option Q;
  max_position_value : option Q
}.
End SignalRule.

Module Order.
Record t : Type := mk {
  id : string;
  user_id : string;
  signal_id : option string;
  ibkr_order_id : string;
  symbol : string;
  side : OrderSide;
  quantity : Z;
  limit_price : option Q;
  filled_price : option Q;
  status : OrderStatus;
  strategy : OptionStrategy;
  trailing_stop_percent : option Q;
  stop_loss_price : option Q;
  take_profit_price : option Q;
  broker : string;
  created_at : Z
}.
End Order.

(** The store the function talks to. *)
Record DB : Type := mkDB {
  trading_settings : list Settings.t;
  signal_rules : list SignalRule.t;
  signals : list Signal.t;
  orders : list Order.t;
  positions : list Position.t
}.

(** What one invocation reads from its surroundings: the New-York wall
    clock string of [toLocaleTimeString], the instant [`${today}T00:00:00Z`]
    and the instant the store stamps on new rows. *)
Record Env : Type := mkEnv {
  currentTime : string;
  today_start : Z;
  now : Z
}.

(** The outcome of the [k]-th order insert of a pass: the generated
    [AUTO-...] identifier, either [orderError] ([None]) or the primary key
    of the new order row, and the primary key the store gives the position
    row that follows. *)
Record InsertIO : Type := mkInsertIO {
  auto_id : string;
  inserted : option string;
  position_row : string
}.

(** The [k]-th position of a trailing-stop pass: the draw of
    [Math.random()] and whether the row update succeeds. *)
Record TickIO : Type := mkTickIO {
  random : Q;
  update_ok : bool
}.

(** *** JavaScript operators *)

(** [x || d] on a nullable number: [null] and [0] are falsy. *)
Definition or_default (x : option Q) (d : Q) : Q :=
  match x with
  | Some q => if Qeq_bool q 0 then d else q
  | None => d
  end.

Definition or_defaultZ (x : option Z) (d : Z) : Z :=
  match x with
  | Some z => if (z =? 0)%Z then d else z
  | None => d
  end.

(** Truthiness of a nullable number, as in [x ? a : b] and [!x]. *)
Definition truthy (x : option Q) : bool :=
  match x with
  | Some q => negb (Qeq_bool q 0)
  | None => false
  end.

Definition Qltb (a b : Q) : bool := negb (Qle_bool b a).

(** *** Helpers of the function *)

(** [isWithinTradingHours(start, end)], the clock reading made explicit. *)
Definition isWithinTradingHours (currentTime start end_ : string) : bool :=
  String.leb start currentTime && String.leb currentTime end_.

(** [calculatePositionSize(settings, rule, currentPrice, accountValue)]. *)
Definition calculatePositionSize (settings : Settings.t) (rule : SignalRule.t)
  (currentPrice accountValue : number) : Z :=
  match currentPrice, accountValue with
  | Finite price, Finite account =>
      if Qle_bool price 0 then 0%Z
      else if Qle_bool account 0 then 0%Z
      else
        let maxFromSettings :=
          Qmax 0 (Qmin 1000000 (or_default (Settings.max_position_size settings) 10000)) in
        let maxFromRule :=
          Qmax 0 (Qmin 1000000 (or_default (SignalRule.max_position_value rule) 10000)) in
        let positionSizePercent :=
          Qmax (1 # 10) (Qmin 100 (or_default (SignalRule.position_size_percent rule) 5)) in
        let percentageSize := (account * positionSizePercent) / 100 in
        let maxValue := Qmin maxFromSettings (Qmin maxFromRule percentageSize) in
        let quantity := Qfloor (maxValue / price) in
        Z.max 0 (Z.min 1000000 quantity)
  | _, _ => 0%Z
  end.

(** The default of the fourth parameter. *)
Definition defaultAccountValue : number := Finite 100000.

(** *** [execute-pending-signals] *)

Inductive Skipped : Type :=
  | SkipUser (user_id reason : string)
  | SkipSignal (signal_id reason : string).

Record Executed : Type := mkExecuted {
  ex_symbol : string;
  ex_side : OrderSide;
  ex_quantity : Z;
  ex_price : Q;
  ex_orderId : string
}.

(** The mutable state of one pass: the store, the number of order inserts
    attempted so far, and the two result arrays. *)
Record Run : Type := mkRun {
  db : DB;
  attempts : nat;
  executed : list Executed;
  skipped : list Skipped
}.

Definition is_filled (s : OrderStatus) : bool :=
  match s with filled => true | _ => false end.

Definition created_today (env : Env) (o : Order.t) : bool :=
  (today_start env <=? Order.created_at o)%Z.

(** The [count] of the first orders query. *)
Definition todaysTrades (env : Env) (d : DB) (user : string) : Z :=
  Z.of_nat (length (filter
    (fun o => (Order.user_id o =? user) && created_today env o) (orders d))).

(** The rows of the second orders query and the loop over them. *)
Definition todaysOrders (env : Env) (d : DB) (user : string) : list Order.t :=
  filter (fun o => (Order.user_id o =? user) && is_filled (Order.status o)
                   && created_today env o) (orders d).

Definition pnl_step (dailyPnL : Q) (order : Order.t) : Q :=
  if truthy (Order.filled_price order) && negb (Order.quantity order =? 0)%Z then
    match Order.filled_price order with
    | Some filled_price =>
        match Order.side order with
        | buy => dailyPnL + (- filled_price) * inject_Z (Order.quantity order)
        | sell => dailyPnL + filled_price * inject_Z (Order.quantity order)
        end
    | None => dailyPnL
    end
  else dailyPnL.

Definition dailyPnL (env : Env) (d : DB) (user : string) : Q :=
  fold_left pnl_step (todaysOrders env d user) 0.

Definition maxDailyTrades (settings : Settings.t) : Z :=
  Z.max 1 (Z.min 1000 (or_defaultZ (Settings.max_daily_trades settings) 10)).

Definition maxDailyLoss (settings : Settings.t) : Q :=
  Qmax 0 (Qmin 1000000 (or_default (Settings.max_daily_loss settings) 1000)).

(** The signals query: unexecuted signals of the user, inner-joined with
    their rule. *)
Definition join_rule (d : DB) (signal : Signal.t)
  : list (Signal.t * SignalRule.t) :=
  match Signal.signal_rule_id signal with
  | Some rid =>
      match find (fun r => SignalRule.id r =? rid) (signal_rules d) with
      | Some rule => [(signal, rule)]
      | None => []
      end
  | None => []
  end.

Definition pending_signals (d : DB) (user : string)
  : list (Signal.t * SignalRule.t) :=
  flat_map (join_rule d)
    (filter (fun s => (Signal.user_id s =? user) && negb (Signal.executed s))
            (signals d)).

Definition order_side (signal_type : SignalType) : OrderSide :=
  if existsb (SignalType_eqb signal_type)
       [bb_breakout_up; bb_mean_reversion_up; vwap_cross_up]
  then buy else sell.

(** [side === 'buy' ? 1 : -1]. *)
Definition sign (side : OrderSide) : Q :=
  match side with buy => 1 | sell => -1 end.

(** [p ? Math.max(0.1, Math.min(hi, p)) : null]. *)
Definition validated_percent (p : option Q) (hi : Q) : option Q :=
  match p with
  | Some x => if truthy p then Some (Qmax (1 # 10) (Qmin hi x)) else None
  | None => None
  end.

Definition stopLossPercent (rule : SignalRule.t) : option Q :=
  validated_percent (SignalRule.stop_loss_percent rule) 50.

Definition takeProfitPercent (rule : SignalRule.t) : option Q :=
  validated_percent (SignalRule.take_profit_percent rule) 100.

Definition stopLossPrice (price : Q) (side : OrderSide) (rule : SignalRule.t)
  : option Q :=
  match stopLossPercent rule with
  | Some pct =>
      if truthy (Some pct) then Some (price * (1 - sign side * pct / 100))
      else None
  | None => None
  end.

Definition takeProfitPrice (price : Q) (side : OrderSide) (rule : SignalRule.t)
  : option Q :=
  match takeProfitPercent rule with
  | Some pct =>
      if truthy (Some pct) then Some (price * (1 + sign side * pct / 100))
      else None
  | None => None
  end.

Definition or_broker (b : option string) : string :=
  match b with
  | Some s => if (s =? "")%string then "ibkr" else s
  | None => "ibkr"
  end.

Definition new_order (env : Env) (settings : Settings.t) (signal : Signal.t)
  (rule : SignalRule.t) (price : Q) (quantity : Z) (orderId row_id : string)
  : Order.t :=
  let side := order_side (Signal.signal_type signal) in
  {| Order.id := row_id;
     Order.user_id := Settings.user_id settings;
     Order.signal_id := Some (Signal.id signal);
     Order.ibkr_order_id := orderId;
     Order.symbol := Signal.symbol signal;
     Order.side := side;
     Order.quantity := quantity;
     Order.limit_price := Some price;
     Order.filled_price := None;
     Order.status := submitted;
     Order.strategy := SignalRule.option_strategy rule;
     Order.trailing_stop_percent := SignalRule.trailing_stop_percent rule;
     Order.stop_loss_price := stopLossPrice price side rule;
     Order.take_profit_price := takeProfitPrice price side rule;
     Order.broker := or_broker (Settings.preferred_broker settings);
     Order.created_at := now env |}.

(** The row of the position insert. *)
Definition new_position (settings : Settings.t) (signal : Signal.t)
  (rule : SignalRule.t) (price : Q) (quantity : Z) (order_row row_id : string)
  : Position.t :=
  let side := order_side (Signal.signal_type signal) in
  {| Position.id := row_id;
     Position.user_id := Settings.user_id settings;
     Position.order_id := Some order_row;
     Position.symbol := Signal.symbol signal;
     Position.quantity := match side with buy => quantity | sell => - quantity end;
     Position.avg_cost := price;
     Position.current_price := Some price;
     Position.unrealized_pnl := None;
     Position.trailing_stop_price :=
       match SignalRule.trailing_stop_percent rule with
       | Some tsp =>
           if truthy (Some tsp) then Some (price * (1 - tsp / 100)) else None
       | None => None
       end;
     Position.stop_loss_price := stopLossPrice price side rule;
     Position.take_profit_price := takeProfitPrice price side rule;
     Position.is_open := true;
     Position.broker := or_broker (Settings.preferred_broker settings) |}.

(** [update({ executed: true }).eq('id', id)] on the signals table. *)
Definition mark_executed (id : string) (s : Signal.t) : Signal.t :=
  if Signal.id s =? id then
    {| Signal.id := Signal.id s;
       Signal.user_id := Signal.user_id s;
       Signal.symbol := Signal.symbol s;
       Signal.signal_type := Signal.signal_type s;
       Signal.price_at_signal := Signal.price_at_signal s;
       Signal.executed := true;
       Signal.signal_rule_id := Signal.signal_rule_id s |}
  else s.

(** The store after a successful order insert and the two writes that
    follow it: the signal is marked, the position row is added. *)
Definition commit_execution (d : DB) (signal_id : string) (order : Order.t)
  (position : Position.t) : DB :=
  {| trading_settings := trading_settings d;
     signal_rules := signal_rules d;
     signals := map (mark_executed signal_id) (signals d);
     orders := orders d ++ [order];
     positions := positions d ++ [position] |}.

Definition skip (entry : Skipped) (r : Run) : Run :=
  {| db := db r; attempts := attempts r; executed := executed r;
     skipped := skipped r ++ [entry] |}.

(** The price test of the signal loop:
    [price <= 0 || !Number.isFinite(price)]. *)
Definition valid_price (n : number) : option Q :=
  match n with
  | Finite p => if Qle_bool p 0 then None else Some p
  | _ => None
  end.

(** One iteration of [for (const signal of signals)]. *)
Definition process_signal (env : Env) (io : nat -> InsertIO)
  (settings : Settings.t) (r : Run) (row : Signal.t * SignalRule.t) : Run :=
  let (signal, rule) := row in
  match valid_price (Signal.price_at_signal signal) with
  | None => skip (SkipSignal (Signal.id signal) "Invalid price") r
  | Some price =>
      let quantity :=
        calculatePositionSize settings rule (Signal.price_at_signal signal)
                              defaultAccountValue in
      if (quantity <=? 0)%Z then
        skip (SkipSignal (Signal.id signal) "Position size too small") r
      else
        let attempt := io (attempts r) in
        match inserted attempt with
        | None =>
            {| db := db r; attempts := S (attempts r);
               executed := executed r; skipped := skipped r |}
        | Some row_id =>
            let order :=
              new_order env settings signal rule price quantity
                        (auto_id attempt) row_id in
            let position :=
              new_position settings signal rule price quantity row_id
                           (position_row attempt) in
            {| db := commit_execution (db r) (Signal.id signal) order position;
               attempts := S (attempts r);
               executed := executed r ++
                 [ {| ex_symbol := Signal.symbol signal;
                      ex_side := Order.side order;
                      ex_quantity := quantity;
                      ex_price := price;
                      ex_orderId := row_id |} ];
               skipped := skipped r |}
        end
  end.

(** One iteration of [for (const settings of allSettings)]. *)
Definition process_user (env : Env) (io : nat -> InsertIO) (r : Run)
  (settings : Settings.t) : Run :=
  let user := Settings.user_id settings in
  if negb (isWithinTradingHours (currentTime env)
             (Settings.trading_hours_start settings)
             (Settings.trading_hours_end settings))
  then skip (SkipUser user "Outside trading hours") r
  else if (maxDailyTrades settings <=? todaysTrades env (db r) user)%Z
  then skip (SkipUser user "Max daily trades reached") r
  else if Qle_bool (dailyPnL env (db r) user) (- maxDailyLoss settings)
  then skip (SkipUser user "Max daily loss reached") r
  else fold_left (process_signal env io settings)
                 (pending_signals (db r) user) r.

(** An entry of the [updates] array of the trailing-stop pass. *)
Record StopUpdate : Type := mkStopUpdate {
  up_symbol : string;
  oldStop : option Q;
  newStop : Q;
  up_currentPrice : Q
}.

Inductive Response : Type :=
  | Message (message : string)
  | ExecutionComplete (executed : list Executed) (skipped : list Skipped)
  | TrailingStopsUpdated (updates : list StopUpdate).

Definition allSettings (d : DB) : list Settings.t :=
  filter Settings.auto_trade_enabled (trading_settings d).

Definition start_run (d : DB) : Run :=
  {| db := d; attempts := 0; executed := []; skipped := [] |}.

Definition run_pending (env : Env) (io : nat -> InsertIO) (d : DB) : Run :=
  fold_left (process_user env io) (allSettings d) (start_run d).

(** [case 'execute-pending-signals']. *)
Definition execute_pending_signals (env : Env) (io : nat -> InsertIO) (d : DB)
  : DB * Response :=
  match allSettings d with
  | [] => (d, Message "No users with auto-trade enabled")
  | _ =>
      let r := run_pending env io d in
      (db r, ExecutionComplete (executed r) (skipped r))
  end.

(** Any number of invocations, one after the other. *)
Fixpoint execute_passes (runs : list (Env * (nat -> InsertIO))) (d : DB) : DB :=
  match runs with
  | [] => d
  | (env, io) :: rest => execute_passes rest (fst (execute_pending_signals env io d))
  end.

(** *** [update-trailing-stops] *)

(** The positions query: open positions inner-joined with their order,
    kept when the order's [trailing_stop_percent] is not null. *)
Definition join_order (d : DB) (position : Position.t)
  : list (Position.t * Q) :=
  match Position.order_id position with
  | Some oid =>
      match find (fun o => Order.id o =? oid) (orders d) with
      | Some order =>
          match Order.trailing_stop_percent order with
          | Some tsp => [(position, tsp)]
          | None => []
          end
      | None => []
      end
  | None => []
  end.

Definition trailing_positions (d : DB) : list (Position.t * Q) :=
  flat_map (join_order d) (filter Position.is_open (positions d)).

(** The mock quote: [avg_cost * (1 + (Math.random() - 0.5) * 0.1)]. *)
Definition mock_price (position : Position.t) (rnd : Q) : Q :=
  Position.avg_cost position * (1 + (rnd - (1 # 2)) * (1 # 10)).

Definition trailingPercent (tsp : Q) : Q :=
  Qmax (1 # 10) (Qmin 50 (or_default (Some tsp) 5)).

Definition newTrailingStop (currentPrice tsp : Q) : Q :=
  currentPrice * (1 - trailingPercent tsp / 100).

(** [!position.trailing_stop_price || newTrailingStop > position.trailing_stop_price]. *)
Definition stop_rises (position : Position.t) (candidate : Q) : bool :=
  negb (truthy (Position.trailing_stop_price position))
  || match Position.trailing_stop_price position with
     | Some stored => Qltb stored candidate
     | None => false
     end.

(** The row update, applied to the rows whose key is [id]; [source] is the
    position object the loop holds. *)
Definition write_stop (source : Position.t) (currentPrice candidate : Q)
  (row : Position.t) : Position.t :=
  if Position.id row =? Position.id source then
    {| Position.id := Position.id row;
       Position.user_id := Position.user_id row;
       Position.order_id := Position.order_id row;
       Position.symbol := Position.symbol row;
       Position.quantity := Position.quantity row;
       Position.avg_cost := Position.avg_cost row;
       Position.current_price := Some currentPrice;
       Position.unrealized_pnl :=
         Some ((currentPrice - Position.avg_cost source)
               * inject_Z (Position.quantity source));
       Position.trailing_stop_price := Some candidate;
       Position.stop_loss_price := Position.stop_loss_price row;
       Position.take_profit_price := Position.take_profit_price row;
       Position.is_open := Position.is_open row;
       Position.broker := Position.broker row |}
  else row.

Definition with_positions (d : DB) (rows : list Position.t) : DB :=
  {| trading_settings := trading_settings d;
     signal_rules := signal_rules d;
     signals := signals d;
     orders := orders d;
     positions := rows |}.

(** The three [console.log] alerts at the end of an iteration. *)
Inductive Alert : Type :=
  | StopLossHit (symbol : string) (price : Q)
  | TakeProfitHit (symbol : string) (price : Q)
  | TrailingStopHit (symbol : string) (price : Q).

Definition alerts_of (position : Position.t) (currentPrice : Q) : list Alert :=
  (match Position.stop_loss_price position with
   | Some sl =>
       if truthy (Some sl) && Qle_bool currentPrice sl
       then [StopLossHit (Position.symbol position) currentPrice] else []
   | None => []
   end)
  ++ (match Position.take_profit_price position with
      | Some tp =>
          if truthy (Some tp) && Qle_bool tp currentPrice
          then [TakeProfitHit (Position.symbol position) currentPrice] else []
      | None => []
      end)
  ++ (match Position.trailing_stop_price position with
      | Some ts =>
          if truthy (Some ts) && Qle_bool currentPrice ts
          then [TrailingStopHit (Position.symbol position) currentPrice] else []
      | None => []
      end).

Record Trail : Type := mkTrail {
  t_db : DB;
  ticks : nat;
  updates : list StopUpdate;
  alerts : list Alert
}.

(** The body of [for (const position of positions)] once the quote is
    known. *)
Definition refresh_position (currentPrice : Q) (write_ok : bool) (t : Trail)
  (entry : Position.t * Q) : Trail :=
  let (position, tsp) := entry in
  let candidate := newTrailingStop currentPrice tsp in
  let wrote := stop_rises position candidate && write_ok in
  {| t_db :=
       if wrote
       then with_positions (t_db t)
              (map (write_stop position currentPrice candidate) (positions (t_db t)))
       else t_db t;
     ticks := S (ticks t);
     updates :=
       if wrote
       then updates t ++
              [ {| up_symbol := Position.symbol position;
                   oldStop := Position.trailing_stop_price position;
                   newStop := candidate;
                   up_currentPrice := currentPrice |} ]
       else updates t;
     alerts := alerts t ++ alerts_of position currentPrice |}.

(** One iteration, the quote drawn from the mock. *)
Definition process_position (io : nat -> TickIO) (t : Trail)
  (entry : Position.t * Q) : Trail :=
  let tick := io (ticks t) in
  refresh_position (mock_price (fst entry) (random tick)) (update_ok tick) t entry.

Definition start_trail (d : DB) : Trail :=
  {| t_db := d; ticks := 0; updates := []; alerts := [] |}.

Definition run_trailing (io : nat -> TickIO) (d : DB) : Trail :=
  fold_left (process_position io) (trailing_positions d) (start_trail d).

(** [case 'update-trailing-stops']. *)
Definition update_trailing_stops (io : nat -> TickIO) (d : DB) : DB * Response :=
  match trailing_positions d with
  | [] => (d, Message "No positions with trailing stops")
  | _ =>
      let t := run_trailing io d in
      (t_db t, TrailingStopsUpdated (updates t))
  end.


(** *** [check-risk-limits] *)

(** [a < b] where [b] may be [null]: [null] compares as 0. *)
Definition lt_nullableZ (a : Z) (b : option Z) : bool :=
  (a <? match b with Some z => z | None => 0 end)%Z.

Definition lt_nullable (a : Q) (b : option Q) : bool :=
  Qltb a (match b with Some q => q | None => 0 end).

Definition openPositions (d : DB) (user : string) : list Position.t :=
  filter (fun p => (Position.user_id p =? user) && Position.is_open p)
         (positions d).

Definition value_step (totalPositionValue : Q) (pos : Position.t) : Q :=
  totalPositionValue
  + Qabs (or_default (Position.current_price pos) 0
          * inject_Z (Position.quantity pos)).

Definition totalPositionValue (d : DB) (user : string) : Q :=
  fold_left value_step (openPositions d user) 0.

(** An entry of the [riskStatus] array. *)
Record RiskStatus : Type := mkRiskStatus {
  rs_user_id : string;
  trades_today : Z;
  max_trades : option Z;
  position_value : Q;
  max_position : option Q;
  within_limits : bool
}.

Definition risk_status (env : Env) (d : DB) (settings : Settings.t)
  : RiskStatus :=
  let user := Settings.user_id settings in
  let tradesCount := todaysTrades env d user in
  let total := totalPositionValue d user in
  {| rs_user_id := user;
     trades_today := tradesCount;
     max_trades := Settings.max_daily_trades settings;
     position_value := total;
     max_position := Settings.max_position_size settings;
     within_limits :=
       lt_nullableZ tradesCount (Settings.max_daily_trades settings)
       && lt_nullable total (Settings.max_position_size settings) |}.

(** [case 'check-risk-limits']: the [riskStatus] array of the response. *)
Definition check_risk_limits (env : Env) (d : DB) : list RiskStatus :=
  map (risk_status env d) (allSettings d).

(** *** [getCorsHeaders] *)

(** [s.endsWith(suffix)]: some tail of [s] is [suffix]. *)
Fixpoint endsWith (s suffix : string) : bool :=
  if s =? suffix then true
  else match s with
       | EmptyString => false
       | String _ rest => endsWith rest suffix
       end.

(** [s || d] on strings: the empty string is falsy. *)
Definition or_string (s d : string) : string :=
  if s =? "" then d else s.

(** The module constant [allowedOrigins]; [frontend_url] is what
    [Deno.env.get('FRONTEND_URL')] returns, [None] when it is unset. *)
Definition allowedOrigins (frontend_url : option string) : list string :=
  filter (fun o => negb (o =? ""))
    [ "http://localhost:3000"; "http://localhost:5173"; "http://localhost:8080";
      match frontend_url with Some u => or_string u "" | None => "" end ].

Record CorsHeaders : Type := mkCorsHeaders {
  allow_origin : string;
  allow_headers : string;
  allow_credentials : string
}.

Definition isAllowed (frontend_url : option string) (origin : string) : bool :=
  existsb (fun allowed =>
             (origin =? allowed)
             || endsWith origin ".lovable.app"
             || endsWith origin ".lovableproject.com")
          (allowedOrigins frontend_url).

(** [getCorsHeaders(req)], [origin_header] being [req.headers.get('Origin')]. *)
Definition getCorsHeaders (frontend_url : option string)
  (origin_header : option string) : CorsHeaders :=
  let origin := match origin_header with Some o => or_string o "" | None => "" end in
  {| allow_origin :=
       if isAllowed frontend_url origin then origin
       else or_string (hd "" (allowedOrigins frontend_url)) "http://localhost:3000";
     allow_headers := "authorization, x-client-info, apikey, content-type";
     allow_credentials := "true" |}.

(** *** Reference notions used to state the properties *)

(** [x] clamped to the interval from [lo] to [hi]. *)
Definition clamp (lo hi x : Q) : Q :=
  if Qltb x lo then lo else if Qltb hi x then hi else x.

Definition clampZ (lo hi x : Z) : Z :=
  if (x <? lo)%Z then lo else if (hi <? x)%Z then hi else x.

(** The quantity the sizing rule arrives at for a positive finite price. *)
Definition sized_quantity (settings : Settings.t) (rule : SignalRule.t)
  (price : Q) : Z :=
  let S := clamp 0 1000000 (or_default (Settings.max_position_size settings) 10000) in
  let V := clamp 0 1000000 (or_default (SignalRule.max_position_value rule) 10000) in
  let P := clamp (1 # 10) 100 (or_default (SignalRule.position_size_percent rule) 5) in
  Z.min 1000000 (Z.max 0 (Qfloor (Qmin (Qmin S V) (100000 * P / 100) / price))).

Definition for_signal (sid : string) (o : Order.t) : bool :=
  match Order.signal_id o with
  | Some s => s =? sid
  | None => false
  end.

(** How many order rows reference the signal [sid]. *)
Definition order_count (sid : string) (d : DB) : nat :=
  length (filter (for_signal sid) (orders d)).

(** Every signal row keyed [sid] carries [executed = true]. *)
Definition is_executed (sid : string) (d : DB) : bool :=
  forallb (fun s => negb (Signal.id s =? sid) || Signal.executed s) (signals d).

Definition orders_of_user (user : string) (d : DB) : list Order.t :=
  filter (fun o => Order.user_id o =? user) (orders d).

Definition is_signal_skip (e : Skipped) : Prop :=
  match e with
  | SkipSignal _ _ => True
  | SkipUser _ _ => False
  end.

Definition response_skipped (resp : Response) : list Skipped :=
  match resp with
  | ExecutionComplete _ sk => sk
  | _ => []
  end.

(** What the [n]-th iteration of the trailing-stop loop, run for the entry
    [entry], does to one row of the positions table. *)
Definition entry_effect (io : nat -> TickIO) (n : nat) (entry : Position.t * Q)
  (row : Position.t) : Position.t :=
  let quote := mock_price (fst entry) (random (io n)) in
  let candidate := newTrailingStop quote (snd entry) in
  if stop_rises (fst entry) candidate && update_ok (io n)
  then write_stop (fst entry) quote candidate row
  else row.

Fixpoint row_after (io : nat -> TickIO) (n : nat)
  (entries : list (Position.t * Q)) (row : Position.t) : Position.t :=
  match entries with
  | [] => row
  | entry :: rest => row_after io (S n) rest (entry_effect io n entry row)
  end.


(** The relation between the store before and after some executions in
    which every signal was used for at most one order: signal keys are
    kept, per signal the order count grows by at most one and only if the
    signal was not yet executed, a signal that got an order is executed
    afterwards, and an executed signal stays executed. *)
Definition at_most_once (d d' : DB) : Prop :=
  map Signal.id (signals d') = map Signal.id (signals d)
  /\ forall sid,
       (order_count sid d <= order_count sid d')%nat
       /\ (order_count sid d'
           <= order_count sid d + (if is_executed sid d then 0 else 1))%nat
       /\ (order_count sid d' <> order_count sid d -> is_executed sid d' = true)
       /\ (is_executed sid d = true -> is_executed sid d' = true).

(** The three records written for a signal executed at price [p]: the
    order row, the position row and the entry of the [executed] array. *)
Definition execution_of (env : Env) (settings : Settings.t) (signal : Signal.t)
  (rule : SignalRule.t) (p : Q) (attempt : InsertIO) (row_id : string)
  : Order.t * Position.t * Executed :=
  let q := sized_quantity settings rule p in
  let o := new_order env settings signal rule p q (auto_id attempt) row_id in
  (o,
   new_position settings signal rule p q row_id (position_row attempt),
   {| ex_symbol := Signal.symbol signal;
      ex_side := Order.side o;
      ex_quantity := q;
      ex_price := p;
      ex_orderId := row_id |}).

(** [w] is what a pass over the store [d0] writes for one of [d0]'s
    unexecuted signals, joined with its rule, on behalf of a user with
    auto-trade enabled. *)
Definition pass_execution (env : Env) (d0 : DB)
  (w : Order.t * Position.t * Executed) : Prop :=
  exists settings signal rule p attempt row_id,
    In settings (allSettings d0)
    /\ In signal (signals d0)
    /\ Signal.executed signal = false
    /\ Signal.user_id signal = Settings.user_id settings
    /\ In rule (signal_rules d0)
    /\ Signal.signal_rule_id signal = Some (SignalRule.id rule)
    /\ Signal.price_at_signal signal = Finite p
    /\ 0 < p
    /\ (0 < sized_quantity settings rule p)%Z
    /\ w = execution_of env settings signal rule p attempt row_id.

(** The position row and the report entry agree with the order row. *)
Definition written_together (w : Order.t * Position.t * Executed) : Prop :=
  let '(o, pos, e) := w in
  Position.order_id pos = Some (Order.id o)
  /\ ex_orderId e = Order.id o
  /\ Position.user_id pos = Order.user_id o
  /\ Position.symbol pos = Order.symbol o
  /\ ex_symbol e = Order.symbol o
  /\ ex_side e = Order.side o
  /\ ex_quantity e = Order.quantity o
  /\ Position.quantity pos
     = match Order.side o with
       | buy => Order.quantity o
       | sell => (- Order.quantity o)%Z
       end
  /\ Order.limit_price o = Some (Position.avg_cost pos)
  /\ Position.current_price pos = Some (Position.avg_cost pos)
  /\ ex_price e = Position.avg_cost pos
  /\ Position.stop_loss_price pos = Order.stop_loss_price o
  /\ Position.take_profit_price pos = Order.take_profit_price o
  /\ Position.is_open pos = true.

Definition order_of (w : Order.t * Position.t * Executed) : Order.t :=
  fst (fst w).
Definition position_of (w : Order.t * Position.t * Executed) : Position.t :=
  snd (fst w).
Definition report_of (w : Order.t * Position.t * Executed) : Executed :=
  snd w.

(** Rows still unexecuted are rows of the store the pass started from. *)
Definition unexecuted_from (d0 d : DB) : Prop :=
  forall s, In s (signals d) -> Signal.executed s = false -> In s (signals d0).

(** The state of a pass against the store [d0] it started from and the
    list [ws] of what it has written so far. *)
Definition pass_state (env : Env) (d0 : DB) (r : Run)
  (ws : list (Order.t * Position.t * Executed)) : Prop :=
  orders (db r) = (orders d0 ++ map order_of ws)%list
  /\ positions (db r) = (positions d0 ++ map position_of ws)%list
  /\ executed r = map report_of ws
  /\ trading_settings (db r) = trading_settings d0
  /\ signal_rules (db r) = signal_rules d0
  /\ unexecuted_from d0 (db r)
  /\ Forall (pass_execution env d0) ws
  /\ Forall (fun w => exists sid, Order.signal_id (order_of w) = Some sid
                                  /\ is_executed sid (db r) = true) ws.

(** Two position rows that differ at most in [current_price],
    [unrealized_pnl] and [trailing_stop_price]. *)
Definition same_holding (row row' : Position.t) : Prop :=
  Position.id row' = Position.id row
  /\ Position.user_id row' = Position.user_id row
  /\ Position.order_id row' = Position.order_id row
  /\ Position.symbol row' = Position.symbol row
  /\ Position.quantity row' = Position.quantity row
  /\ Position.avg_cost row' = Position.avg_cost row
  /\ Position.stop_loss_price row' = Position.stop_loss_price row
  /\ Position.take_profit_price row' = Position.take_profit_price row
  /\ Position.is_open row' = Position.is_open row
  /\ Position.broker row' = Position.broker row.

Definition is_trailing_alert (a : Alert) : Prop :=
  match a with
  | TrailingStopHit _ _ => True
  | _ => False
  end.

(** *** A small store used in the examples *)

Definition alice : Settings.t :=
  {| Settings.user_id := "alice";
     Settings.auto_trade_enabled := true;
     Settings.max_daily_trades := Some 10%Z;
     Settings.max_daily_loss := Some 1000;
     Settings.max_position_size := Some 10000;
     Settings.trading_hours_start := "09:30:00";
     Settings.trading_hours_end := "16:00:00";
     Settings.preferred_broker := None |}.

Definition rule_with (stop_loss max_value : option Q) : SignalRule.t :=
  {| SignalRule.id := "rule-1";
     SignalRule.user_id := "alice";
     SignalRule.option_strategy := buy_call;
     SignalRule.trailing_stop_percent := Some 5;
     SignalRule.stop_loss_percent := stop_loss;
     SignalRule.take_profit_percent := Some 40;
     SignalRule.position_size_percent := Some 5;
     SignalRule.max_position_value := max_value |}.

Definition signal_at (signal_type : SignalType) (price : number) : Signal.t :=
  {| Signal.id := "sig-1";
     Signal.user_id := "alice";
     Signal.symbol := "AAPL";
     Signal.signal_type := signal_type;
     Signal.price_at_signal := price;
     Signal.executed := false;
     Signal.signal_rule_id := Some "rule-1" |}.

Definition store_with (rule : SignalRule.t) (signal : Signal.t) : DB :=
  {| trading_settings := [alice];
     signal_rules := [rule];
     signals := [signal];
     orders := [];
     positions := [] |}.

Definition at_time (clock : string) : Env :=
  {| currentTime := clock; today_start := 0; now := 1 |}.

Definition insert_ok (k : nat) : InsertIO :=
  {| auto_id := "AUTO-1"; inserted := Some "order-1"; position_row := "pos-1" |}.

Definition insert_fails (k : nat) : InsertIO :=
  {| auto_id := "AUTO-1"; inserted := None; position_row := "pos-1" |}.

Definition held_order : Order.t :=
  {| Order.id := "order-1";
     Order.user_id := "alice";
     Order.signal_id := Some "sig-1";
     Order.ibkr_order_id := "AUTO-1";
     Order.symbol := "AAPL";
     Order.side := buy;
     Order.quantity := 10;
     Order.limit_price := Some 110;
     Order.filled_price := None;
     Order.status := submitted;
     Order.strategy := buy_call;
     Order.trailing_stop_percent := Some 5;
     Order.stop_loss_price := None;
     Order.take_profit_price := None;
     Order.broker := "ibkr";
     Order.created_at := 1 |}.

(** An open long position of 10 shares bought at [cost], last quoted at
    [cost], with the stored trailing stop [stop]. *)
Definition held_position (cost : Q) (stop : option Q) : Position.t :=
  {| Position.id := "pos-1";
     Position.user_id := "alice";
     Position.order_id := Some "order-1";
     Position.symbol := "AAPL";
     Position.quantity := 10;
     Position.avg_cost := cost;
     Position.current_price := Some cost;
     Position.unrealized_pnl := Some 0;
     Position.trailing_stop_price := stop;
     Position.stop_loss_price := None;
     Position.take_profit_price := None;
     Position.is_open := true;
     Position.broker := "ibkr" |}.

Definition held_store (cost : Q) (stop : option Q) : DB :=
  {| trading_settings := [alice];
     signal_rules := [];
     signals := [];
     orders := [held_order];
     positions := [held_position cost stop] |}.

(** Every draw of [Math.random()] is [rnd]; every row update succeeds. *)
Definition draws (rnd : Q) (k : nat) : TickIO :=
  {| random := rnd; update_ok := true |}.

(** A user limited to one trade a day who has one order today and a
    pending signal. *)
Definition alice_limited : Settings.t :=
  {| Settings.user_id := "alice";
     Settings.auto_trade_enabled := true;
     Settings.max_daily_trades := Some 1%Z;
     Settings.max_daily_loss := Some 1000;
     Settings.max_position_size := Some 10000;
     Settings.trading_hours_start := "09:30:00";
     Settings.trading_hours_end := "16:00:00";
     Settings.preferred_broker := None |}.

Definition traded_store : DB :=
  {| trading_settings := [alice_limited];
     signal_rules := [rule_with None None];
     signals := [signal_at bb_breakout_up (Finite 100)];
     orders := [held_order];
     positions := [] |}.

(** The same user and store with a stored limit of 0. *)
Definition alice_zero_limit : Settings.t :=
  {| Settings.user_id := "alice";
     Settings.auto_trade_enabled := true;
     Settings.max_daily_trades := Some 0%Z;
     Settings.max_daily_loss := Some 1000;
     Settings.max_position_size := Some 10000;
     Settings.trading_hours_start := "09:30:00";
     Settings.trading_hours_end := "16:00:00";
     Settings.preferred_broker := None |}.

Definition zero_limit_store : DB :=
  {| trading_settings := [alice_zero_limit];
     signal_rules := [rule_with None None];
     signals := [signal_at bb_breakout_up (Finite 100)];
     orders := [held_order];
     positions := [] |}.

(** Every insert succeeds and returns the row key [order-2]. *)
Definition insert_next (k : nat) : InsertIO :=
  {| auto_id := "AUTO-2"; inserted := Some "order-2"; position_row := "pos-2" |}.

(** A filled purchase of 10 shares at 100 made today: a cash flow of
    -1000. *)
Definition filled_buy : Order.t :=
  {| Order.id := "order-0";
     Order.user_id := "alice";
     Order.signal_id := None;
     Order.ibkr_order_id := "IBKR-0";
     Order.symbol := "AAPL";
     Order.side := buy;
     Order.quantity := 10;
     Order.limit_price := Some 100;
     Order.filled_price := Some 100;
     Order.status := filled;
     Order.strategy := buy_call;
     Order.trailing_stop_percent := None;
     Order.stop_loss_price := None;
     Order.take_profit_price := None;
     Order.broker := "ibkr";
     Order.created_at := 1 |}.

Definition spent_store : DB :=
  {| trading_settings := [alice];
     signal_rules := [rule_with None None];
     signals := [signal_at bb_breakout_up (Finite 100)];
     orders := [filled_buy];
     positions := [] |}.

Definition alice_disabled : Settings.t :=
  {| Settings.user_id := "alice";
     Settings.auto_trade_enabled := false;
     Settings.max_daily_trades := Some 10%Z;
     Settings.max_daily_loss := Some 1000;
     Settings.max_position_size := Some 10000;
     Settings.trading_hours_start := "09:30:00";
     Settings.trading_hours_end := "16:00:00";
     Settings.preferred_broker := None |}.

Definition idle_store : DB :=
  {| trading_settings := [alice_disabled];
     signal_rules := [rule_with None None];
     signals := [signal_at bb_breakout_up (Finite 100)];
     orders := [];
     positions := [] |}.

End AutoInvest.

(* ===================================================================== *)
(** ** Properties of the scanner *)
(* ===================================================================== *)

Module ScannerSpec.

Import SignalScanner.
Import Lra.
Local Open Scope R_scope.

(** *** Sums computed by [reduce] against the recursive sum *)

Lemma fold_plus_Rsum (l : list R) (a : R) :
  fold_left (fun x y => x + y) l a = a + Rsum l.
Proof.
  revert a; induction l as [|x t IH]; intro a; simpl.
  - ring.
  - rewrite IH. ring.
Qed.

Lemma fold_square_Rsum (m : R) (l : list R) (a : R) :
  fold_left (fun sum p => sum + (p - m) ^ 2) l a
  = a + Rsum (map (fun p => (p - m) * (p - m)) l).
Proof.
  revert a; induction l as [|x t IH]; intro a; simpl.
  - ring.
  - rewrite IH. ring.
Qed.

Lemma slice_last_lastn (period : nat) (prices : list R) :
  (0 < period)%nat -> slice_last period prices = lastn period prices.
Proof.
  intro Hp. unfold slice_last, lastn.
  destruct period as [|n]; [lia|].
  rewrite firstn_rev, rev_involutive. reflexivity.
Qed.

Lemma lastn_length (period : nat) (prices : list R) :
  (period <= length prices)%nat -> length (lastn period prices) = period.
Proof.
  intro H. unfold lastn.
  rewrite length_rev, length_firstn, length_rev. lia.
Qed.

Lemma Rsum_repeat (c : R) (n : nat) : Rsum (repeat c n) = INR n * c.
Proof.
  induction n as [|n IH].
  - simpl. ring.
  - change (repeat c (S n)) with (c :: repeat c n).
    cbn [Rsum]. rewrite IH, S_INR. ring.
Qed.

Lemma lastn_all (l : list R) : lastn (length l) l = l.
Proof.
  unfold lastn. rewrite <- (length_rev l), firstn_all. apply rev_involutive.
Qed.

Lemma calculateBB_window (prices : list R) (period : nat) (k : R) :
  (0 < period <= length prices)%nat ->
  calculateBB prices period k
  = Some {| upper := mean_of (lastn period prices)
                     + k * sqrt (population_variance (lastn period prices));
            middle := mean_of (lastn period prices);
            lower := mean_of (lastn period prices)
                     - k * sqrt (population_variance (lastn period prices)) |}.
Proof.
  intros [Hpos Hle]. unfold calculateBB.
  destruct (Nat.ltb_spec (length prices) period) as [Hlt|_]; [lia|].
  rewrite (slice_last_lastn period prices Hpos).
  set (w := lastn period prices).
  assert (Hw : length w = period) by (apply lastn_length; exact Hle).
  assert (Hmean : fold_left (fun a b => a + b) w 0 / INR period = mean_of w).
  { unfold mean_of. rewrite fold_plus_Rsum, Hw. f_equal. ring. }
  rewrite Hmean.
  assert (Hvar : fold_left (fun sum p => sum + (p - mean_of w) ^ 2) w 0 / INR period
                 = population_variance w).
  { unfold population_variance. rewrite fold_square_Rsum, Hw. f_equal. ring. }
  rewrite Hvar. f_equal. f_equal; ring.
Qed.

Lemma calculateBB_constant (c k : R) (n : nat) :
  (0 < n)%nat ->
  calculateBB (repeat c n) n k = Some {| upper := c; middle := c; lower := c |}.
Proof.
  intro Hn.
  rewrite calculateBB_window by (rewrite repeat_length; lia).
  assert (Hall : lastn n (repeat c n) = repeat c n).
  { rewrite <- (repeat_length c n) at 1. apply lastn_all. }
  rewrite Hall.
  assert (Hn0 : INR n <> 0) by (apply not_0_INR; lia).
  assert (Hmean : mean_of (repeat c n) = c).
  { unfold mean_of. rewrite Rsum_repeat, repeat_length. field. exact Hn0. }
  assert (Hvar : population_variance (repeat c n) = 0).
  { unfold population_variance. rewrite Hmean, repeat_length.
    assert (Hz : Rsum (map (fun p => (p - c) * (p - c)) (repeat c n)) = 0).
    { clear. induction n as [|n IH]; simpl; [reflexivity|].
      rewrite IH. ring. }
    rewrite Hz. field. exact Hn0. }
  rewrite Hvar, Hmean, sqrt_0. f_equal. f_equal; ring.
Qed.

(** C6. [calculateBB] is absent exactly when there are fewer prices than
    [period]; otherwise (for a positive period) the middle band is the mean
    of the last [period] prices and the outer bands lie
    [stdDev * sqrt(variance)] above and below it, the variance being the
    population variance (sum of squared deviations divided by [period]);
    twenty prices of 100 with period 20 and multiplier 2 give
    upper = middle = lower = 100. *)
Theorem calculateBB_spec (prices : list R) (period : nat) (k : R) :
  (calculateBB prices period k = None <-> (length prices < period)%nat)
  /\ ((0 < period <= length prices)%nat ->
      let window := lastn period prices in
      length window = period
      /\ calculateBB prices period k
         = Some {| upper := mean_of window + k * sqrt (population_variance window);
                   middle := mean_of window;
                   lower := mean_of window - k * sqrt (population_variance window) |})
  /\ calculateBB (repeat 100 20) 20 2
     = Some {| upper := 100; middle := 100; lower := 100 |}.
Proof.
  split; [|split].
  - unfold calculateBB.
    destruct (Nat.ltb_spec (length prices) period) as [Hlt|Hge].
    + split; auto.
    + split; [discriminate | lia].
  - intros H window. split.
    + apply lastn_length. lia.
    + apply calculateBB_window. exact H.
  - apply calculateBB_constant. lia.
Qed.

(** The C6 statement run on the prices 5, 1, 3 with period 2. *)
Lemma calculateBB_spec_witness :
  exists bb, calculateBB [5; 1; 3] 2 1 = Some bb /\ middle bb = 2.
Proof.
  destruct (calculateBB_spec [5; 1; 3] 2 1) as [_ [H _]].
  destruct H as [_ H]; [simpl; lia|].
  eexists. split; [exact H|].
  cbn. unfold mean_of. cbn. lra.
Defined.

(** *** VWAP *)

Lemma vwap_fold (bars : list Bar) (tpv vol : R) :
  fold_left vwap_step bars (tpv, vol)
  = (tpv + Rsum (map (fun b => typicalPrice b * volume b) bars),
     vol + Rsum (map volume bars)).
Proof.
  revert tpv vol; induction bars as [|b t IH]; intros tpv vol; simpl.
  - f_equal; ring.
  - unfold vwap_step at 2. simpl. rewrite IH. f_equal; ring.
Qed.

(** C8. [calculateVWAP] is the sum of typicalPrice * volume over the bars
    divided by the sum of the volumes, typicalPrice being
    (high + low + close) / 3, and it is 0 when the total volume is 0; on a
    single bar of positive volume it is that bar's typical price, whatever
    the volume. *)
Theorem calculateVWAP_spec (bars : list Bar) :
  (forall b, typicalPrice b = (high b + low b + close b) / 3)
  /\ (Rsum (map volume bars) > 0 ->
      calculateVWAP bars
      = Rsum (map (fun b => typicalPrice b * volume b) bars)
        / Rsum (map volume bars))
  /\ (Rsum (map volume bars) = 0 -> calculateVWAP bars = 0)
  /\ (forall b, volume b > 0 -> calculateVWAP [b] = typicalPrice b).
Proof.
  assert (Hgen : forall l,
    calculateVWAP l
    = if Rgt_dec (Rsum (map volume l)) 0
      then Rsum (map (fun b => typicalPrice b * volume b) l) / Rsum (map volume l)
      else 0).
  { intro l. unfold calculateVWAP. rewrite vwap_fold. cbn [fst snd].
    rewrite !Rplus_0_l. reflexivity. }
  split; [reflexivity|]. split; [|split].
  - intro Hpos. rewrite Hgen.
    destruct (Rgt_dec (Rsum (map volume bars)) 0); [reflexivity | contradiction].
  - intro Hz. rewrite Hgen.
    destruct (Rgt_dec (Rsum (map volume bars)) 0) as [Hgt|_];
      [lra | reflexivity].
  - intros b Hb. rewrite Hgen. cbn [map Rsum].
    destruct (Rgt_dec (volume b + 0) 0) as [_|Hn]; [|lra].
    field. lra.
Qed.

(** The C8 statement run on one bar with high 12, low 9, close 9 and
    volume 7. *)
Lemma calculateVWAP_spec_witness :
  calculateVWAP [mkBar 0 10 12 9 9 7] = 10.
Proof.
  destruct (calculateVWAP_spec [mkBar 0 10 12 9 9 7]) as [_ [_ [_ H]]].
  rewrite H; [unfold typicalPrice; cbn [high low close]; lra | cbn [volume]; lra].
Defined.

(** *** Crossing detection *)

Lemma Rleb_true (a b : R) : Rleb a b = true <-> a <= b.
Proof. unfold Rleb. destruct (Rle_dec a b); split; auto; discriminate. Qed.

Lemma Rltb_true (a b : R) : Rltb a b = true <-> a < b.
Proof. unfold Rltb. destruct (Rlt_dec a b); split; auto; discriminate. Qed.

Lemma In_push_if (c : bool) (s t : SignalType) (acc : list SignalType) :
  In t (push_if c s acc) <-> In t acc \/ (c = true /\ t = s).
Proof.
  unfold push_if. destruct c.
  - rewrite in_app_iff. simpl. intuition.
  - intuition discriminate.
Qed.

Lemma count_push_if (c : bool) (s t : SignalType) (acc : list SignalType) :
  count_occ SignalType_eq_dec (push_if c s acc) t
  = (count_occ SignalType_eq_dec acc t
     + if c then (if SignalType_eq_dec s t then 1 else 0) else 0)%nat.
Proof.
  unfold push_if. destruct c.
  - rewrite count_occ_app. simpl. destruct (SignalType_eq_dec s t); reflexivity.
  - lia.
Qed.

(** Membership in the detector's output, one signal type at a time. *)
Lemma In_detectedSignals (prev cur : R) (bb : Bands) (vwap : option R)
  (t : SignalType) :
  In t (detectedSignals prev cur bb vwap) <->
     (t = bb_breakout_up /\ prev <= upper bb /\ upper bb < cur)
  \/ (t = bb_breakout_down /\ lower bb <= prev /\ cur < lower bb)
  \/ (t = bb_mean_reversion_up /\ prev < lower bb /\ lower bb < cur)
  \/ (t = bb_mean_reversion_down /\ upper bb < prev /\ cur < upper bb)
  \/ (exists v, truthy vwap = Some v /\
        ((t = vwap_cross_up /\ prev <= v /\ v < cur)
         \/ (t = vwap_cross_down /\ v <= prev /\ cur < v))).
Proof.
  unfold detectedSignals.
  destruct (truthy vwap) as [v|].
  - rewrite !In_push_if, !andb_true_iff, !Rleb_true, !Rltb_true. simpl.
    split.
    + intros [[[[[[[]|H]|H]|H]|H]|H]|H]; try tauto.
      * right; right; right; right. exists v. tauto.
      * right; right; right; right. exists v. tauto.
    + intros [H|[H|[H|[H|[v' [Hv H]]]]]]; try tauto.
      injection Hv as <-. tauto.
  - rewrite !In_push_if, !andb_true_iff, !Rleb_true, !Rltb_true. simpl.
    split.
    + intros [[[[[]|H]|H]|H]|H]; tauto.
    + intros [H|[H|[H|[H|[v' [Hv H]]]]]]; try tauto. discriminate.
Qed.

(** C7. The four Bollinger conditions have the stated boundaries:
    breakout-up is emitted exactly when previous <= upper and
    current > upper, breakout-down exactly when previous >= lower and
    current < lower, reversion-up exactly when previous < lower and
    current > lower, reversion-down exactly when previous > upper and
    current < upper; from previous = upper to upper + eps exactly one
    breakout-up is emitted, and from upper + eps to upper none is. *)
Theorem detection_boundaries (prev cur : R) (bb : Bands) (vwap : option R) :
  (In bb_breakout_up (detectedSignals prev cur bb vwap)
     <-> prev <= upper bb /\ cur > upper bb)
  /\ (In bb_breakout_down (detectedSignals prev cur bb vwap)
     <-> prev >= lower bb /\ cur < lower bb)
  /\ (In bb_mean_reversion_up (detectedSignals prev cur bb vwap)
     <-> prev < lower bb /\ cur > lower bb)
  /\ (In bb_mean_reversion_down (detectedSignals prev cur bb vwap)
     <-> prev > upper bb /\ cur < upper bb)
  /\ (forall eps, eps > 0 ->
      count_occ SignalType_eq_dec
        (detectedSignals (upper bb) (upper bb + eps) bb vwap) bb_breakout_up
      = 1%nat)
  /\ (forall eps, eps > 0 ->
      ~ In bb_breakout_up (detectedSignals (upper bb + eps) (upper bb) bb vwap)).
Proof.
  assert (Hiff : forall t (P : Prop),
            (P <-> match t with
                   | bb_breakout_up => prev <= upper bb /\ upper bb < cur
                   | bb_breakout_down => lower bb <= prev /\ cur < lower bb
                   | bb_mean_reversion_up => prev < lower bb /\ lower bb < cur
                   | bb_mean_reversion_down => upper bb < prev /\ cur < upper bb
                   | _ => False
                   end) ->
            match t with vwap_cross_up | vwap_cross_down | custom => False | _ => True end ->
            (In t (detectedSignals prev cur bb vwap) <-> P)).
  { intros t P HP Ht. rewrite HP, In_detectedSignals. clear HP.
    split.
    - intros [H|[H|[H|[H|[v [_ [H|H]]]]]]]; destruct H as [E H]; subst t;
        try exact H; try contradiction.
    - destruct t; try contradiction; intro H; tauto. }
  split; [apply Hiff; [split; intros []; split; lra | exact I]|].
  split; [apply Hiff; [split; intros []; split; lra | exact I]|].
  split; [apply Hiff; [split; intros []; split; lra | exact I]|].
  split; [apply Hiff; [split; intros []; split; lra | exact I]|].
  clear Hiff. split.
  - intros eps Heps. unfold detectedSignals.
    destruct (truthy vwap) as [v|]; rewrite !count_push_if; simpl;
      assert (H1 : Rleb (upper bb) (upper bb) = true) by (apply Rleb_true; lra);
      assert (H2 : Rltb (upper bb) (upper bb + eps) = true) by (apply Rltb_true; lra);
      rewrite H1, H2; simpl;
      repeat match goal with
             | |- context [if ?c then _ else _] => destruct c
             end; reflexivity.
  - intros eps Heps. rewrite In_detectedSignals.
    intros [H|[H|[H|[H|[v [_ [H|H]]]]]]];
      destruct H as [E H]; try discriminate E; lra.
Qed.

(** The C7 statement run on the bands (110, 100, 90): a move from 110 to
    111 emits one breakout-up, the move back emits none. *)
Lemma detection_boundaries_witness :
  count_occ SignalType_eq_dec
    (detectedSignals 110 (110 + 1) (mkBands 110 100 90) None) bb_breakout_up = 1%nat
  /\ ~ In bb_breakout_up (detectedSignals (110 + 1) 110 (mkBands 110 100 90) None).
Proof.
  destruct (detection_boundaries 0 0 (mkBands 110 100 90) None)
    as [_ [_ [_ [_ [H1 H2]]]]].
  split; [apply (H1 1) | apply (H2 1)]; lra.
Defined.

End ScannerSpec.

(* ===================================================================== *)
(** ** Properties of the auto-invest function *)
(* ===================================================================== *)

Module AutoInvestSpec.

Import AutoInvest.
Import Lqa.
Local Open Scope Q_scope.

(** *** Arithmetic helpers *)

Lemma Qltb_true (a b : Q) : Qltb a b = true <-> a < b.
Proof.
  unfold Qltb. rewrite negb_true_iff. split; intro H.
  - apply Qnot_le_lt. intro Hle. apply Qle_bool_iff in Hle. congruence.
  - destruct (Qle_bool b a) eqn:E; [|reflexivity].
    apply Qle_bool_iff in E. exfalso. apply (Qlt_not_le _ _ H E).
Qed.

Lemma Qltb_false (a b : Q) : Qltb a b = false <-> b <= a.
Proof.
  unfold Qltb. rewrite negb_false_iff. apply Qle_bool_iff.
Qed.

Lemma Qle_bool_false (a b : Q) : Qle_bool a b = false <-> b < a.
Proof.
  rewrite <- Qltb_true. unfold Qltb. rewrite negb_true_iff. reflexivity.
Qed.

(** [Math.max(lo, Math.min(hi, x))] is the clamp of [x]. *)
Lemma max_min_clamp (lo hi x : Q) :
  lo <= hi -> Qmax lo (Qmin hi x) == clamp lo hi x.
Proof.
  intro Hlh. unfold clamp.
  destruct (Qltb x lo) eqn:E1.
  - apply Qltb_true in E1.
    rewrite (Q.min_r hi x) by lra. apply Q.max_l. lra.
  - apply Qltb_false in E1.
    destruct (Qltb hi x) eqn:E2.
    + apply Qltb_true in E2. rewrite (Q.min_l hi x) by lra. apply Q.max_r. exact Hlh.
    + apply Qltb_false in E2. rewrite (Q.min_r hi x) by lra. apply Q.max_r. exact E1.
Qed.

Lemma clamp_bounds (lo hi x : Q) : lo <= hi -> lo <= clamp lo hi x <= hi.
Proof.
  intro H. unfold clamp.
  destruct (Qltb x lo) eqn:E1; [lra|].
  apply Qltb_false in E1.
  destruct (Qltb hi x) eqn:E2; [lra|].
  apply Qltb_false in E2. lra.
Qed.

(** *** Strings in lexicographic order *)

Lemma ltb_not_leb (a b : string) : String.ltb a b = true -> String.leb b a = false.
Proof.
  unfold String.ltb, String.leb. rewrite (String.compare_antisym b a).
  destruct (String.compare a b); simpl; congruence.
Qed.

Lemma leb_refl (a : string) : String.leb a a = true.
Proof. destruct (String.leb_total a a); assumption. Qed.

(** *** The result arrays only grow *)

Lemma process_signal_skipped env io settings r row :
  exists extra,
    skipped (process_signal env io settings r row) = skipped r ++ extra
    /\ Forall is_signal_skip extra.
Proof.
  destruct row as [signal rule]. unfold process_signal.
  destruct (valid_price (Signal.price_at_signal signal)) as [price|].
  - destruct (_ <=? 0)%Z.
    + eexists; split; [reflexivity|]. repeat constructor.
    + destruct (inserted _); exists []; simpl; rewrite app_nil_r; auto.
  - eexists; split; [reflexivity|]. repeat constructor.
Qed.

Lemma signals_loop_skipped env io settings rows r :
  exists extra,
    skipped (fold_left (process_signal env io settings) rows r) = skipped r ++ extra
    /\ Forall is_signal_skip extra.
Proof.
  revert r; induction rows as [|row rows IH]; intro r; simpl.
  - exists []. rewrite app_nil_r. auto.
  - destruct (IH (process_signal env io settings r row)) as [e2 [E2 F2]].
    destruct (process_signal_skipped env io settings r row) as [e1 [E1 F1]].
    exists (e1 ++ e2). rewrite E2, E1, app_assoc. split; [reflexivity|].
    apply Forall_app; auto.
Qed.

(** *** C9: the trading-hours gate *)

(** C9, counterexample to a window that excludes its end: at exactly
    [trading_hours_end] (16:00:00) the pass does not skip the user; it
    writes an order for the pending signal. *)
Lemma executes_at_trading_hours_end :
  currentTime (at_time "16:00:00") = Settings.trading_hours_end alice
  /\ response_skipped
       (snd (execute_pending_signals (at_time "16:00:00") insert_ok
               (store_with (rule_with (Some 20) (Some 10000))
                           (signal_at bb_breakout_up (Finite 100))))) = []
  /\ order_count "sig-1"
       (fst (execute_pending_signals (at_time "16:00:00") insert_ok
               (store_with (rule_with (Some 20) (Some 10000))
                           (signal_at bb_breakout_up (Finite 100))))) = 1%nat.
Proof. vm_compute. repeat split. Qed.

(** C9, amended. The gate is the closed interval
    [trading_hours_start, trading_hours_end] in string order: the window
    test holds exactly when start <= now and now <= end; for every time
    strictly before the start or strictly after the end the user is skipped
    with "Outside trading hours" and nothing else changes; inside the
    interval no such entry is recorded; at exactly the end the window test
    holds. *)
Theorem trading_hours_gate (env : Env) (io : nat -> InsertIO) (r : Run)
  (settings : Settings.t) :
  let t := currentTime env in
  let s := Settings.trading_hours_start settings in
  let e := Settings.trading_hours_end settings in
  let user := Settings.user_id settings in
  (isWithinTradingHours t s e = true
     <-> String.leb s t = true /\ String.leb t e = true)
  /\ (String.ltb t s = true \/ String.ltb e t = true ->
      process_user env io r settings
      = skip (SkipUser user "Outside trading hours") r)
  /\ (String.leb s t = true -> String.leb t e = true ->
      exists extra,
        skipped (process_user env io r settings) = skipped r ++ extra
        /\ ~ In (SkipUser user "Outside trading hours") extra)
  /\ (String.leb s e = true -> isWithinTradingHours e s e = true).
Proof.
  intros t s e user. split; [|split; [|split]].
  - unfold isWithinTradingHours. apply andb_true_iff.
  - intro H. unfold process_user. fold t s e user.
    assert (Hw : isWithinTradingHours t s e = false).
    { unfold isWithinTradingHours. destruct H as [H|H];
        apply ltb_not_leb in H; rewrite H; [reflexivity | apply andb_false_r]. }
    rewrite Hw. reflexivity.
  - intros Hs He. unfold process_user. fold t s e user.
    assert (Hw : isWithinTradingHours t s e = true).
    { unfold isWithinTradingHours. rewrite Hs, He. reflexivity. }
    rewrite Hw. simpl negb. cbv iota.
    destruct (_ <=? _)%Z.
    { eexists; split; [reflexivity|]. intros [H|[]]. discriminate. }
    destruct (Qle_bool _ _).
    { eexists; split; [reflexivity|]. intros [H|[]]. discriminate. }
    destruct (signals_loop_skipped env io settings
                (pending_signals (db r) user) r) as [extra [E F]].
    exists extra. split; [exact E|].
    intro Hin. rewrite Forall_forall in F. apply (F _ Hin).
  - intro H. unfold isWithinTradingHours. rewrite H, leb_refl. reflexivity.
Qed.

(** The C9 statement run on the example store: skipped at 16:00:01, not
    skipped for the hours at 16:00:00. *)
Lemma trading_hours_gate_witness :
  process_user (at_time "16:00:01") insert_ok
    (start_run (store_with (rule_with (Some 20) (Some 10000))
                           (signal_at bb_breakout_up (Finite 100)))) alice
  = skip (SkipUser "alice" "Outside trading hours")
      (start_run (store_with (rule_with (Some 20) (Some 10000))
                             (signal_at bb_breakout_up (Finite 100))))
  /\ isWithinTradingHours "16:00:00" "09:30:00" "16:00:00" = true.
Proof.
  split.
  - apply (trading_hours_gate (at_time "16:00:01") insert_ok _ alice).
    right. reflexivity.
  - apply (trading_hours_gate (at_time "16:00:00") insert_ok
             (start_run (store_with (rule_with None None)
                                    (signal_at custom NaN))) alice).
    reflexivity.
Defined.

(** *** Sizing helpers *)

Lemma calculatePositionSize_sized (settings : Settings.t) (rule : SignalRule.t)
  (p : Q) :
  0 < p ->
  calculatePositionSize settings rule (Finite p) defaultAccountValue
  = sized_quantity settings rule p.
Proof.
  intro Hp. unfold calculatePositionSize, defaultAccountValue, sized_quantity.
  assert (E : Qle_bool p 0 = false) by (apply Qle_bool_false; exact Hp).
  rewrite E. change (Qle_bool 100000 0) with false. cbv iota.
  set (a := or_default (Settings.max_position_size settings) 10000).
  set (b := or_default (SignalRule.max_position_value rule) 10000).
  set (c := or_default (SignalRule.position_size_percent rule) 5).
  assert (Hfloor :
    Qfloor (Qmin (Qmax 0 (Qmin 1000000 a))
                 (Qmin (Qmax 0 (Qmin 1000000 b))
                       (100000 * Qmax (1 # 10) (Qmin 100 c) / 100)) / p)
    = Qfloor (Qmin (Qmin (clamp 0 1000000 a) (clamp 0 1000000 b))
                   (100000 * clamp (1 # 10) 100 c / 100) / p)).
  { apply Qfloor_comp.
    rewrite !max_min_clamp by (compute; discriminate).
    rewrite Q.min_assoc. reflexivity. }
  rewrite Hfloor. lia.
Qed.

Lemma valid_price_positive (n : number) (p : Q) :
  n = Finite p -> 0 < p -> valid_price n = Some p.
Proof.
  intros -> Hp. unfold valid_price.
  assert (E : Qle_bool p 0 = false) by (apply Qle_bool_false; exact Hp).
  rewrite E. reflexivity.
Qed.

Lemma valid_price_rejects (n : number) :
  match n with Finite p => p <= 0 | _ => True end -> valid_price n = None.
Proof.
  destruct n as [p| | |]; simpl; auto.
  intro H. apply Qle_bool_iff in H. rewrite H. reflexivity.
Qed.

(** *** C5: order side and protective prices *)

Lemma order_side_buy (t : SignalType) :
  order_side t = buy
  <-> In t [bb_breakout_up; bb_mean_reversion_up; vwap_cross_up].
Proof.
  destruct t; vm_compute; split; intro H; try discriminate; try reflexivity;
    try tauto;
    repeat match goal with
           | H : _ \/ _ |- _ => destruct H as [H|H]; try discriminate H
           end; try contradiction.
Qed.

Lemma order_side_sell (t : SignalType) :
  order_side t = sell
  <-> ~ In t [bb_breakout_up; bb_mean_reversion_up; vwap_cross_up].
Proof.
  rewrite <- order_side_buy. destruct (order_side t); split; intro H;
    try reflexivity; try discriminate; try congruence.
Qed.

Lemma validated_percent_some (x hi : Q) :
  ~ x == 0 -> validated_percent (Some x) hi = Some (Qmax (1 # 10) (Qmin hi x)).
Proof.
  intro Hx. unfold validated_percent, truthy.
  destruct (Qeq_bool x 0) eqn:E; [|reflexivity].
  apply Qeq_bool_iff in E. contradiction.
Qed.

Lemma validated_percent_none (p : option Q) (hi : Q) :
  truthy p = false -> validated_percent p hi = None.
Proof.
  intro H. unfold validated_percent. destruct p; [rewrite H|]; reflexivity.
Qed.

Lemma validated_truthy (x hi : Q) :
  truthy (Some (Qmax (1 # 10) (Qmin hi x))) = true.
Proof.
  unfold truthy. apply negb_true_iff.
  destruct (Qeq_bool _ 0) eqn:E; [|reflexivity].
  apply Qeq_bool_iff in E.
  pose proof (Q.le_max_l (1 # 10) (Qmin hi x)) as H. rewrite E in H.
  exfalso. revert H. apply Qlt_not_le. reflexivity.
Qed.

Lemma stopLossPrice_set (price x : Q) (side : OrderSide) (rule : SignalRule.t) :
  SignalRule.stop_loss_percent rule = Some x -> ~ x == 0 ->
  exists sl, stopLossPrice price side rule = Some sl
             /\ sl == price * (1 - sign side * clamp (1 # 10) 50 x / 100).
Proof.
  intros Hr Hx. unfold stopLossPrice, stopLossPercent.
  rewrite Hr, (validated_percent_some x 50 Hx), validated_truthy.
  eexists; split; [reflexivity|].
  rewrite max_min_clamp by (compute; discriminate). reflexivity.
Qed.

Lemma takeProfitPrice_set (price x : Q) (side : OrderSide) (rule : SignalRule.t) :
  SignalRule.take_profit_percent rule = Some x -> ~ x == 0 ->
  exists tp, takeProfitPrice price side rule = Some tp
             /\ tp == price * (1 + sign side * clamp (1 # 10) 100 x / 100).
Proof.
  intros Hr Hx. unfold takeProfitPrice, takeProfitPercent.
  rewrite Hr, (validated_percent_some x 100 Hx), validated_truthy.
  eexists; split; [reflexivity|].
  rewrite max_min_clamp by (compute; discriminate). reflexivity.
Qed.

Lemma clamp_inside (lo hi x : Q) : lo <= x <= hi -> clamp lo hi x = x.
Proof.
  intros [H1 H2]. unfold clamp.
  destruct (Qltb x lo) eqn:E1; [apply Qltb_true in E1; lra|].
  destruct (Qltb hi x) eqn:E2; [apply Qltb_true in E2; lra|].
  reflexivity.
Qed.

(** C5, counterexample to the formula on the raw percentage: a rule with
    [stop_loss_percent = 60] on a buy at 100 gives the order a stop-loss
    price of 50, not 100 * (1 - 60/100) = 40. *)
Lemma wide_stop_loss_is_capped :
  exists o sl,
    orders (fst (execute_pending_signals (at_time "12:00:00") insert_ok
                   (store_with (rule_with (Some 60) (Some 10000))
                               (signal_at bb_breakout_up (Finite 100))))) = [o]
    /\ Order.side o = buy
    /\ Order.stop_loss_price o = Some sl
    /\ sl == 50
    /\ ~ sl == 100 * (1 - 1 * 60 / 100).
Proof.
  eexists. eexists. split; [vm_compute; reflexivity|].
  split; [reflexivity|]. split; [reflexivity|].
  split; [reflexivity | discriminate].
Qed.

(** C5, amended. The order row is a buy exactly for the three upward
    signal types and a sell otherwise.  A stop-loss percentage that is
    present and not 0 gives
    stopLossPrice = price * (1 - sign * p / 100) with p the percentage
    clamped to [0.1, 50]; a take-profit percentage gives
    takeProfitPrice = price * (1 + sign * p / 100) with p clamped to
    [0.1, 100]; sign is +1 for a buy and -1 for a sell; an absent (or 0)
    percentage leaves its own price null, independently of the other.
    With price 100 and stop-loss 20 the stop is 80 for a buy and 120 for
    a sell.  This row is the one the signal loop inserts for a signal it
    executes. *)
Theorem side_and_protective_prices (env : Env) (settings : Settings.t)
  (signal : Signal.t) (rule : SignalRule.t) (price : Q) (quantity : Z)
  (orderId row_id : string) :
  let o := new_order env settings signal rule price quantity orderId row_id in
  let sgn := match Order.side o with buy => 1 | sell => -1 end in
  (Order.side o = buy
     <-> In (Signal.signal_type signal)
            [bb_breakout_up; bb_mean_reversion_up; vwap_cross_up])
  /\ (Order.side o = sell
     <-> ~ In (Signal.signal_type signal)
              [bb_breakout_up; bb_mean_reversion_up; vwap_cross_up])
  /\ (forall x, SignalRule.stop_loss_percent rule = Some x -> ~ x == 0 ->
      exists sl, Order.stop_loss_price o = Some sl
                 /\ sl == price * (1 - sgn * clamp (1 # 10) 50 x / 100)
                 /\ ((1 # 10) <= x <= 50 -> sl == price * (1 - sgn * x / 100)))
  /\ (forall x, SignalRule.take_profit_percent rule = Some x -> ~ x == 0 ->
      exists tp, Order.take_profit_price o = Some tp
                 /\ tp == price * (1 + sgn * clamp (1 # 10) 100 x / 100)
                 /\ ((1 # 10) <= x <= 100 -> tp == price * (1 + sgn * x / 100)))
  /\ (truthy (SignalRule.stop_loss_percent rule) = false ->
      Order.stop_loss_price o = None)
  /\ (truthy (SignalRule.take_profit_percent rule) = false ->
      Order.take_profit_price o = None)
  /\ (price == 100 -> SignalRule.stop_loss_percent rule = Some 20 ->
      exists sl, Order.stop_loss_price o = Some sl
                 /\ sl == match Order.side o with buy => 80 | sell => 120 end)
  /\ (forall io r,
        Signal.price_at_signal signal = Finite price -> 0 < price ->
        quantity = sized_quantity settings rule price -> (0 < quantity)%Z ->
        inserted (io (attempts r)) = Some row_id ->
        auto_id (io (attempts r)) = orderId ->
        orders (db (process_signal env io settings r (signal, rule)))
        = orders (db r) ++ [o]).
Proof.
  intros o sgn.
  assert (Hsgn : sgn = sign (Order.side o)) by (unfold sgn; destruct (Order.side o); reflexivity).
  split; [apply order_side_buy|].
  split; [apply order_side_sell|].
  split.
  { intros x Hr Hx.
    destruct (stopLossPrice_set price x (Order.side o) rule Hr Hx) as [sl [E1 E2]].
    exists sl. rewrite Hsgn. split; [exact E1|]. split; [exact E2|].
    intro Hin. rewrite E2, (clamp_inside _ _ _ Hin). reflexivity. }
  split.
  { intros x Hr Hx.
    destruct (takeProfitPrice_set price x (Order.side o) rule Hr Hx) as [tp [E1 E2]].
    exists tp. rewrite Hsgn. split; [exact E1|]. split; [exact E2|].
    intro Hin. rewrite E2, (clamp_inside _ _ _ Hin). reflexivity. }
  split.
  { intro H. unfold o, new_order. cbn [Order.stop_loss_price].
    unfold stopLossPrice, stopLossPercent.
    rewrite (validated_percent_none _ 50 H). reflexivity. }
  split.
  { intro H. unfold o, new_order. cbn [Order.take_profit_price].
    unfold takeProfitPrice, takeProfitPercent.
    rewrite (validated_percent_none _ 100 H). reflexivity. }
  split.
  { intros Hp Hr.
    destruct (stopLossPrice_set price 20 (Order.side o) rule Hr) as [sl [E1 E2]];
      [discriminate|].
    exists sl. split; [exact E1|].
    rewrite E2, Hp. destruct (Order.side o); reflexivity. }
  intros io r Hp Hpos Hq Hqpos Hins Hauto. unfold process_signal.
  rewrite (valid_price_positive _ price Hp Hpos), Hp,
          (calculatePositionSize_sized settings rule price Hpos), <- Hq.
  destruct (Z.leb_spec quantity 0) as [Hle|_]; [lia|].
  rewrite Hins, Hauto. reflexivity.
Qed.

(** The C5 statement run on a sell signal at 100 with a 20 percent stop. *)
Lemma side_and_protective_prices_witness :
  exists sl,
    Order.stop_loss_price
      (new_order (at_time "12:00:00") alice (signal_at bb_breakout_down (Finite 100))
                 (rule_with (Some 20) None) 100 50 "AUTO-1" "order-1") = Some sl
    /\ sl == 120.
Proof.
  destruct (side_and_protective_prices (at_time "12:00:00") alice
              (signal_at bb_breakout_down (Finite 100))
              (rule_with (Some 20) None) 100 50 "AUTO-1" "order-1")
    as [_ [_ [_ [_ [_ [_ [H _]]]]]]].
  destruct H as [sl [E1 E2]]; [reflexivity | reflexivity |].
  exists sl. split; [exact E1 | exact E2].
Defined.

(** *** C4: position sizing and per-signal skips *)

(** C4. The sizing at a rule with [max_position_value = 50], a 5 percent
    position size, a maximum position size of 10000 and a signal price of
    10: [calculatePositionSize] returns floor(50 / 10) = 5 and the pass
    places an order of 5, where [max_position_value] clamped to
    [100, 1000000] gives floor(min(10000, 100, 5000) / 10) = 10. *)
Lemma small_max_position_value_is_kept :
  calculatePositionSize alice (rule_with (Some 20) (Some 50)) (Finite 10)
                        defaultAccountValue = 5%Z
  /\ (exists o,
        orders (fst (execute_pending_signals (at_time "12:00:00") insert_ok
                       (store_with (rule_with (Some 20) (Some 50))
                                   (signal_at bb_breakout_up (Finite 10))))) = [o]
        /\ Order.quantity o = 5%Z)
  /\ Qfloor (Qmin 10000 (Qmin (clamp 100 1000000 50) (100000 * 5 / 100)) / 10)
     = 10%Z.
Proof.
  split; [reflexivity|]. split; [|reflexivity].
  eexists. split; [vm_compute; reflexivity | reflexivity].
Qed.

(** What the sizing and the two per-signal skips do, as the code has
    them.  For a positive finite price the quantity is
    min(1000000, max(0, floor(min(S, V, 100000 * P / 100) / price))),
    where S is [max_position_size] (10000 when null or 0) clamped to
    [0, 1000000], V is [max_position_value] (10000 when null or 0) clamped
    to [0, 1000000] and P is [position_size_percent] (5 when null or 0)
    clamped to [0.1, 100]; that quantity is the one on the order row.  A
    price that is not finite and positive skips the signal with
    "Invalid price", a quantity <= 0 skips it with
    "Position size too small"; in both cases only the skip entry is added
    and the loop goes on with the remaining signals.  With a 5 percent
    rule at price 150 the quantity is 33. *)
Theorem sizing_and_signal_skips (env : Env) (io : nat -> InsertIO)
  (settings : Settings.t) (r : Run) (signal : Signal.t) (rule : SignalRule.t)
  (rest : list (Signal.t * SignalRule.t)) :
  let step := process_signal env io settings in
  (forall p, Signal.price_at_signal signal = Finite p -> 0 < p ->
     calculatePositionSize settings rule (Signal.price_at_signal signal)
                           defaultAccountValue
     = sized_quantity settings rule p)
  /\ (forall p row_id,
        Signal.price_at_signal signal = Finite p -> 0 < p ->
        (0 < sized_quantity settings rule p)%Z ->
        inserted (io (attempts r)) = Some row_id ->
        exists o,
          orders (db (step r (signal, rule))) = orders (db r) ++ [o]
          /\ Order.quantity o = sized_quantity settings rule p
          /\ Order.signal_id o = Some (Signal.id signal))
  /\ (match Signal.price_at_signal signal with
      | Finite p => p <= 0
      | _ => True
      end ->
      step r (signal, rule)
      = skip (SkipSignal (Signal.id signal) "Invalid price") r
      /\ fold_left step ((signal, rule) :: rest) r
         = fold_left step rest
             (skip (SkipSignal (Signal.id signal) "Invalid price") r))
  /\ (forall p, Signal.price_at_signal signal = Finite p -> 0 < p ->
        (sized_quantity settings rule p <= 0)%Z ->
        step r (signal, rule)
        = skip (SkipSignal (Signal.id signal) "Position size too small") r
        /\ fold_left step ((signal, rule) :: rest) r
           = fold_left step rest
               (skip (SkipSignal (Signal.id signal) "Position size too small") r))
  /\ (forall x, (1 # 10) <= clamp (1 # 10) 100 x <= 100
                 /\ 0 <= clamp 0 1000000 x <= 1000000)
  /\ sized_quantity alice (rule_with None None) 150 = 33%Z.
Proof.
  intro step. split; [|split; [|split; [|split; [|split]]]].
  - intros p Hp Hpos. rewrite Hp. apply calculatePositionSize_sized. exact Hpos.
  - intros p row_id Hp Hpos Hq Hins. unfold step, process_signal.
    rewrite (valid_price_positive _ p Hp Hpos), Hp,
            (calculatePositionSize_sized settings rule p Hpos).
    destruct (Z.leb_spec (sized_quantity settings rule p) 0) as [Hle|_]; [lia|].
    rewrite Hins. eexists. split; [reflexivity|]. split; reflexivity.
  - intro Hbad.
    assert (E : step r (signal, rule)
                = skip (SkipSignal (Signal.id signal) "Invalid price") r).
    { unfold step, process_signal. rewrite (valid_price_rejects _ Hbad). reflexivity. }
    split; [exact E|].
    change (fold_left step ((signal, rule) :: rest) r)
      with (fold_left step rest (step r (signal, rule))).
    rewrite E. reflexivity.
  - intros p Hp Hpos Hq.
    assert (E : step r (signal, rule)
                = skip (SkipSignal (Signal.id signal) "Position size too small") r).
    { unfold step, process_signal.
      rewrite (valid_price_positive _ p Hp Hpos), Hp,
              (calculatePositionSize_sized settings rule p Hpos).
      destruct (Z.leb_spec (sized_quantity settings rule p) 0) as [_|Hgt]; [|lia].
      reflexivity. }
    split; [exact E|].
    change (fold_left step ((signal, rule) :: rest) r)
      with (fold_left step rest (step r (signal, rule))).
    rewrite E. reflexivity.
  - intro x. split; apply clamp_bounds; discriminate.
  - reflexivity.
Qed.

(** On the example store a signal at 150 is sized at 33 and a signal
    without a finite price is skipped. *)
Lemma sizing_and_signal_skips_witness :
  calculatePositionSize alice (rule_with None None) (Finite 150) defaultAccountValue
  = 33%Z
  /\ process_signal (at_time "12:00:00") insert_ok alice
       (start_run (store_with (rule_with None None) (signal_at custom NaN)))
       (signal_at custom NaN, rule_with None None)
     = skip (SkipSignal "sig-1" "Invalid price")
         (start_run (store_with (rule_with None None) (signal_at custom NaN))).
Proof.
  split.
  - destruct (sizing_and_signal_skips (at_time "12:00:00") insert_ok alice
                (start_run (store_with (rule_with None None)
                                       (signal_at custom (Finite 150))))
                (signal_at custom (Finite 150)) (rule_with None None) [])
      as [H _].
    exact (eq_trans (H 150 eq_refl eq_refl) eq_refl).
  - destruct (sizing_and_signal_skips (at_time "12:00:00") insert_ok alice
                (start_run (store_with (rule_with None None) (signal_at custom NaN)))
                (signal_at custom NaN) (rule_with None None) [])
      as [_ [_ [H _]]].
    apply H. exact I.
Defined.

(** *** What one signal iteration does to the store *)

Lemma process_signal_cases env io settings r signal rule :
  db (process_signal env io settings r (signal, rule)) = db r
  \/ exists o pos,
       db (process_signal env io settings r (signal, rule))
       = commit_execution (db r) (Signal.id signal) o pos
       /\ Order.signal_id o = Some (Signal.id signal)
       /\ Order.user_id o = Settings.user_id settings.
Proof.
  unfold process_signal.
  destruct (valid_price (Signal.price_at_signal signal)) as [price|];
    [|left; reflexivity].
  destruct (_ <=? 0)%Z; [left; reflexivity|].
  destruct (inserted (io (attempts r))) as [row_id|]; [|left; reflexivity].
  right. eexists. eexists. split; [reflexivity|]. split; reflexivity.
Qed.


(** *** C3: the daily trade limit *)

Lemma maxDailyTrades_clamp (settings : Settings.t) :
  maxDailyTrades settings
  = clampZ 1 1000 (or_defaultZ (Settings.max_daily_trades settings) 10).
Proof.
  unfold maxDailyTrades, clampZ.
  destruct (Z.ltb_spec (or_defaultZ (Settings.max_daily_trades settings) 10) 1);
    [lia|].
  destruct (Z.ltb_spec 1000 (or_defaultZ (Settings.max_daily_trades settings) 10));
    lia.
Qed.

Lemma maxDailyTrades_bounds (settings : Settings.t) :
  (1 <= maxDailyTrades settings <= 1000)%Z.
Proof. unfold maxDailyTrades. lia. Qed.

Lemma filter_and {A} (f g : A -> bool) (l : list A) :
  filter (fun x => f x && g x) l = filter g (filter f l).
Proof.
  induction l as [|x t IH]; simpl; [reflexivity|].
  destruct (f x); simpl; [destruct (g x)|]; rewrite IH; reflexivity.
Qed.

Lemma todaysTrades_of_user env d user :
  todaysTrades env d user
  = Z.of_nat (length (filter (created_today env) (orders_of_user user d))).
Proof. unfold todaysTrades, orders_of_user. rewrite filter_and. reflexivity. Qed.

Lemma process_user_limit env io r settings :
  (maxDailyTrades settings
   <= todaysTrades env (db r) (Settings.user_id settings))%Z ->
  db (process_user env io r settings) = db r
  /\ executed (process_user env io r settings) = executed r
  /\ attempts (process_user env io r settings) = attempts r
  /\ (isWithinTradingHours (currentTime env)
        (Settings.trading_hours_start settings)
        (Settings.trading_hours_end settings) = true ->
      process_user env io r settings
      = skip (SkipUser (Settings.user_id settings) "Max daily trades reached") r).
Proof.
  intro H. unfold process_user.
  destruct (isWithinTradingHours _ _ _); simpl negb; cbv iota.
  - destruct (Z.leb_spec (maxDailyTrades settings)
                (todaysTrades env (db r) (Settings.user_id settings))); [|lia].
    repeat split; reflexivity.
  - repeat split; try reflexivity. discriminate.
Qed.

Lemma signals_loop_other_user env io settings user rows r :
  Settings.user_id settings <> user ->
  orders_of_user user (db (fold_left (process_signal env io settings) rows r))
  = orders_of_user user (db r).
Proof.
  intro Hne. revert r; induction rows as [|[signal rule] rows IH]; intro r.
  - reflexivity.
  - cbn [fold_left]. rewrite IH.
    destruct (process_signal_cases env io settings r signal rule)
      as [E|[o [pos [E [_ Hu]]]]]; rewrite E; [reflexivity|].
    unfold orders_of_user, commit_execution. cbn [orders].
    rewrite filter_app. simpl.
    assert (Hf : (Order.user_id o =? user)%string = false)
      by (apply String.eqb_neq; congruence).
    rewrite Hf. apply app_nil_r.
Qed.

Lemma process_user_other_user env io r settings user :
  Settings.user_id settings <> user ->
  orders_of_user user (db (process_user env io r settings))
  = orders_of_user user (db r).
Proof.
  intro Hne. unfold process_user.
  destruct (negb _); [reflexivity|].
  destruct (_ <=? _)%Z; [reflexivity|].
  destruct (Qle_bool _ _); [reflexivity|].
  apply signals_loop_other_user. exact Hne.
Qed.

Lemma users_loop_limit env io (d0 : DB) user (l : list Settings.t) (r : Run) :
  (forall st, In st l -> Settings.user_id st = user ->
     (maxDailyTrades st <= todaysTrades env d0 user)%Z) ->
  orders_of_user user (db r) = orders_of_user user d0 ->
  orders_of_user user (db (fold_left (process_user env io) l r))
  = orders_of_user user d0.
Proof.
  revert r; induction l as [|st l IH]; intros r Hl Hr; [exact Hr|].
  cbn [fold_left]. apply IH.
  - intros st' Hin. apply Hl. right. exact Hin.
  - destruct (String.eqb_spec (Settings.user_id st) user) as [Heq|Hne].
    + assert (Hlim : (maxDailyTrades st
                      <= todaysTrades env (db r) (Settings.user_id st))%Z).
      { rewrite Heq, todaysTrades_of_user, Hr, <- todaysTrades_of_user.
        apply Hl; [left; reflexivity | exact Heq]. }
      destruct (process_user_limit env io r st Hlim) as [E _].
      rewrite E. exact Hr.
    + rewrite (process_user_other_user env io r st user Hne). exact Hr.
Qed.

Lemma process_user_limit_entry env io r settings :
  (maxDailyTrades settings
   <= todaysTrades env (db r) (Settings.user_id settings))%Z ->
  (isWithinTradingHours (currentTime env)
     (Settings.trading_hours_start settings)
     (Settings.trading_hours_end settings) = true ->
   skipped (process_user env io r settings)
   = skipped r ++ [SkipUser (Settings.user_id settings)
                            "Max daily trades reached"])
  /\ (isWithinTradingHours (currentTime env)
        (Settings.trading_hours_start settings)
        (Settings.trading_hours_end settings) = false ->
      skipped (process_user env io r settings)
      = skipped r ++ [SkipUser (Settings.user_id settings)
                               "Outside trading hours"]).
Proof.
  intro H. unfold process_user.
  destruct (isWithinTradingHours _ _ _); simpl negb; cbv iota.
  - destruct (Z.leb_spec (maxDailyTrades settings)
                (todaysTrades env (db r) (Settings.user_id settings))); [|lia].
    split; [reflexivity | discriminate].
  - split; [discriminate | reflexivity].
Qed.

Lemma process_user_skipped_grows env io r settings :
  exists extra, skipped (process_user env io r settings) = skipped r ++ extra.
Proof.
  unfold process_user.
  destruct (negb _); [eexists; reflexivity|].
  destruct (_ <=? _)%Z; [eexists; reflexivity|].
  destruct (Qle_bool _ _); [eexists; reflexivity|].
  destruct (signals_loop_skipped env io settings
              (pending_signals (db r) (Settings.user_id settings)) r)
    as [extra [E _]].
  exists extra. exact E.
Qed.

Lemma users_loop_skipped_grows env io (l : list Settings.t) (r : Run) :
  exists extra,
    skipped (fold_left (process_user env io) l r) = skipped r ++ extra.
Proof.
  revert r; induction l as [|st l IH]; intro r; cbn [fold_left].
  - exists []. now rewrite app_nil_r.
  - destruct (IH (process_user env io r st)) as [e2 E2].
    destruct (process_user_skipped_grows env io r st) as [e1 E1].
    exists (e1 ++ e2). now rewrite E2, E1, app_assoc.
Qed.

Lemma users_loop_limit_entry env io (d0 : DB) user (l : list Settings.t)
  (r : Run) :
  (forall st, In st l -> Settings.user_id st = user ->
     (maxDailyTrades st <= todaysTrades env d0 user)%Z) ->
  orders_of_user user (db r) = orders_of_user user d0 ->
  forall st, In st l -> Settings.user_id st = user ->
    isWithinTradingHours (currentTime env) (Settings.trading_hours_start st)
                         (Settings.trading_hours_end st) = true ->
    In (SkipUser user "Max daily trades reached")
       (skipped (fold_left (process_user env io) l r)).
Proof.
  revert r; induction l as [|st0 l IH]; intros r Hl Hr st Hin Hu Hw;
    [destruct Hin|].
  cbn [fold_left].
  assert (Hr' : orders_of_user user (db (process_user env io r st0))
                = orders_of_user user d0).
  { destruct (String.eqb_spec (Settings.user_id st0) user) as [Heq|Hne].
    - assert (Hlim : (maxDailyTrades st0
                      <= todaysTrades env (db r) (Settings.user_id st0))%Z).
      { rewrite Heq, todaysTrades_of_user, Hr, <- todaysTrades_of_user.
        apply Hl; [left; reflexivity | exact Heq]. }
      destruct (process_user_limit env io r st0 Hlim) as [E _].
      rewrite E. exact Hr.
    - rewrite (process_user_other_user env io r st0 user Hne). exact Hr. }
  destruct Hin as [->|Hin].
  - assert (Hlim : (maxDailyTrades st
                    <= todaysTrades env (db r) (Settings.user_id st))%Z).
    { rewrite Hu, todaysTrades_of_user, Hr, <- todaysTrades_of_user.
      apply Hl; [left; reflexivity | exact Hu]. }
    destruct (process_user_limit_entry env io r st Hlim) as [E _].
    specialize (E Hw).
    destruct (users_loop_skipped_grows env io l (process_user env io r st))
      as [extra E2].
    rewrite E2, E, Hu. apply in_or_app. left. apply in_or_app. right.
    left. reflexivity.
  - apply (IH _ (fun st' Hin' => Hl st' (or_intror Hin')) Hr' st Hin Hu Hw).
Qed.

(** C3, counterexample to the stored limit being clamped as it is: with
    [max_daily_trades = 0] the clamp to [1, 1000] would give a limit of 1,
    and the user's one order of today is not below it; the pass takes the
    limit as 10, skips nothing and places a second order. *)
Lemma zero_daily_limit_defaults_to_ten :
  Settings.max_daily_trades alice_zero_limit = Some 0%Z
  /\ clampZ 1 1000 0 = 1%Z
  /\ todaysTrades (at_time "12:00:00") zero_limit_store "alice" = 1%Z
  /\ maxDailyTrades alice_zero_limit = 10%Z
  /\ (exists o,
        orders (fst (execute_pending_signals (at_time "12:00:00") insert_next
                       zero_limit_store)) = [held_order; o]
        /\ Order.user_id o = "alice"%string
        /\ Order.signal_id o = Some "sig-1"%string)
  /\ response_skipped
       (snd (execute_pending_signals (at_time "12:00:00") insert_next
               zero_limit_store)) = [].
Proof.
  split; [reflexivity|]. split; [reflexivity|]. split; [reflexivity|].
  split; [reflexivity|]. split.
  - eexists. split; [vm_compute; reflexivity|]. split; reflexivity.
  - vm_compute. reflexivity.
Qed.

(** C3, amended. [maxDailyTrades] is the stored [max_daily_trades], taken
    as 10 when it is null or 0, then clamped to [1, 1000].  When the count
    of the user's orders created today is not below it, the user's
    iteration writes nothing, attempts no insert and executes nothing, and
    appends exactly one entry to the skipped list: "Max daily trades
    reached" when the clock is inside the user's trading hours (the gate
    tested before), "Outside trading hours" otherwise.  Over a whole pass
    no order of that user is added, however many signals are pending, and
    inside the trading hours the response lists "Max daily trades reached"
    for the user; in particular with [max_daily_trades = 1] and one order
    today. *)
Theorem daily_trade_limit (env : Env) (io : nat -> InsertIO) (d : DB) (r : Run)
  (settings : Settings.t) (user : string) :
  let within st :=
    isWithinTradingHours (currentTime env) (Settings.trading_hours_start st)
                         (Settings.trading_hours_end st) in
  ((Settings.max_daily_trades settings = None
    \/ Settings.max_daily_trades settings = Some 0%Z ->
    maxDailyTrades settings = 10%Z)
   /\ (forall n, Settings.max_daily_trades settings = Some n -> n <> 0%Z ->
         maxDailyTrades settings = clampZ 1 1000 n)
   /\ (1 <= maxDailyTrades settings <= 1000)%Z)
  /\ ((maxDailyTrades settings
       <= todaysTrades env (db r) (Settings.user_id settings))%Z ->
      db (process_user env io r settings) = db r
      /\ executed (process_user env io r settings) = executed r
      /\ attempts (process_user env io r settings) = attempts r
      /\ (within settings = true ->
          skipped (process_user env io r settings)
          = skipped r ++ [SkipUser (Settings.user_id settings)
                                   "Max daily trades reached"])
      /\ (within settings = false ->
          skipped (process_user env io r settings)
          = skipped r ++ [SkipUser (Settings.user_id settings)
                                   "Outside trading hours"]))
  /\ ((forall st, In st (allSettings d) -> Settings.user_id st = user ->
         (maxDailyTrades st <= todaysTrades env d user)%Z) ->
      orders_of_user user (fst (execute_pending_signals env io d))
      = orders_of_user user d
      /\ forall st, In st (allSettings d) -> Settings.user_id st = user ->
           within st = true ->
           In (SkipUser user "Max daily trades reached")
              (response_skipped (snd (execute_pending_signals env io d))))
  /\ ((forall st, In st (allSettings d) -> Settings.user_id st = user ->
         Settings.max_daily_trades st = Some 1%Z) ->
      (1 <= todaysTrades env d user)%Z ->
      orders_of_user user (fst (execute_pending_signals env io d))
      = orders_of_user user d).
Proof.
  intro within.
  assert (Hpass : (forall st, In st (allSettings d) -> Settings.user_id st = user ->
                     (maxDailyTrades st <= todaysTrades env d user)%Z) ->
                  orders_of_user user (fst (execute_pending_signals env io d))
                  = orders_of_user user d).
  { intro H. unfold execute_pending_signals.
    destruct (allSettings d) as [|st l] eqn:El; [reflexivity|].
    cbn [fst]. unfold run_pending. rewrite El.
    apply users_loop_limit; [exact H | reflexivity]. }
  split.
  { split; [|split; [|apply maxDailyTrades_bounds]].
    - unfold maxDailyTrades. intros [->| ->]; reflexivity.
    - intros n Hn Hz. rewrite maxDailyTrades_clamp, Hn. cbn [or_defaultZ].
      apply Z.eqb_neq in Hz. rewrite Hz. reflexivity. }
  split.
  { intro H. destruct (process_user_limit env io r settings H) as [E1 [E2 [E3 _]]].
    destruct (process_user_limit_entry env io r settings H) as [E4 E5].
    auto. }
  split.
  { intro H. split; [exact (Hpass H)|].
    intros st Hin Hu Hw. unfold execute_pending_signals.
    destruct (allSettings d) as [|st0 l] eqn:El; [destruct Hin|].
    cbn [snd response_skipped]. unfold run_pending. rewrite El.
    apply (users_loop_limit_entry env io d user (st0 :: l) (start_run d) H
             eq_refl st Hin Hu Hw). }
  intros H1 Hcount. apply Hpass. intros st Hin Hu.
  unfold maxDailyTrades. rewrite (H1 st Hin Hu). simpl. lia.
Qed.

(** The C3 statement run on a user limited to one trade who already has
    one order today: the pass adds no order and reports the reason. *)
Lemma daily_trade_limit_witness :
  orders_of_user "alice"
    (fst (execute_pending_signals (at_time "12:00:00") insert_ok traded_store))
  = orders_of_user "alice" traded_store
  /\ In (SkipUser "alice" "Max daily trades reached")
        (response_skipped
           (snd (execute_pending_signals (at_time "12:00:00") insert_ok
                   traded_store))).
Proof.
  destruct (daily_trade_limit (at_time "12:00:00") insert_ok traded_store
              (start_run traded_store) alice_limited "alice")
    as [_ [_ [H _]]].
  assert (Hlim : forall st, In st (allSettings traded_store) ->
                   Settings.user_id st = "alice"%string ->
                   (maxDailyTrades st
                    <= todaysTrades (at_time "12:00:00") traded_store "alice")%Z).
  { intros st [<-|[]] _. vm_compute. discriminate. }
  destruct (H Hlim) as [H1 H2].
  split; [exact H1|].
  apply (H2 alice_limited); [left; reflexivity | reflexivity | reflexivity].
Defined.

(** *** Rows selected through an inner join *)

Section Joined.

Context {A B K : Type}.
Variable key : A -> K.
Variable join : A -> list (A * B).
Variable keep : A -> bool.
Hypothesis join_fst : forall x e, In e (join x) -> fst e = x.
Hypothesis join_one : forall x, (length (join x) <= 1)%nat.

Lemma joined_In (l : list A) (e : A * B) :
  In e (flat_map join (filter keep l)) -> In (fst e) l /\ keep (fst e) = true.
Proof.
  rewrite in_flat_map. intros [x [Hx He]].
  rewrite (join_fst x e He). apply filter_In. exact Hx.
Qed.

Lemma joined_NoDup (l : list A) :
  NoDup (map key l) ->
  NoDup (map (fun e => key (fst e)) (flat_map join (filter keep l))).
Proof.
  induction l as [|a l IH]; intro Hnd; [constructor|].
  inversion Hnd as [|? ? Hnotin Hnd']; subst.
  simpl filter. destruct (keep a); [|apply IH; exact Hnd'].
  cbn [flat_map]. pose proof (join_fst a) as Hf. pose proof (join_one a) as Hl.
  destruct (join a) as [|e [|e' t]]; [apply IH; exact Hnd'| |simpl in Hl; lia].
  simpl. constructor; [|apply IH; exact Hnd'].
  rewrite (Hf e (or_introl eq_refl)).
  intro Hin. apply in_map_iff in Hin. destruct Hin as [e2 [Hk Hin]].
  apply joined_In in Hin. destruct Hin as [Hin _].
  apply Hnotin. rewrite <- Hk. apply in_map. exact Hin.
Qed.

End Joined.

Lemma NoDup_key_inj {A K} (key : A -> K) (l : list A) (a b : A) :
  NoDup (map key l) -> In a l -> In b l -> key a = key b -> a = b.
Proof.
  induction l as [|x l IH]; intros Hnd Ha Hb Hk; [contradiction|].
  inversion Hnd as [|? ? Hnotin Hnd']; subst.
  destruct Ha as [->|Ha], Hb as [->|Hb]; auto.
  - exfalso. apply Hnotin. rewrite Hk. apply in_map. exact Hb.
  - exfalso. apply Hnotin. rewrite <- Hk. apply in_map. exact Ha.
Qed.

Lemma join_order_fst d x e : In e (join_order d x) -> fst e = x.
Proof.
  unfold join_order. destruct (Position.order_id x); [|contradiction].
  destruct (find _ _) as [o|]; [|contradiction].
  destruct (Order.trailing_stop_percent o); [|contradiction].
  intros [<-|[]]. reflexivity.
Qed.

Lemma join_order_one d x : (length (join_order d x) <= 1)%nat.
Proof.
  unfold join_order. destruct (Position.order_id x); [|simpl; lia].
  destruct (find _ _) as [o|]; [|simpl; lia].
  destruct (Order.trailing_stop_percent o); simpl; lia.
Qed.

Lemma join_rule_fst d x e : In e (join_rule d x) -> fst e = x.
Proof.
  unfold join_rule. destruct (Signal.signal_rule_id x); [|contradiction].
  destruct (find _ _); [|contradiction].
  intros [<-|[]]. reflexivity.
Qed.

Lemma join_rule_one d x : (length (join_rule d x) <= 1)%nat.
Proof.
  unfold join_rule. destruct (Signal.signal_rule_id x); [|simpl; lia].
  destruct (find _ _); simpl; lia.
Qed.

(** *** The trailing-stop loop, row by row *)

Lemma write_stop_id src q c row :
  Position.id (write_stop src q c row) = Position.id row.
Proof. unfold write_stop. destruct (_ =? _)%string; reflexivity. Qed.

Lemma entry_effect_id io n e row :
  Position.id (entry_effect io n e row) = Position.id row.
Proof.
  unfold entry_effect. destruct (_ && _); [apply write_stop_id | reflexivity].
Qed.

Lemma entry_effect_other io n e row :
  Position.id (fst e) <> Position.id row -> entry_effect io n e row = row.
Proof.
  intro Hne. unfold entry_effect. destruct (_ && _); [|reflexivity].
  unfold write_stop.
  assert (E : (Position.id row =? Position.id (fst e))%string = false)
    by (apply String.eqb_neq; congruence).
  rewrite E. reflexivity.
Qed.

Lemma row_after_absent io n entries row :
  (forall e, In e entries -> Position.id (fst e) <> Position.id row) ->
  row_after io n entries row = row.
Proof.
  revert n; induction entries as [|e rest IH]; intros n H; [reflexivity|].
  cbn [row_after]. rewrite (entry_effect_other io n e row) by (apply H; left; reflexivity).
  apply IH. intros e' Hin. apply H. right. exact Hin.
Qed.

Lemma row_after_unique io entries :
  forall n j e row,
    NoDup (map (fun x => Position.id (fst x)) entries) ->
    nth_error entries j = Some e ->
    Position.id (fst e) = Position.id row ->
    row_after io n entries row = entry_effect io (n + j) e row.
Proof.
  induction entries as [|e0 rest IH]; intros n j e row Hnd Hj Hid.
  - destruct j; discriminate.
  - inversion Hnd as [|? ? Hnotin Hnd']; subst. destruct j as [|j].
    + injection Hj as ->. cbn [row_after]. rewrite Nat.add_0_r.
      apply row_after_absent. intros e' Hin. rewrite entry_effect_id.
      intro Heq. apply Hnotin. rewrite Hid, <- Heq.
      apply (in_map (fun x => Position.id (fst x))). exact Hin.
    + cbn [nth_error] in Hj. cbn [row_after].
      assert (Hne : Position.id (fst e0) <> Position.id row).
      { intro Heq. apply Hnotin. rewrite Heq, <- Hid.
        apply (in_map (fun x => Position.id (fst x))).
        apply nth_error_In with j. exact Hj. }
      rewrite (entry_effect_other io n e0 row Hne).
      rewrite (IH (S n) j e row Hnd' Hj Hid). f_equal. lia.
Qed.

Lemma process_position_rows io t e :
  positions (t_db (process_position io t e))
  = map (entry_effect io (ticks t) e) (positions (t_db t))
  /\ ticks (process_position io t e) = S (ticks t).
Proof.
  unfold process_position, refresh_position, entry_effect.
  destruct e as [position tsp]. cbn [fst snd t_db ticks].
  destruct (_ && _); split; try reflexivity.
  symmetry. rewrite <- (map_id (positions (t_db t))) at 2. reflexivity.
Qed.

Lemma trailing_loop_rows io entries :
  forall t,
    positions (t_db (fold_left (process_position io) entries t))
    = map (row_after io (ticks t) entries) (positions (t_db t)).
Proof.
  induction entries as [|e rest IH]; intro t.
  - simpl. symmetry. apply map_id.
  - cbn [fold_left]. rewrite IH.
    destruct (process_position_rows io t e) as [E1 E2].
    rewrite E1, E2, map_map. reflexivity.
Qed.

Lemma fst_update_trailing_stops io d :
  fst (update_trailing_stops io d) = t_db (run_trailing io d).
Proof.
  unfold update_trailing_stops, run_trailing.
  destruct (trailing_positions d); reflexivity.
Qed.

Lemma trailing_pass_rows io d :
  positions (fst (update_trailing_stops io d))
  = map (row_after io 0 (trailing_positions d)) (positions d).
Proof.
  rewrite fst_update_trailing_stops. unfold run_trailing.
  apply (trailing_loop_rows io (trailing_positions d) (start_trail d)).
Qed.


Lemma trailing_positions_NoDup d :
  NoDup (map Position.id (positions d)) ->
  NoDup (map (fun e => Position.id (fst e)) (trailing_positions d)).
Proof.
  apply (joined_NoDup Position.id (join_order d) Position.is_open
           (join_order_fst d) (join_order_one d)).
Qed.

Lemma trailing_positions_In d e :
  In e (trailing_positions d) -> In (fst e) (positions d).
Proof.
  intro H.
  apply (joined_In (join_order d) Position.is_open (join_order_fst d)) in H.
  apply H.
Qed.


Lemma write_stop_self (row : Position.t) (quote candidate : Q) :
  Position.current_price (write_stop row quote candidate row) = Some quote
  /\ Position.unrealized_pnl (write_stop row quote candidate row)
     = Some ((quote - Position.avg_cost row) * inject_Z (Position.quantity row))
  /\ Position.trailing_stop_price (write_stop row quote candidate row)
     = Some candidate.
Proof.
  unfold write_stop. rewrite String.eqb_refl. repeat split.
Qed.


Lemma stop_rises_set (row : Position.t) (s candidate : Q) :
  Position.trailing_stop_price row = Some s ->
  (stop_rises row candidate = true <-> s == 0 \/ s < candidate).
Proof.
  intro Hs. unfold stop_rises. rewrite Hs. unfold truthy.
  rewrite orb_true_iff, negb_true_iff, negb_false_iff, Qeq_bool_iff, Qltb_true.
  reflexivity.
Qed.

(** *** C10: when the quote and the P&L are written *)

(** C10, counterexample to a refresh on every pass: a position bought at
    110 with a stored stop of 104.5 is quoted 105 (draw 1/22); the
    candidate 99.75 does not exceed the stop, and the pass leaves
    [current_price] at 110 and [unrealized_pnl] at 0 instead of writing 105
    and -50. *)
Lemma quote_not_written_without_ratchet :
  exists row,
    trailing_positions (held_store 110 (Some 104.5))
    = [(held_position 110 (Some 104.5), 5)]
    /\ mock_price (held_position 110 (Some 104.5)) (random (draws (1 # 22) 0)) == 105
    /\ positions (fst (update_trailing_stops (draws (1 # 22))
                         (held_store 110 (Some 104.5)))) = [row]
    /\ Position.current_price row = Some 110
    /\ Position.unrealized_pnl row = Some 0
    /\ ~ 110 == 105
    /\ ~ 0 == (105 - 110) * 10.
Proof.
  eexists. split; [reflexivity|]. split; [reflexivity|].
  split; [vm_compute; reflexivity|].
  split; [reflexivity|]. split; [reflexivity|]. split; discriminate.
Qed.

(** C10, amended. With unique position keys, the [j]-th selected position
    is quoted [avg_cost * (1 + (random - 0.5) * 0.1)].  When the trailing
    stop is replaced on that pass (no stop stored, or the candidate exceeds
    it) and the row update succeeds, the row gets
    [current_price = quote],
    [unrealized_pnl = (quote - avg_cost) * quantity] and the candidate as
    its stop; otherwise the row, its price and its P&L included, is left
    as it was. *)
Theorem refresh_only_on_ratchet (io : nat -> TickIO) (d : DB) (j : nat)
  (row : Position.t) (tsp : Q) :
  NoDup (map Position.id (positions d)) ->
  nth_error (trailing_positions d) j = Some (row, tsp) ->
  let quote := mock_price row (random (io j)) in
  let candidate := newTrailingStop quote tsp in
  exists k row',
    nth_error (positions d) k = Some row
    /\ nth_error (positions (fst (update_trailing_stops io d))) k = Some row'
    /\ (stop_rises row candidate = true -> update_ok (io j) = true ->
        Position.current_price row' = Some quote
        /\ Position.unrealized_pnl row'
           = Some ((quote - Position.avg_cost row)
                   * inject_Z (Position.quantity row))
        /\ Position.trailing_stop_price row' = Some candidate)
    /\ (stop_rises row candidate = false \/ update_ok (io j) = false ->
        row' = row).
Proof.
  intros Hnd Hj quote candidate.
  assert (Hin : In row (positions d)).
  { apply (trailing_positions_In d (row, tsp)). apply nth_error_In with j. exact Hj. }
  destruct (In_nth_error _ _ Hin) as [k Hk].
  exists k, (entry_effect io j (row, tsp) row).
  split; [exact Hk|]. split.
  - rewrite trailing_pass_rows. rewrite nth_error_map, Hk. simpl. f_equal.
    apply (row_after_unique io (trailing_positions d) 0 j (row, tsp) row);
      auto using trailing_positions_NoDup.
  - unfold entry_effect. cbn [fst snd]. fold quote candidate. split.
    + intros H1 H2. rewrite H1, H2. apply write_stop_self.
    + intros [H|H]; rewrite H; [reflexivity | rewrite andb_false_r; reflexivity].
Qed.

(** The C10 statement run on a position bought at 110 with a stored stop
    of 100 and the draw 1/2: the quote 110 is written. *)
Lemma refresh_only_on_ratchet_witness :
  exists k row',
    nth_error (positions (fst (update_trailing_stops (draws (1 # 2))
                                 (held_store 110 (Some 100))))) k = Some row'
    /\ Position.current_price row'
       = Some (mock_price (held_position 110 (Some 100)) (1 # 2)).
Proof.
  destruct (refresh_only_on_ratchet (draws (1 # 2)) (held_store 110 (Some 100))
              0 (held_position 110 (Some 100)) 5)
    as [k [row' [_ [H1 [H2 _]]]]].
  - simpl. constructor; [intros [] | constructor].
  - reflexivity.
  - exists k, row'. split; [exact H1|].
    apply H2; reflexivity.
Defined.

(** *** C2: the trailing stop only rises *)





(** *** C1: a signal is used for at most one order *)

Lemma at_most_once_refl d : at_most_once d d.
Proof.
  split; [reflexivity|]. intro sid. repeat split; auto; try lia.
Qed.

Lemma at_most_once_trans d1 d2 d3 :
  at_most_once d1 d2 -> at_most_once d2 d3 -> at_most_once d1 d3.
Proof.
  intros [I1 H1] [I2 H2]. split; [congruence|].
  intro sid. destruct (H1 sid) as [a1 [a2 [a3 a4]]].
  destruct (H2 sid) as [b1 [b2 [b3 b4]]].
  split; [lia|]. split; [|split].
  - destruct (is_executed sid d1).
    + rewrite (a4 eq_refl) in b2. lia.
    + destruct (Nat.eq_dec (order_count sid d2) (order_count sid d1)) as [E|N].
      * destruct (is_executed sid d2); lia.
      * rewrite (a3 N) in b2. lia.
  - intro N.
    destruct (Nat.eq_dec (order_count sid d3) (order_count sid d2)) as [E|N2].
    + apply b4, a3. congruence.
    + apply b3. exact N2.
  - intro E. apply b4, a4. exact E.
Qed.

Lemma mark_executed_id sid s : Signal.id (mark_executed sid s) = Signal.id s.
Proof. unfold mark_executed. destruct (_ =? _)%string; reflexivity. Qed.

Lemma commit_marks d sid o pos :
  is_executed sid (commit_execution d sid o pos) = true.
Proof.
  unfold is_executed, commit_execution. cbn [signals].
  apply forallb_forall. intros x Hx. apply in_map_iff in Hx.
  destruct Hx as [y [<- _]]. unfold mark_executed.
  destruct (Signal.id y =? sid)%string eqn:E; cbn [Signal.id Signal.executed].
  - apply orb_true_r.
  - rewrite E. reflexivity.
Qed.

Lemma commit_keeps_others d sid sid' o pos :
  sid' <> sid ->
  is_executed sid' (commit_execution d sid o pos) = is_executed sid' d.
Proof.
  intro Hne. unfold is_executed, commit_execution. cbn [signals].
  induction (signals d) as [|y l IH]; [reflexivity|].
  cbn [map forallb]. rewrite IH. f_equal.
  unfold mark_executed. destruct (Signal.id y =? sid)%string eqn:E; [|reflexivity].
  cbn [Signal.id Signal.executed]. apply String.eqb_eq in E.
  assert (E' : (Signal.id y =? sid')%string = false)
    by (apply String.eqb_neq; congruence).
  rewrite E'. reflexivity.
Qed.

Lemma commit_count d sid sid' o pos :
  Order.signal_id o = Some sid ->
  order_count sid' (commit_execution d sid o pos)
  = (order_count sid' d + if (sid =? sid')%string then 1 else 0)%nat.
Proof.
  intro Ho. unfold order_count, commit_execution. cbn [orders].
  rewrite filter_app, length_app. f_equal.
  cbn [filter]. unfold for_signal. rewrite Ho.
  destruct (sid =? sid')%string; reflexivity.
Qed.

Lemma commit_at_most_once d sid o pos :
  Order.signal_id o = Some sid ->
  is_executed sid d = false ->
  at_most_once d (commit_execution d sid o pos).
Proof.
  intros Ho Hex. split.
  - unfold commit_execution. cbn [signals]. rewrite map_map.
    apply map_ext. intro x. apply mark_executed_id.
  - intro sid'. rewrite (commit_count d sid sid' o pos Ho).
    destruct (String.eqb_spec sid sid') as [<-|Hne].
    + rewrite Hex, commit_marks. repeat split; auto; lia.
    + rewrite (commit_keeps_others d sid sid' o pos) by congruence.
      repeat split; auto; try lia.
Qed.

Lemma process_signal_at_most_once env io settings r signal rule :
  is_executed (Signal.id signal) (db r) = false ->
  at_most_once (db r) (db (process_signal env io settings r (signal, rule)))
  /\ forall sid', sid' <> Signal.id signal ->
       is_executed sid' (db (process_signal env io settings r (signal, rule)))
       = is_executed sid' (db r).
Proof.
  intro Hex.
  destruct (process_signal_cases env io settings r signal rule)
    as [E|[o [pos [E [Ho _]]]]]; rewrite E.
  - split; [apply at_most_once_refl | reflexivity].
  - split; [apply commit_at_most_once; assumption|].
    intros sid' Hne. apply commit_keeps_others. exact Hne.
Qed.

Lemma signals_loop_at_most_once env io settings rows :
  forall r,
    NoDup (map (fun row => Signal.id (fst row)) rows) ->
    (forall row, In row rows -> is_executed (Signal.id (fst row)) (db r) = false) ->
    at_most_once (db r) (db (fold_left (process_signal env io settings) rows r)).
Proof.
  induction rows as [|[signal rule] rows IH]; intros r Hnd Hex.
  - apply at_most_once_refl.
  - cbn [fold_left]. inversion Hnd as [|? ? Hnotin Hnd']; subst.
    destruct (process_signal_at_most_once env io settings r signal rule)
      as [H1 H2]; [apply (Hex (signal, rule)); left; reflexivity|].
    apply (at_most_once_trans _ _ _ H1). apply IH; [exact Hnd'|].
    intros row Hin. rewrite H2; [apply Hex; right; exact Hin|].
    intro Heq. apply Hnotin. cbn [fst]. rewrite <- Heq.
    apply (in_map (fun row => Signal.id (fst row))). exact Hin.
Qed.

Lemma pending_signals_selected d user row :
  In row (pending_signals d user) ->
  In (fst row) (signals d)
  /\ Signal.user_id (fst row) = user
  /\ Signal.executed (fst row) = false.
Proof.
  intro H. unfold pending_signals in H.
  apply (joined_In (join_rule d) _ (join_rule_fst d)) in H.
  destruct H as [Hin Hkeep]. apply andb_true_iff in Hkeep.
  destruct Hkeep as [Hu He]. split; [exact Hin|]. split.
  - apply String.eqb_eq. exact Hu.
  - apply negb_true_iff. exact He.
Qed.

Lemma pending_signals_unexecuted d user row :
  In row (pending_signals d user) ->
  is_executed (Signal.id (fst row)) d = false.
Proof.
  intro H. apply pending_signals_selected in H. destruct H as [Hin [_ He]].
  destruct (is_executed (Signal.id (fst row)) d) eqn:E; [|reflexivity].
  unfold is_executed in E. rewrite forallb_forall in E.
  specialize (E _ Hin). rewrite String.eqb_refl, He in E. discriminate E.
Qed.

Lemma pending_signals_NoDup d user :
  NoDup (map Signal.id (signals d)) ->
  NoDup (map (fun row => Signal.id (fst row)) (pending_signals d user)).
Proof.
  apply (joined_NoDup Signal.id (join_rule d) _ (join_rule_fst d) (join_rule_one d)).
Qed.

Lemma process_user_at_most_once env io r settings :
  NoDup (map Signal.id (signals (db r))) ->
  at_most_once (db r) (db (process_user env io r settings)).
Proof.
  intro Hnd. unfold process_user.
  destruct (negb _); [apply at_most_once_refl|].
  destruct (_ <=? _)%Z; [apply at_most_once_refl|].
  destruct (Qle_bool _ _); [apply at_most_once_refl|].
  apply signals_loop_at_most_once.
  - apply pending_signals_NoDup. exact Hnd.
  - intros row Hin. apply (pending_signals_unexecuted _ _ _ Hin).
Qed.

Lemma users_loop_at_most_once env io l :
  forall r,
    NoDup (map Signal.id (signals (db r))) ->
    at_most_once (db r) (db (fold_left (process_user env io) l r)).
Proof.
  induction l as [|st l IH]; intros r Hnd.
  - apply at_most_once_refl.
  - cbn [fold_left].
    pose proof (process_user_at_most_once env io r st Hnd) as H1.
    apply (at_most_once_trans _ _ _ H1). apply IH.
    destruct H1 as [Hids _]. rewrite Hids. exact Hnd.
Qed.

Lemma fst_execute_pending_signals env io d :
  fst (execute_pending_signals env io d) = db (run_pending env io d).
Proof.
  unfold execute_pending_signals, run_pending.
  destruct (allSettings d); reflexivity.
Qed.

Lemma pass_at_most_once env io d :
  NoDup (map Signal.id (signals d)) ->
  at_most_once d (fst (execute_pending_signals env io d)).
Proof.
  intro Hnd. rewrite fst_execute_pending_signals. unfold run_pending.
  apply (users_loop_at_most_once env io (allSettings d) (start_run d)). exact Hnd.
Qed.

Lemma passes_at_most_once runs :
  forall d,
    NoDup (map Signal.id (signals d)) ->
    at_most_once d (execute_passes runs d).
Proof.
  induction runs as [|[env io] runs IH]; intros d Hnd.
  - apply at_most_once_refl.
  - cbn [execute_passes].
    pose proof (pass_at_most_once env io d Hnd) as H1.
    apply (at_most_once_trans _ _ _ H1). apply IH.
    destruct H1 as [Hids _]. rewrite Hids. exact Hnd.
Qed.

Lemma process_signal_inserted env io settings r signal rule p row_id :
  Signal.price_at_signal signal = Finite p -> 0 < p ->
  (0 < sized_quantity settings rule p)%Z ->
  inserted (io (attempts r)) = Some row_id ->
  exists o pos,
    db (process_signal env io settings r (signal, rule))
    = commit_execution (db r) (Signal.id signal) o pos
    /\ Order.signal_id o = Some (Signal.id signal)
    /\ Order.id o = row_id
    /\ Position.order_id pos = Some row_id.
Proof.
  intros Hp Hpos Hq Hins. unfold process_signal.
  rewrite (valid_price_positive _ p Hp Hpos), Hp,
          (calculatePositionSize_sized settings rule p Hpos).
  destruct (Z.leb_spec (sized_quantity settings rule p) 0) as [Hle|_]; [lia|].
  rewrite Hins. eexists. eexists. split; [reflexivity|]. repeat split.
Qed.

Lemma process_signal_insert_fails env io settings r signal rule p :
  Signal.price_at_signal signal = Finite p -> 0 < p ->
  (0 < sized_quantity settings rule p)%Z ->
  inserted (io (attempts r)) = None ->
  process_signal env io settings r (signal, rule)
  = {| db := db r; attempts := S (attempts r);
       executed := executed r; skipped := skipped r |}.
Proof.
  intros Hp Hpos Hq Hins. unfold process_signal.
  rewrite (valid_price_positive _ p Hp Hpos), Hp,
          (calculatePositionSize_sized settings rule p Hpos).
  destruct (Z.leb_spec (sized_quantity settings rule p) 0) as [Hle|_]; [lia|].
  rewrite Hins. reflexivity.
Qed.

(** C1. The pass selects only signals with [executed = false]; when the
    order insert succeeds the signal is marked executed, one order and one
    position row are added; when the order insert fails neither the mark
    nor the position insert happens, and the loop goes on with the user's
    other signals from an unchanged store.  Hence, signal keys being
    unique, over any sequence of passes (two in particular) the number of
    orders that reference a signal grows by at most one, and not at all
    for a signal that is already executed. *)
Theorem at_most_one_order_per_signal (runs : list (Env * (nat -> InsertIO)))
  (d : DB) (sid : string) :
  NoDup (map Signal.id (signals d)) ->
  (forall user row, In row (pending_signals d user) ->
     In (fst row) (signals d) /\ Signal.executed (fst row) = false)
  /\ (forall env io settings r signal rule p row_id,
        Signal.price_at_signal signal = Finite p -> 0 < p ->
        (0 < sized_quantity settings rule p)%Z ->
        inserted (io (attempts r)) = Some row_id ->
        let r' := process_signal env io settings r (signal, rule) in
        is_executed (Signal.id signal) (db r') = true
        /\ order_count (Signal.id signal) (db r')
           = S (order_count (Signal.id signal) (db r))
        /\ length (positions (db r')) = S (length (positions (db r))))
  /\ (forall env io settings r signal rule rest p,
        Signal.price_at_signal signal = Finite p -> 0 < p ->
        (0 < sized_quantity settings rule p)%Z ->
        inserted (io (attempts r)) = None ->
        let step := process_signal env io settings in
        db (step r (signal, rule)) = db r
        /\ executed (step r (signal, rule)) = executed r
        /\ fold_left step ((signal, rule) :: rest) r
           = fold_left step rest
               {| db := db r; attempts := S (attempts r);
                  executed := executed r; skipped := skipped r |})
  /\ (order_count sid (execute_passes runs d) <= order_count sid d + 1)%nat
  /\ (is_executed sid d = true ->
      order_count sid (execute_passes runs d) = order_count sid d)
  /\ (forall env1 io1 env2 io2,
        let d1 := fst (execute_pending_signals env1 io1 d) in
        let d2 := fst (execute_pending_signals env2 io2 d1) in
        (order_count sid d2 <= order_count sid d + 1)%nat
        /\ (order_count sid d1 = S (order_count sid d) ->
            order_count sid d2 = order_count sid d1)).
Proof.
  intro Hnd.
  split.
  { intros user row Hin. apply pending_signals_selected in Hin. tauto. }
  split.
  { intros env io settings r signal rule p row_id Hp Hpos Hq Hins r'.
    destruct (process_signal_inserted env io settings r signal rule p row_id
                Hp Hpos Hq Hins) as [o [pos [E [Ho _]]]].
    unfold r'. rewrite E. split; [apply commit_marks|]. split.
    - rewrite (commit_count _ _ _ _ _ Ho), String.eqb_refl. lia.
    - unfold commit_execution. cbn [positions]. rewrite length_app. simpl. lia. }
  split.
  { intros env io settings r signal rule rest p Hp Hpos Hq Hins step.
    pose proof (process_signal_insert_fails env io settings r signal rule p
                  Hp Hpos Hq Hins) as E.
    fold step in E.
    change (fold_left step ((signal, rule) :: rest) r)
      with (fold_left step rest (step r (signal, rule))).
    rewrite E. repeat split. }
  destruct (passes_at_most_once runs d Hnd) as [_ H].
  destruct (H sid) as [a1 [a2 [a3 a4]]].
  split; [destruct (is_executed sid d); lia|].
  split; [intro E; rewrite E in a2; lia|].
  intros env1 io1 env2 io2 d1 d2.
  destruct (passes_at_most_once [(env1, io1); (env2, io2)] d Hnd) as [_ H2].
  destruct (H2 sid) as [b1 [b2 _]]. cbn [execute_passes] in b1, b2.
  fold d1 in b1, b2. fold d2 in b1, b2.
  split; [destruct (is_executed sid d); lia|].
  intro E1.
  destruct (pass_at_most_once env1 io1 d Hnd) as [Hids H1].
  fold d1 in Hids, H1. destruct (H1 sid) as [_ [_ [c3 _]]].
  assert (Hnd1 : NoDup (map Signal.id (signals d1))) by (rewrite Hids; exact Hnd).
  destruct (pass_at_most_once env2 io2 d1 Hnd1) as [_ H3].
  fold d2 in H3. destruct (H3 sid) as [e1 [e2 _]].
  rewrite c3 in e2 by lia. lia.
Qed.

(** The C1 statement run on the example store: two passes, both with a
    working insert, leave one order for the signal. *)
Lemma at_most_one_order_per_signal_witness :
  (order_count "sig-1"
     (execute_passes [(at_time "12:00:00", insert_ok); (at_time "12:30:00", insert_ok)]
        (store_with (rule_with None None) (signal_at bb_breakout_up (Finite 100))))
   <= 0 + 1)%nat.
Proof.
  destruct (at_most_one_order_per_signal
              [(at_time "12:00:00", insert_ok); (at_time "12:30:00", insert_ok)]
              (store_with (rule_with None None) (signal_at bb_breakout_up (Finite 100)))
              "sig-1") as [_ [_ [_ [H _]]]].
  - simpl. constructor; [intros [] | constructor].
  - exact H.
Defined.

End AutoInvestSpec.

(* ===================================================================== *)
(** ** Further properties of the scanner *)
(* ===================================================================== *)

Module ScannerExtra.

Import SignalScanner.
Import ScannerSpec.
Import Lra.
Local Open Scope R_scope.

(** *** The bands *)

(** X1. Bands computed over a positive period with a non-negative
    multiplier are ordered and symmetric about the middle:
    lower <= middle <= upper and upper - middle = middle - lower. *)
Theorem bands_ordered (prices : list R) (period : nat) (k : R) (bb : Bands) :
  (0 < period)%nat ->
  calculateBB prices period k = Some bb ->
  0 <= k ->
  lower bb <= middle bb <= upper bb
  /\ upper bb - middle bb = middle bb - lower bb.
Proof.
  intros _.
  unfold calculateBB. destruct (length prices <? period)%nat; [discriminate|].
  intros H Hk. injection H as <-. cbn [upper middle lower].
  match goal with |- context [sqrt ?v] => pose proof (sqrt_pos v) as Hs end.
  split; [split; nra | ring].
Qed.

Lemma bands_ordered_witness :
  (0 < 2)%nat
  /\ exists bb, calculateBB [5; 1; 3] 2 1 = Some bb /\ lower bb <= upper bb.
Proof.
  split; [apply Nat.lt_0_succ|].
  eexists. split; [reflexivity|].
  destruct (bands_ordered [5; 1; 3] 2 1 _ (Nat.lt_0_succ 1) eq_refl)
    as [[H1 H2] _]; lra.
Defined.

Lemma slice_last_app (period : nat) (old w : list R) :
  (0 < period)%nat -> length w = period -> slice_last period (old ++ w) = w.
Proof.
  intros Hp Hw. unfold slice_last. destruct period as [|n]; [lia|].
  rewrite length_app, Hw.
  replace (length old + S n - S n)%nat with (length old + 0)%nat by lia.
  rewrite skipn_app, Nat.add_0_r, skipn_all, Nat.sub_diag. reflexivity.
Qed.

(** X2. The bands depend on the last [period] prices only: older prices
    in front of a full window do not change the result. *)
Theorem bands_window_only (period : nat) (k : R) (old w : list R) :
  (0 < period)%nat -> length w = period ->
  calculateBB (old ++ w) period k = calculateBB w period k.
Proof.
  intros Hp Hw. unfold calculateBB.
  rewrite (slice_last_app period old w Hp Hw).
  rewrite (slice_last_app period [] w Hp Hw : slice_last period w = w).
  destruct (Nat.ltb_spec (length (old ++ w)) period) as [H|_];
    [rewrite length_app in H; lia|].
  destruct (Nat.ltb_spec (length w) period) as [H|_]; [lia|].
  reflexivity.
Qed.

Lemma bands_window_only_witness :
  calculateBB ([9; 7] ++ [1; 3]) 2 1 = calculateBB [1; 3] 2 1.
Proof. apply bands_window_only; [lia | reflexivity]. Defined.

(** *** VWAP *)

Lemma calculateVWAP_sums (bars : list Bar) :
  calculateVWAP bars
  = if Rgt_dec (Rsum (map volume bars)) 0
    then Rsum (map (fun b => typicalPrice b * volume b) bars)
         / Rsum (map volume bars)
    else 0.
Proof.
  unfold calculateVWAP. rewrite vwap_fold. cbn [fst snd].
  rewrite !Rplus_0_l. reflexivity.
Qed.

Lemma weighted_sum_bounds (lo hi : R) (bars : list Bar) :
  (forall b, In b bars -> 0 <= volume b /\ lo <= typicalPrice b <= hi) ->
  lo * Rsum (map volume bars)
  <= Rsum (map (fun b => typicalPrice b * volume b) bars)
  <= hi * Rsum (map volume bars).
Proof.
  induction bars as [|b t IH]; intro H; cbn [map Rsum].
  - lra.
  - destruct (H b (or_introl eq_refl)) as [Hv [Hl Hh]].
    destruct IH as [I1 I2]; [intros x Hx; apply H; right; exact Hx|].
    split; nra.
Qed.

(** X3. With non-negative volumes, a positive total volume and every bar's
    close between its low and its high, the VWAP lies within the traded
    range: between any lower bound of the lows and any upper bound of the
    highs. *)
Theorem vwap_within_range (lo hi : R) (bars : list Bar) :
  (forall b, In b bars ->
     0 <= volume b /\ lo <= low b /\ low b <= close b <= high b /\ high b <= hi) ->
  Rsum (map volume bars) > 0 ->
  lo <= calculateVWAP bars <= hi.
Proof.
  intros H Hpos. rewrite calculateVWAP_sums.
  destruct (Rgt_dec (Rsum (map volume bars)) 0) as [_|N]; [|contradiction].
  destruct (weighted_sum_bounds lo hi bars) as [H1 H2].
  { intros b Hb. destruct (H b Hb) as [Hv [Hl [[Hc1 Hc2] Hh]]].
    split; [exact Hv|]. unfold typicalPrice. lra. }
  set (V := Rsum (map volume bars)) in *.
  set (S := Rsum (map (fun b => typicalPrice b * volume b) bars)) in *.
  assert (HV : 0 < / V) by (apply Rinv_0_lt_compat; lra).
  unfold Rdiv. split.
  - replace lo with (lo * V * / V) by (field; lra).
    apply Rmult_le_compat_r; lra.
  - replace hi with (hi * V * / V) by (field; lra).
    apply Rmult_le_compat_r; lra.
Qed.

Lemma vwap_within_range_witness :
  9 <= calculateVWAP [mkBar 0 10 12 9 10 7; mkBar 1 10 11 10 11 3] <= 12.
Proof.
  apply vwap_within_range.
  - intros b [<-|[<-|[]]]; cbn [volume low close high]; lra.
  - cbn [map Rsum volume]. lra.
Defined.

Lemma scaled_sums (c : R) (bars : list Bar) :
  Rsum (map volume (map (scaleVolume c) bars)) = c * Rsum (map volume bars)
  /\ Rsum (map (fun b => typicalPrice b * volume b) (map (scaleVolume c) bars))
     = c * Rsum (map (fun b => typicalPrice b * volume b) bars).
Proof.
  induction bars as [|b t [I1 I2]]; cbn [map Rsum].
  - split; ring.
  - rewrite I1, I2. unfold typicalPrice.
    cbn [scaleVolume volume high low close]. split; ring.
Qed.

(** X4. Only the proportions of the volumes matter: multiplying every
    bar's volume by the same positive factor leaves the VWAP unchanged. *)
Theorem vwap_volume_scaling (c : R) (bars : list Bar) :
  c > 0 ->
  calculateVWAP (map (scaleVolume c) bars) = calculateVWAP bars.
Proof.
  intro Hc. rewrite !calculateVWAP_sums.
  destruct (scaled_sums c bars) as [E1 E2]. rewrite E1, E2.
  set (V := Rsum (map volume bars)).
  set (S := Rsum (map (fun b => typicalPrice b * volume b) bars)).
  destruct (Rgt_dec V 0) as [Hv|Hv].
  - destruct (Rgt_dec (c * V) 0) as [_|N]; [field; lra | exfalso; apply N; nra].
  - destruct (Rgt_dec (c * V) 0) as [P|_]; [exfalso; apply Hv; nra | reflexivity].
Qed.

Lemma vwap_volume_scaling_witness :
  calculateVWAP (map (scaleVolume 2) [mkBar 0 10 12 9 9 7])
  = calculateVWAP [mkBar 0 10 12 9 9 7].
Proof. apply vwap_volume_scaling. lra. Defined.

(** *** Detection *)

Lemma detectedSignals_count (prev cur : R) (bb : Bands) (vwap : option R)
  (t : SignalType) :
  (count_occ SignalType_eq_dec (detectedSignals prev cur bb vwap) t <= 1)%nat.
Proof.
  unfold detectedSignals.
  destruct (truthy vwap) as [v|]; rewrite !count_push_if; destruct t; cbn;
    repeat match goal with
           | |- context [if ?c then _ else _] => destruct c
           end; lia.
Qed.

(** X5. On bands computed with a non-negative multiplier the detector
    never reports a signal type twice, and never reports two opposite
    crossings of the same line together: not breakout-up with
    breakout-down, not breakout-up with reversion-down, not breakout-down
    with reversion-up, not both reversions, not both VWAP crossings. *)
Theorem detection_exclusive (prices : list R) (period : nat) (k : R)
  (bb : Bands) (prev cur : R) (vwap : option R) :
  calculateBB prices period k = Some bb ->
  0 <= k ->
  let found := detectedSignals prev cur bb vwap in
  NoDup found
  /\ ~ (In bb_breakout_up found /\ In bb_breakout_down found)
  /\ ~ (In bb_breakout_up found /\ In bb_mean_reversion_down found)
  /\ ~ (In bb_breakout_down found /\ In bb_mean_reversion_up found)
  /\ ~ (In bb_mean_reversion_up found /\ In bb_mean_reversion_down found)
  /\ ~ (In vwap_cross_up found /\ In vwap_cross_down found).
Proof.
  intros Hbb Hk found.
  assert (Hord : lower bb <= upper bb).
  { revert Hbb. unfold calculateBB.
    destruct (length prices <? period)%nat; [discriminate|].
    intro H. injection H as <-. cbn [upper lower].
    match goal with |- context [sqrt ?v] => pose proof (sqrt_pos v) as Hs end.
    nra. }
  split.
  { apply (NoDup_count_occ SignalType_eq_dec). intro t.
    apply detectedSignals_count. }
  unfold found. repeat split; intros [H1 H2];
    apply In_detectedSignals in H1; apply In_detectedSignals in H2;
    destruct H1 as [[E1 A]|[[E1 A]|[[E1 A]|[[E1 A]|[v1 [V1 [[E1 A]|[E1 A]]]]]]]];
    try discriminate E1;
    destruct H2 as [[E2 B]|[[E2 B]|[[E2 B]|[[E2 B]|[v2 [V2 [[E2 B]|[E2 B]]]]]]]];
    try discriminate E2; lra.
Qed.

Lemma detection_exclusive_witness :
  exists bb,
    calculateBB [5; 1; 3] 2 1 = Some bb
    /\ NoDup (detectedSignals 1 3 bb (Some 2)).
Proof.
  eexists. split; [reflexivity|].
  apply (detection_exclusive [5; 1; 3] 2 1 _ 1 3 (Some 2) eq_refl). lra.
Defined.

End ScannerExtra.

(* ===================================================================== *)
(** ** Properties of the scan loop *)
(* ===================================================================== *)

Module ScanExtra.

Import SignalScanner.
Import ScannerSpec.
Import Lra.
Local Open Scope R_scope.

(** *** The mock market data *)

Lemma Int_part_nonneg (x : R) : 0 <= x -> 0 <= IZR (Int_part x) <= x.
Proof.
  intro Hx. destruct (base_Int_part x) as [H1 H2]. split; [|exact H1].
  apply IZR_le. apply Z.lt_succ_r. apply lt_IZR.
  rewrite succ_IZR. lra.
Qed.

Lemma mockBar_bounds (now base : R) (rnd : nat -> R) (k : nat) :
  (forall n, 0 <= rnd n < 1) ->
  150 <= base < 200 ->
  let b := mockBar now base rnd k in
  low b <= high b
  /\ 143 + 1 / 2 <= close b < 206 + 1 / 2
  /\ 143 + 1 / 2 <= open b < 206 + 1 / 2
  /\ 142 <= low b /\ high b < 208
  /\ 0 <= volume b < 1000000
  /\ timestamp b = now - INR (100 - k) * 60000.
Proof.
  intros Hr Hb b. unfold b, mockBar. cbn [low high close open volume timestamp].
  pose proof (SIN_bound (INR (100 - k) / 10)) as [Hs1 Hs2].
  pose proof (Hr (6 * k + 1)%nat). pose proof (Hr (6 * k + 2)%nat).
  pose proof (Hr (6 * k + 3)%nat). pose proof (Hr (6 * k + 4)%nat).
  pose proof (Hr (6 * k + 5)%nat). pose proof (Hr (6 * k + 6)%nat).
  assert (Hv : 0 <= rnd (6 * k + 6)%nat * 1000000) by lra.
  pose proof (Int_part_nonneg _ Hv) as [Hv1 Hv2].
  repeat split; try lra.
Qed.

Lemma mockBars_In (now : R) (rnd : nat -> R) (b : Bar) :
  (forall n, 0 <= rnd n < 1) ->
  In b (mockBars now rnd) ->
  low b <= high b
  /\ 143 + 1 / 2 <= close b < 206 + 1 / 2
  /\ 0 <= volume b < 1000000.
Proof.
  intros Hr Hin. unfold mockBars in Hin.
  assert (Hb : 150 <= 150 + rnd 0%nat * 50 < 200).
  { pose proof (Hr 0%nat). lra. }
  apply in_map_iff in Hin. destruct Hin as [k [<- _]].
  destruct (mockBar_bounds now _ rnd k Hr Hb) as (H1 & H2 & _ & _ & _ & H3 & _).
  auto.
Qed.

(** X18. The mock market data of an item, for draws in [0, 1): there are
    101 bars, one minute apart and ending at the current time; every bar
    has low <= high, a close in [143.5, 206.5) and a volume in
    [0, 1000000). *)
Theorem mock_bars_shape (now : R) (rnd : nat -> R) :
  (forall n, 0 <= rnd n < 1) ->
  length (mockBars now rnd) = 101%nat
  /\ (forall b, In b (mockBars now rnd) ->
        low b <= high b
        /\ 143 + 1 / 2 <= close b < 206 + 1 / 2
        /\ 0 <= volume b < 1000000)
  /\ (forall k, (k <= 100)%nat ->
        exists b, nth_error (mockBars now rnd) k = Some b
                  /\ timestamp b = now - INR (100 - k) * 60000).
Proof.
  intro Hr.
  split; [unfold mockBars; now rewrite length_map, length_seq|].
  split.
  - intros b Hin. now apply (mockBars_In now rnd).
  - intros k Hk. unfold mockBars. eexists. split.
    + rewrite nth_error_map, nth_error_seq.
      destruct (Nat.ltb_spec k 101); [reflexivity | lia].
    + reflexivity.
Qed.

Lemma mock_bars_shape_witness :
  (forall n : nat, 0 <= (fun _ => 1 / 2) n < 1)
  /\ length (mockBars 0 (fun _ => 1 / 2)) = 101%nat.
Proof.
  assert (Hr : forall n : nat, 0 <= (fun _ : nat => 1 / 2) n < 1)
    by (intro n; lra).
  split; [exact Hr|].
  exact (proj1 (mock_bars_shape 0 (fun _ => 1 / 2) Hr)).
Defined.

(** *** The analysis of an item *)

Lemma bbPeriod_bounds (item : Watchlist.t) : (5 <= bbPeriod item <= 100)%nat.
Proof. unfold bbPeriod. lia. Qed.

Lemma bbStdDev_bounds (item : Watchlist.t) : 1 / 2 <= bbStdDev item <= 5.
Proof.
  unfold bbStdDev.
  set (x := orR (Watchlist.bb_std_dev item) 2).
  unfold Rmax, Rmin.
  destruct (Rle_dec 5 x); destruct (Rle_dec (1 / 2) _); lra.
Qed.

Lemma calculateBB_ordered (prices : list R) (period : nat) (k : R)
  (bands : Bands) :
  calculateBB prices period k = Some bands -> 0 <= k ->
  lower bands <= middle bands <= upper bands.
Proof.
  unfold calculateBB. destruct (length prices <? period)%nat; [discriminate|].
  intros H Hk. injection H as <-. cbn [upper middle lower].
  match goal with |- context [sqrt ?v] => pose proof (sqrt_pos v) as Hs end.
  split; nra.
Qed.

Lemma analyse_some (item : Watchlist.t) (bars : list Bar) (a : Analysis) :
  analyse item bars = Some a ->
  validSymbol (Watchlist.symbol item) = true
  /\ calculateBB (map close bars) (bbPeriod item) (bbStdDev item) = Some (bb a)
  /\ exists front previous_bar last_bar,
       bars = front ++ [previous_bar; last_bar]
       /\ currentPrice a = close last_bar
       /\ last_volume a = volume last_bar
       /\ item_vwap a = (if Watchlist.vwap_enabled item
                         then Some (calculateVWAP bars) else None)
       /\ detected a = detectedSignals (close previous_bar) (close last_bar)
                         (bb a) (item_vwap a).
Proof.
  unfold analyse.
  destruct (validSymbol (Watchlist.symbol item)); [|discriminate].
  cbn [negb].
  destruct (calculateBB (map close bars) (bbPeriod item) (bbStdDev item))
    as [bands|] eqn:Hbb; [|discriminate].
  destruct (rev bars) as [|last_bar [|previous_bar rest]] eqn:Hrev;
    try discriminate.
  intro H. injection H as <-. cbn [bb currentPrice last_volume item_vwap detected].
  split; [reflexivity|]. split; [reflexivity|].
  exists (rev rest), previous_bar, last_bar.
  split; [|repeat split].
  rewrite <- (rev_involutive bars), Hrev. cbn [rev].
  now rewrite <- app_assoc.
Qed.

Lemma analyse_enough_bars (item : Watchlist.t) (bars : list Bar) :
  (100 <= length bars)%nat ->
  validSymbol (Watchlist.symbol item) = true ->
  exists a, analyse item bars = Some a.
Proof.
  intros Hlen Hv. unfold analyse. rewrite Hv. cbn [negb].
  unfold calculateBB. rewrite length_map.
  pose proof (bbPeriod_bounds item) as Hp.
  destruct (Nat.ltb_spec (length bars) (bbPeriod item)); [lia|].
  destruct (rev bars) as [|last_bar [|previous_bar rest]] eqn:Hrev.
  - apply (f_equal (@length Bar)) in Hrev. rewrite length_rev in Hrev.
    cbn in Hrev. lia.
  - apply (f_equal (@length Bar)) in Hrev. rewrite length_rev in Hrev.
    cbn in Hrev. lia.
  - eexists. reflexivity.
Qed.

(** X19. With at least 100 bars the validated loop body skips an item
    only for its symbol, whatever period and multiplier are stored with it
    (the period used is within 5..100, the multiplier within 0.5..5); the
    bands of an analysed item are ordered and its current price is the
    close of the last bar. *)
Theorem validated_item_always_analysed (item : Watchlist.t) (bars : list Bar) :
  (100 <= length bars)%nat ->
  (analyse item bars = None <-> validSymbol (Watchlist.symbol item) = false)
  /\ forall a, analyse item bars = Some a ->
       lower (bb a) <= middle (bb a) <= upper (bb a)
       /\ exists front last_bar,
            bars = front ++ [last_bar] /\ currentPrice a = close last_bar.
Proof.
  intro Hlen. split.
  - split.
    + intro Hnone. destruct (validSymbol (Watchlist.symbol item)) eqn:Hv;
        [|reflexivity].
      destruct (analyse_enough_bars item bars Hlen Hv) as [a Ha]. congruence.
    + intro Hv. unfold analyse. now rewrite Hv.
  - intros a Ha. apply analyse_some in Ha.
    destruct Ha as (_ & Hbb & front & p & l & -> & Hc & _).
    split.
    + apply (calculateBB_ordered _ _ _ _ Hbb).
      pose proof (bbStdDev_bounds item). lra.
    + exists (front ++ [p]), l. split; [now rewrite <- app_assoc | exact Hc].
Qed.

Lemma validated_item_always_analysed_witness :
  le 100 (length (mockBars 0 (fun _ => 1 / 2)))
  /\ analyse (Watchlist.mk "w1" "alice" "AAPL" true (Some 500%Z) None true)
             (mockBars 0 (fun _ => 1 / 2)) <> None.
Proof.
  assert (Hlen : le 100 (length (mockBars 0 (fun _ => 1 / 2)))).
  { unfold mockBars. rewrite length_map, length_seq. lia. }
  split; [exact Hlen|].
  intro Hnone.
  apply (proj1 (validated_item_always_analysed
                  (Watchlist.mk "w1" "alice" "AAPL" true (Some 500%Z) None true)
                  _ Hlen)) in Hnone.
  discriminate Hnone.
Defined.

(** *** The loops *)

Lemma with_bars_In (bars_for : nat -> list Bar) (items : list Watchlist.t)
  (entry : Watchlist.t * list Bar) :
  In entry (with_bars bars_for items) ->
  exists k, nth_error items k = Some (fst entry) /\ snd entry = bars_for k.
Proof.
  unfold with_bars.
  assert (G : forall n, In entry (combine items (map bars_for (seq n (length items)))) ->
              exists k, nth_error items k = Some (fst entry)
                        /\ snd entry = bars_for (n + k)%nat).
  { induction items as [|i items IH]; intros n Hin; [destruct Hin|].
    cbn in Hin. destruct Hin as [<-|Hin].
    - exists 0%nat. split; [reflexivity|]. cbn [snd]. f_equal. lia.
    - destruct (IH (S n) Hin) as [k [Hk Hb]]. exists (S k). split; [exact Hk|].
      rewrite Hb. f_equal. lia. }
  intro Hin. destruct (G 0%nat Hin) as [k Hk]. exists k. exact Hk.
Qed.

Lemma set_executed_id (id : string) (r : SignalRow.t) :
  SignalRow.id (set_executed id r) = SignalRow.id r.
Proof. unfold set_executed. destruct (_ =? _)%string; reflexivity. Qed.

Lemma set_executed_twice (id : string) (r : SignalRow.t) :
  set_executed id (set_executed id r) = set_executed id r.
Proof.
  unfold set_executed. destruct (SignalRow.id r =? id)%string eqn:E.
  - cbn [SignalRow.id]. rewrite E. reflexivity.
  - rewrite E. reflexivity.
Qed.

Lemma table_row_more (os os' : list OrderRow.t) (r r' : SignalRow.t) :
  table_row os r r' -> table_row (os ++ os') r r'.
Proof.
  intros [H|[H [o [Ho E]]]]; [left; exact H|].
  right. split; [exact H|]. exists o. split; [apply in_or_app; now left|exact E].
Qed.

Lemma table_row_marked (os : list OrderRow.t) (o : OrderRow.t)
  (r r' : SignalRow.t) :
  table_row os r r' ->
  table_row (os ++ [o]) r (set_executed (OrderRow.signal_id o) r').
Proof.
  intro H.
  destruct (String.eqb_spec (SignalRow.id r) (OrderRow.signal_id o)) as [E|E].
  - right. split.
    + destruct H as [->|[-> _]]; rewrite E; [reflexivity|].
      apply set_executed_twice.
    + exists o. split; [apply in_or_app; right; now left | now symmetry].
  - assert (Hsame : set_executed (OrderRow.signal_id o) r' = r').
    { unfold set_executed.
      assert (Hid : SignalRow.id r' = SignalRow.id r).
      { destruct H as [->|[-> _]]; [reflexivity | apply set_executed_id]. }
      rewrite Hid. apply String.eqb_neq in E. now rewrite E. }
    rewrite Hsame. now apply table_row_more.
Qed.

Lemma inline_sound_more (s : Store) (gen gen' : list SignalRow.t)
  (o : OrderRow.t) :
  inline_sound s gen o -> inline_sound s (gen ++ gen') o.
Proof.
  intros (Hq & (row & Hin & Hrow) & Hus & Hrule).
  split; [exact Hq|]. split; [|split; [exact Hus | exact Hrule]].
  exists row. split; [apply in_or_app; now left | exact Hrow].
Qed.

Lemma scan_effect_refl (s : Store) : scan_effect s s [].
Proof.
  repeat split. exists [], []. rewrite !app_nil_r.
  repeat split; try constructor.
  induction (signals s); constructor; [now left | assumption].
Qed.

Lemma single_some {A : Type} (l : list A) (x : A) :
  single l = Some x -> l = [x].
Proof. destruct l as [|y [|z l]]; cbn; congruence. Qed.

Lemma userSettings_some (s : Store) (user : string) (us : Trader.t) :
  userSettings s user = Some us ->
  In us (trading_settings s) /\ Trader.user_id us = user.
Proof.
  unfold userSettings. intro H. apply single_some in H.
  assert (Hin : In us (filter (fun t => (Trader.user_id t =? user)%string)
                              (trading_settings s))) by (rewrite H; now left).
  apply filter_In in Hin. destruct Hin as [Hin E].
  split; [exact Hin | now apply String.eqb_eq].
Qed.

Lemma positionSizePercent_bounds (rule : Rule.t) :
  1 / 10 <= positionSizePercent rule <= 100.
Proof.
  unfold positionSizePercent.
  set (x := orR (Rule.position_size_percent rule) 5).
  unfold Rmax, Rmin.
  destruct (Rle_dec 100 x); destruct (Rle_dec (1 / 10) _); lra.
Qed.

(** The scan's own sizing keeps [max_position_value] at 100 or above. *)
Lemma maxPositionValue_bounds (rule : Rule.t) :
  100 <= maxPositionValue rule <= 1000000.
Proof.
  unfold maxPositionValue.
  set (x := orR (Rule.max_position_value rule) 10000).
  unfold Rmax, Rmin.
  destruct (Rle_dec 1000000 x); destruct (Rle_dec 100 _); lra.
Qed.

Lemma inlineQuantity_cost (us : Trader.t) (rule : Rule.t) (price : R) :
  0 < price ->
  IZR (inlineQuantity us rule price) * price
  <= Rmin (orR (Trader.max_position_size us) 10000) 100000.
Proof.
  intro Hp. unfold inlineQuantity.
  set (cap := orR (Trader.max_position_size us) 10000).
  set (m := Rmin cap (Rmin (maxPositionValue rule)
                           (100000 * positionSizePercent rule / 100))).
  destruct (base_Int_part (m / price)) as [H1 _].
  assert (Hm : IZR (Int_part (m / price)) * price <= m).
  { apply (Rmult_le_compat_r price) in H1; [|lra].
    replace (m / price * price) with m in H1 by (field; lra). exact H1. }
  assert (Hb : m <= Rmin cap 100000).
  { pose proof (positionSizePercent_bounds rule) as [_ Hpct].
    unfold m. pose proof (Rmin_l cap (Rmin (maxPositionValue rule)
                           (100000 * positionSizePercent rule / 100))).
    pose proof (Rmin_r cap (Rmin (maxPositionValue rule)
                           (100000 * positionSizePercent rule / 100))).
    pose proof (Rmin_r (maxPositionValue rule)
                           (100000 * positionSizePercent rule / 100)).
    apply Rmin_glb; lra. }
  lra.
Qed.

Lemma SignalType_eqb_true (x y : SignalType) :
  SignalType_eqb x y = true -> x = y.
Proof. destruct x, y; cbn; congruence. Qed.

Lemma fold_left_keeps {A B : Type} (f : A -> B -> A) (P : A -> Prop)
  (l : list B) (a : A) :
  P a -> (forall a x, In x l -> P a -> P (f a x)) -> P (fold_left f l a).
Proof.
  revert a. induction l as [|x l IH]; intros a Ha Hstep; [exact Ha|].
  cbn [fold_left]. apply IH.
  - apply Hstep; [now left | exact Ha].
  - intros a' y Hy. apply Hstep. now right.
Qed.

Lemma Forall2_map_right {A B : Type} (P Q : A -> B -> Prop) (f : B -> B)
  (l : list A) (l' : list B) :
  (forall x y, P x y -> Q x (f y)) ->
  Forall2 P l l' -> Forall2 Q l (map f l').
Proof.
  intros HPQ H. induction H; cbn; constructor; auto.
Qed.

Lemma watchlistItems_In (s : Store) (item : Watchlist.t) :
  In item (watchlistItems s) ->
  In item (watchlist s)
  /\ Watchlist.enabled item = true
  /\ exists t, In t (trading_settings s)
               /\ Trader.user_id t = Watchlist.user_id item
               /\ Trader.auto_trade_enabled t = true.
Proof.
  unfold watchlistItems. intro H. apply filter_In in H.
  destruct H as [Hin H]. apply andb_true_iff in H. destruct H as [Hu He].
  split; [exact Hin|]. split; [exact He|].
  apply existsb_exists in Hu. destruct Hu as [u [Hu E]].
  apply String.eqb_eq in E. unfold userIds in Hu.
  apply in_map_iff in Hu. destruct Hu as [t [Ht Hin']].
  apply filter_In in Hin'. destruct Hin' as [Hin' Hen].
  exists t. repeat split; [exact Hin' | congruence | exact Hen].
Qed.

Lemma matchingRules_In (s : Store) (item : Watchlist.t) (ty : SignalType)
  (rule : Rule.t) :
  In rule (matchingRules (signalRules s) item ty) ->
  In rule (signal_rules s)
  /\ Rule.enabled rule = true
  /\ Rule.user_id rule = Watchlist.user_id item
  /\ Rule.signal_type rule = ty.
Proof.
  unfold matchingRules, signalRules. intro H.
  apply filter_In in H. destruct H as [H Hm].
  apply filter_In in H. destruct H as [Hin He].
  apply andb_true_iff in Hm. destruct Hm as [Hu Ht].
  apply andb_true_iff in He. destruct He as [_ He].
  repeat split; [exact Hin | exact He | now apply String.eqb_eq
                | now apply SignalType_eqb_true].
Qed.

Lemma with_signal_effect (s st : Store) (gen : list SignalRow.t)
  (row : SignalRow.t) :
  scan_effect s st gen -> scan_effect s (with_signal st row) (gen ++ [row]).
Proof.
  intros (H1 & H2 & H3 & os & ps & Ho & Hp & Hop & Hs & Ht).
  split; [exact H1|]. split; [exact H2|]. split; [exact H3|].
  exists os, ps. cbn [with_signal orders positions signals].
  split; [exact Ho|]. split; [exact Hp|]. split; [exact Hop|].
  split.
  - eapply Forall_impl; [|exact Hs]. intros o. apply inline_sound_more.
  - rewrite app_assoc. apply Forall2_app; [exact Ht|].
    constructor; [now left | constructor].
Qed.

Lemma with_execution_effect (s st : Store) (gen : list SignalRow.t)
  (o : OrderRow.t) (p : PositionRow.t) :
  scan_effect s st gen ->
  inline_sound s gen o -> opened_by o p ->
  scan_effect s (with_execution st (OrderRow.signal_id o) o p) gen.
Proof.
  intros (H1 & H2 & H3 & os & ps & Ho & Hp & Hop & Hs & Ht) Hsound Hopen.
  split; [exact H1|]. split; [exact H2|]. split; [exact H3|].
  exists (os ++ [o]), (ps ++ [p]).
  cbn [with_execution orders positions signals].
  split; [now rewrite Ho, app_assoc|].
  split; [now rewrite Hp, app_assoc|].
  split; [apply Forall2_app; [exact Hop | constructor; [exact Hopen | constructor]]|].
  split.
  - apply Forall_app. split; [exact Hs | constructor; [exact Hsound | constructor]].
  - eapply Forall2_map_right; [|exact Ht].
    intros r r'. apply table_row_marked.
Qed.

Lemma auto_execute_effect (s st : Store) (gen : list SignalRow.t)
  (attempt : ScanIO) (item : Watchlist.t) (a : Analysis) (ty : SignalType)
  (rule : Rule.t) (row_id : string) :
  scan_effect s st gen ->
  In (new_signal item a ty rule row_id) gen ->
  scan_effect s (auto_execute attempt item a ty rule row_id st) gen.
Proof.
  intros Heff Hin. unfold auto_execute.
  destruct (userSettings st (Watchlist.user_id item)) as [us|] eqn:Hus;
    [|exact Heff].
  destruct (Trader.auto_trade_enabled us) eqn:Hen; [|exact Heff].
  destruct ((0 <? inlineQuantity us rule (currentPrice a))%Z
            && (inlineQuantity us rule (currentPrice a) <=? 1000000)%Z) eqn:Hq;
    [|exact Heff].
  destruct (order_row attempt) as [oid|]; [|exact Heff].
  apply andb_true_iff in Hq. destruct Hq as [Hq1 Hq2].
  apply Z.ltb_lt in Hq1. apply Z.leb_le in Hq2.
  apply userSettings_some in Hus. destruct Hus as [Husin Huser].
  destruct Heff as (H1 & Heff').
  set (o := inline_order item a ty rule us row_id (scan_order_id attempt) oid).
  change row_id with (OrderRow.signal_id o) at 1.
  apply with_execution_effect.
  - split; [exact H1 | exact Heff'].
  - split; [cbn [o inline_order OrderRow.quantity]; lia|].
    split.
    + exists (new_signal item a ty rule row_id). split; [exact Hin|].
      repeat split.
    + split.
      * exists us. split; [now rewrite <- H1|].
        split; [exact Huser|]. split; [exact Hen|].
        cbn [o inline_order OrderRow.limit_price OrderRow.quantity].
        apply inlineQuantity_cost.
      * exists rule. repeat split.
  - repeat split.
Qed.

Lemma process_match_keeps (bars_for : nat -> list Bar) (io : nat -> ScanIO)
  (s : Store) (k : nat) (item : Watchlist.t) (a : Analysis) (ty : SignalType)
  (sc : Scan) (rule : Rule.t) :
  nth_error (watchlistItems s) k = Some item ->
  analyse item (bars_for k) = Some a ->
  In ty (detected a) ->
  In rule (matchingRules (signalRules s) item ty) ->
  scan_effect s (store sc) (signalsGenerated sc)
  /\ Forall (generated_from bars_for s) (signalsGenerated sc) ->
  scan_effect s (store (process_match io item a ty sc rule))
              (signalsGenerated (process_match io item a ty sc rule))
  /\ Forall (generated_from bars_for s)
            (signalsGenerated (process_match io item a ty sc rule)).
Proof.
  intros Hk Ha Hty Hrule [Heff Hgen]. unfold process_match.
  destruct (signal_row (io (matches_seen sc))) as [row_id|];
    cbn [store signalsGenerated]; [|split; assumption].
  split.
  - apply auto_execute_effect.
    + now apply with_signal_effect.
    + apply in_or_app. right. now left.
  - apply Forall_app. split; [exact Hgen|]. constructor; [|constructor].
    pose proof (nth_error_In _ _ Hk) as Hitem.
    apply watchlistItems_In in Hitem. destruct Hitem as (Hw & He & Ht).
    apply matchingRules_In in Hrule. destruct Hrule as (Hr1 & Hr2 & Hr3 & Hr4).
    destruct (analyse_some _ _ _ Ha) as (Hv & _).
    exists k, item, a, rule. cbn [new_signal SignalRow.signal_type SignalRow.id].
    repeat split; assumption.
Qed.

Lemma run_scan_keeps (bars_for : nat -> list Bar) (io : nat -> ScanIO)
  (s : Store) :
  scan_effect s (store (run_scan bars_for io s))
              (signalsGenerated (run_scan bars_for io s))
  /\ Forall (generated_from bars_for s)
            (signalsGenerated (run_scan bars_for io s)).
Proof.
  unfold run_scan.
  apply (fold_left_keeps _
           (fun sc => scan_effect s (store sc) (signalsGenerated sc)
                      /\ Forall (generated_from bars_for s) (signalsGenerated sc))).
  - cbn [store signalsGenerated]. split; [apply scan_effect_refl | constructor].
  - intros sc entry Hentry Hsc. unfold process_item.
    destruct (analyse (fst entry) (snd entry)) as [a|] eqn:Ha; [|exact Hsc].
    apply with_bars_In in Hentry. destruct Hentry as [k [Hk Hbars]].
    rewrite Hbars in Ha.
    apply (fold_left_keeps _
             (fun sc => scan_effect s (store sc) (signalsGenerated sc)
                        /\ Forall (generated_from bars_for s) (signalsGenerated sc)));
      [exact Hsc|].
    intros sc1 ty Hty Hsc1. unfold process_type.
    apply (fold_left_keeps _
             (fun sc => scan_effect s (store sc) (signalsGenerated sc)
                        /\ Forall (generated_from bars_for s) (signalsGenerated sc)));
      [exact Hsc1|].
    intros sc2 rule Hrule Hsc2.
    now apply (process_match_keeps bars_for io s k).
Qed.

Lemma scan_keeps (bars_for : nat -> list Bar) (io : nat -> ScanIO) (s : Store) :
  scan_effect s (fst (scan bars_for io s))
              (scan_signals (snd (scan bars_for io s)))
  /\ Forall (generated_from bars_for s)
            (scan_signals (snd (scan bars_for io s))).
Proof.
  unfold scan.
  destruct (userIds s); [split; [apply scan_effect_refl | constructor]|].
  destruct (watchlistItems s) eqn:Hw; [split; [apply scan_effect_refl | constructor]|].
  cbn [fst snd scan_signals]. apply run_scan_keeps.
Qed.

(** *** A scan that places an order *)

Lemma Rleb_yes (a b : R) : a <= b -> Rleb a b = true.
Proof. intro H. unfold Rleb. destruct (Rle_dec a b); [reflexivity | contradiction]. Qed.
Lemma Rleb_no (a b : R) : b < a -> Rleb a b = false.
Proof. intro H. unfold Rleb. destruct (Rle_dec a b); [lra | reflexivity]. Qed.
Lemma Rltb_yes (a b : R) : a < b -> Rltb a b = true.
Proof. intro H. unfold Rltb. destruct (Rlt_dec a b); [reflexivity | contradiction]. Qed.
Lemma Rltb_no (a b : R) : b <= a -> Rltb a b = false.
Proof. intro H. unfold Rltb. destruct (Rlt_dec a b); [lra | reflexivity]. Qed.
Lemma orR_some (x d : R) : x <> 0 -> orR (Some x) d = x.
Proof. intro H. unfold orR, truthy. destruct (Req_dec_T x 0); [contradiction | reflexivity]. Qed.
Lemma orR_none (d : R) : orR None d = d.
Proof. reflexivity. Qed.

Lemma jump_bands :
  calculateBB (map close jump_bars) 5 1
  = Some {| upper := 16; middle := 12; lower := 8 |}.
Proof.
  unfold calculateBB, jump_bars, flat_bar.
  cbn [map close length Nat.ltb Nat.leb slice_last skipn Nat.sub fold_left].
  replace (INR 5) with 5 by (cbn; lra).
  replace ((0 + 10 + 10 + 10 + 10 + 20) / 5) with 12 by lra.
  match goal with |- context [sqrt ?v] =>
    replace v with (Rsqr 4) by (unfold Rsqr; cbn [pow]; lra) end.
  rewrite sqrt_Rsqr by lra.
  f_equal. f_equal; lra.
Qed.

Lemma jump_analysis :
  analyse item_aapl jump_bars
  = Some {| currentPrice := 20; bb := {| upper := 16; middle := 12; lower := 8 |};
            item_vwap := None; last_volume := 100;
            detected := [bb_breakout_up] |}.
Proof.
  unfold analyse.
  change (validSymbol (Watchlist.symbol item_aapl)) with true. cbn [negb].
  change (bbPeriod item_aapl) with 5%nat.
  assert (Hk : bbStdDev item_aapl = 1).
  { unfold bbStdDev. cbn [item_aapl Watchlist.bb_std_dev].
    rewrite orR_some by lra. rewrite Rmin_right by lra. apply Rmax_right. lra. }
  rewrite Hk, jump_bands.
  cbn [jump_bars map rev app flat_bar close volume item_aapl Watchlist.vwap_enabled].
  f_equal. f_equal.
  unfold detectedSignals. cbn [upper lower truthy].
  rewrite (Rleb_yes 10 16), (Rltb_yes 16 20), (Rltb_no 20 8), (Rltb_no 10 8),
    (Rltb_no 16 10) by lra.
  rewrite !andb_false_r. reflexivity.
Qed.

Lemma jump_quantity : inlineQuantity trader_alice rule_breakout 20 = 250%Z.
Proof.
  unfold inlineQuantity, maxPositionValue, positionSizePercent.
  cbn [trader_alice rule_breakout Trader.max_position_size
       Rule.max_position_value Rule.position_size_percent].
  rewrite !orR_none.
  rewrite (Rmin_right 1000000 10000), (Rmax_right 100 10000),
    (Rmin_right 100 5), (Rmax_right (1 / 10) 5) by lra.
  replace (100000 * 5 / 100) with 5000 by lra.
  rewrite (Rmin_right 10000 5000), (Rmin_right 10000 5000) by lra.
  symmetry. apply Int_part_spec. lra.
Qed.

Lemma jump_scan :
  snd (scan (fun _ => jump_bars) writes_ok scan_store)
  = ScanComplete
      [SignalRow.mk "s1"%string "alice"%string "w1"%string "r1"%string "AAPL"%string bb_breakout_up 20 16 8 12
                    None 100 false]
  /\ map (fun o => (OrderRow.signal_id o, OrderRow.side o, OrderRow.quantity o))
         (orders (fst (scan (fun _ => jump_bars) writes_ok scan_store)))
     = [("s1"%string, buy, 250%Z)]
  /\ map (fun r => (SignalRow.id r, SignalRow.executed r))
         (signals (fst (scan (fun _ => jump_bars) writes_ok scan_store)))
     = [("s1"%string, true)].
Proof.
  unfold scan.
  change (userIds scan_store) with ["alice"%string].
  change (watchlistItems scan_store) with [item_aapl].
  unfold run_scan.
  change (watchlistItems scan_store) with [item_aapl].
  change (signalRules scan_store) with [rule_breakout].
  cbn [with_bars length seq map combine fold_left].
  unfold process_item. cbn [fst snd]. rewrite jump_analysis.
  cbn [detected fold_left]. unfold process_type.
  change (matchingRules [rule_breakout] item_aapl bb_breakout_up)
    with [rule_breakout].
  cbn [fold_left]. unfold process_match.
  cbn [matches_seen writes_ok signal_row store signalsGenerated app].
  unfold auto_execute.
  change (userSettings _ (Watchlist.user_id item_aapl)) with (Some trader_alice).
  cbn [trader_alice Trader.auto_trade_enabled currentPrice].
  fold trader_alice. rewrite jump_quantity.
  cbn [Z.ltb Z.leb Z.compare Pos.compare Pos.compare_cont andb order_row].
  change (order_row (writes_ok 0)) with (Some "o1"%string).
  cbn [fst snd with_execution with_signal orders signals scan_store app map
       inline_order OrderRow.signal_id OrderRow.side OrderRow.quantity
       currentPrice new_signal set_executed SignalRow.id SignalRow.executed].
  rewrite jump_quantity.
  repeat split.
Qed.

(** *** The scan *)

(** X20. Every signal a scan reports was written for an enabled watchlist
    item with a well-formed symbol whose user has auto-trading enabled,
    for a signal type detected on that item's bars, and for an enabled
    rule of the same user and type; the reported row carries the price and
    bands of that analysis and is reported as not executed. *)
Theorem generated_signals_sound (bars_for : nat -> list Bar)
  (io : nat -> ScanIO) (s : Store) :
  Forall (fun row => generated_from bars_for s row
                     /\ SignalRow.executed row = false)
         (scan_signals (snd (scan bars_for io s))).
Proof.
  destruct (scan_keeps bars_for io s) as [_ Hgen].
  eapply Forall_impl; [|exact Hgen].
  intros row Hrow. split; [exact Hrow|].
  destruct Hrow as (k & item & a & rule & _ & _ & _ & _ & _ & _ & _ & _ & _
                   & _ & _ & H).
  rewrite H. reflexivity.
Qed.

(** X21. The orders and positions tables only grow during a scan, by one
    position per order.  Every order placed has a quantity within
    1..1000000, answers a signal of the same scan (same user, symbol, price
    and the side of its type) and belongs to a user whose settings row
    enables auto-trading; at a positive price its value is at most that
    user's maximum position size (10000 when unset) and at most 100000. *)
Theorem scan_orders_sound (bars_for : nat -> list Bar) (io : nat -> ScanIO)
  (s : Store) :
  exists new_orders new_positions,
    orders (fst (scan bars_for io s)) = orders s ++ new_orders
    /\ positions (fst (scan bars_for io s)) = positions s ++ new_positions
    /\ Forall2 opened_by new_orders new_positions
    /\ Forall (inline_sound s (scan_signals (snd (scan bars_for io s))))
              new_orders.
Proof.
  destruct (scan_keeps bars_for io s)
    as [(_ & _ & _ & os & ps & Ho & Hp & Hop & Hs & _) _].
  exists os, ps. auto.
Qed.

(** X22. A scan leaves the settings, the watchlist and the rules as they
    are, and the signals table is the old table followed by the reported
    signals, row by row, where a row differs from what it was at most in
    being marked executed, and then an order of this scan references it. *)
Theorem scan_signals_table (bars_for : nat -> list Bar) (io : nat -> ScanIO)
  (s : Store) :
  trading_settings (fst (scan bars_for io s)) = trading_settings s
  /\ watchlist (fst (scan bars_for io s)) = watchlist s
  /\ signal_rules (fst (scan bars_for io s)) = signal_rules s
  /\ exists new_orders,
       orders (fst (scan bars_for io s)) = orders s ++ new_orders
       /\ Forall2 (table_row new_orders)
                  (signals s ++ scan_signals (snd (scan bars_for io s)))
                  (signals (fst (scan bars_for io s))).
Proof.
  destruct (scan_keeps bars_for io s)
    as [(H1 & H2 & H3 & os & ps & Ho & _ & _ & _ & Ht) _].
  repeat (split; [assumption|]). exists os. auto.
Qed.

Lemma filter_unique_user (l : list Trader.t) (t : Trader.t) :
  NoDup (map Trader.user_id l) -> In t l ->
  filter (fun x => (Trader.user_id x =? Trader.user_id t)%string) l = [t].
Proof.
  induction l as [|x l IH]; intros Hnd Hin; [destruct Hin|].
  cbn [map] in Hnd. inversion Hnd as [|? ? Hx Hnd']; subst.
  cbn [filter]. destruct Hin as [->|Hin].
  - rewrite String.eqb_refl. f_equal.
    clear IH Hnd Hnd'. induction l as [|y l IHl]; [reflexivity|].
    cbn [filter].
    destruct (String.eqb_spec (Trader.user_id y) (Trader.user_id t)) as [E|E].
    + exfalso. apply Hx. cbn [map]. left. exact E.
    + apply IHl. intro H. apply Hx. cbn [map]. now right.
  - destruct (String.eqb_spec (Trader.user_id x) (Trader.user_id t)) as [E|E].
    + exfalso. apply Hx. rewrite E. now apply in_map.
    + now apply IH.
Qed.

(** X23. When no two settings rows share a user (the table's unique
    constraint), the settings looked up for a reported signal are those of
    a user with auto-trading enabled: the manual-execution branch is never
    taken. *)
Theorem auto_branch_always_taken (bars_for : nat -> list Bar)
  (io : nat -> ScanIO) (s : Store) :
  NoDup (map Trader.user_id (trading_settings s)) ->
  Forall (fun row => exists us,
            userSettings (fst (scan bars_for io s)) (SignalRow.user_id row)
            = Some us
            /\ Trader.auto_trade_enabled us = true)
         (scan_signals (snd (scan bars_for io s))).
Proof.
  intro Hnd. destruct (scan_keeps bars_for io s) as [(Hset & _) Hgen].
  eapply Forall_impl; [|exact Hgen].
  intros row (k & item & a & rule & _ & _ & _ & _ & (t & Ht & Hu & He) & _
              & _ & _ & _ & _ & _ & H).
  exists t. split; [|exact He].
  unfold userSettings. rewrite Hset, H. cbn [new_signal SignalRow.user_id].
  rewrite <- Hu, (filter_unique_user _ t Hnd Ht). reflexivity.
Qed.

Lemma auto_branch_always_taken_witness :
  NoDup (map Trader.user_id (trading_settings scan_store))
  /\ exists row us,
       In row (scan_signals (snd (scan (fun _ => jump_bars) writes_ok scan_store)))
       /\ userSettings (fst (scan (fun _ => jump_bars) writes_ok scan_store))
                       (SignalRow.user_id row) = Some us
       /\ Trader.auto_trade_enabled us = true.
Proof.
  assert (Hnd : NoDup (map Trader.user_id (trading_settings scan_store))).
  { cbn. constructor; [intros [] | constructor]. }
  split; [exact Hnd|].
  pose proof (auto_branch_always_taken (fun _ => jump_bars) writes_ok
                scan_store Hnd) as H.
  destruct jump_scan as [Hs _]. rewrite Hs in H. cbn [scan_signals] in H.
  inversion H as [|row l [us [Hus Hen]] _]; subst.
  eexists. exists us. rewrite Hs. cbn [scan_signals].
  split; [now left|]. split; [exact Hus | exact Hen].
Defined.

(** X24. A scan over the mock market data, for draws in [0, 1): every
    order it places has a limit price in [143.5, 206.5), a quantity within
    1..696 and a value of at most 100000. *)
Theorem mock_scan_order_size (now : nat -> R) (rnd : nat -> nat -> R)
  (io : nat -> ScanIO) (s : Store) :
  (forall k n, 0 <= rnd k n < 1) ->
  exists new_orders,
    orders (fst (scan (fun k => mockBars (now k) (rnd k)) io s))
    = orders s ++ new_orders
    /\ Forall (fun o =>
                 143 + 1 / 2 <= OrderRow.limit_price o < 206 + 1 / 2
                 /\ (1 <= OrderRow.quantity o <= 696)%Z
                 /\ IZR (OrderRow.quantity o) * OrderRow.limit_price o
                    <= 100000)
              new_orders.
Proof.
  intro Hr.
  destruct (scan_keeps (fun k => mockBars (now k) (rnd k)) io s)
    as [(_ & _ & _ & os & ps & Ho & _ & _ & Hs & _) Hgen].
  exists os. split; [exact Ho|].
  rewrite Forall_forall in Hgen.
  eapply Forall_impl; [|exact Hs].
  intros o (Hq & (row & Hin & _ & _ & _ & Hprice & _)
              & (us & _ & _ & _ & Hcost) & _).
  destruct (Hgen row Hin) as (k & item & a & rule & H).
  destruct H as (_ & _ & _ & _ & _ & Ha & _ & _ & _ & _ & _ & H).
  apply analyse_some in Ha.
  destruct Ha as (_ & _ & front & p & l & Hbars & Hc & _).
  assert (Hl : In l (mockBars (now k) (rnd k))).
  { rewrite Hbars. apply in_or_app. right. right. now left. }
  apply (mockBars_In _ _ _ (Hr k)) in Hl. destruct Hl as (_ & Hclose & _).
  assert (Hp : OrderRow.limit_price o = close l).
  { rewrite Hprice, H. cbn [new_signal SignalRow.price_at_signal]. exact Hc. }
  rewrite Hp in *.
  assert (Hcost' : IZR (OrderRow.quantity o) * close l <= 100000).
  { pose proof (Rmin_r (orR (Trader.max_position_size us) 10000) 100000).
    assert (0 < close l) by lra. specialize (Hcost H1). lra. }
  split; [exact Hclose|]. split; [|exact Hcost'].
  split; [lia|].
  apply Z.lt_succ_r. apply lt_IZR.
  assert (0 <= IZR (OrderRow.quantity o)) by (apply IZR_le; lia).
  replace (IZR (Z.succ 696)) with 697 by (cbn; lra).
  nra.
Qed.

Lemma mock_scan_order_size_witness :
  (forall k n : nat, 0 <= (fun _ _ => 1 / 2) k n < 1)
  /\ exists new_orders,
       orders (fst (scan (fun k => mockBars 0 (fun _ => 1 / 2)) writes_ok
                         scan_store))
       = orders scan_store ++ new_orders
       /\ Forall (fun o => (1 <= OrderRow.quantity o <= 696)%Z) new_orders.
Proof.
  assert (Hr : forall k n : nat, 0 <= (fun _ _ : nat => 1 / 2) k n < 1)
    by (intros k n; lra).
  split; [exact Hr|].
  destruct (mock_scan_order_size (fun _ => 0) (fun _ _ => 1 / 2) writes_ok
              scan_store Hr) as [os [Ho Hs]].
  exists os. split; [exact Ho|].
  eapply Forall_impl; [|exact Hs]. intros o (_ & Hq & _). exact Hq.
Defined.

Lemma validatedPercent_range (raw : option R) (hi pct : R) :
  1 / 10 <= hi ->
  truthy (validatedPercent raw hi) = Some pct -> 1 / 10 <= pct <= hi.
Proof.
  intros Hhi. unfold validatedPercent.
  destruct (truthy raw) as [x|]; [|discriminate].
  cbn [truthy]. destruct (Req_dec_T _ 0); [discriminate|].
  intro H. injection H as <-.
  unfold Rmax, Rmin. destruct (Rle_dec hi x); destruct (Rle_dec (1 / 10) _); lra.
Qed.

(** X25. The protective prices of the orders a scan places at a positive
    price: a stop-loss lies on the losing side of the limit price, between
    0.1% and 50% away from it; a take-profit lies on the winning side,
    between 0.1% and 100% away. *)
Theorem scan_protective_prices (bars_for : nat -> list Bar)
  (io : nat -> ScanIO) (s : Store) :
  exists new_orders,
    orders (fst (scan bars_for io s)) = orders s ++ new_orders
    /\ Forall (fun o =>
         let price := OrderRow.limit_price o in
         0 < price ->
         (forall sl, OrderRow.stop_loss_price o = Some sl ->
            match OrderRow.side o with
            | buy => price * (1 / 2) <= sl <= price * (999 / 1000)
            | sell => price * (1001 / 1000) <= sl <= price * (3 / 2)
            end)
         /\ (forall tp, OrderRow.take_profit_price o = Some tp ->
            match OrderRow.side o with
            | buy => price * (1001 / 1000) <= tp <= price * 2
            | sell => 0 <= tp <= price * (999 / 1000)
            end))
       new_orders.
Proof.
  destruct (scan_keeps bars_for io s)
    as [(_ & _ & _ & os & ps & Ho & _ & _ & Hs & _) _].
  exists os. split; [exact Ho|].
  eapply Forall_impl; [|exact Hs].
  intros o (_ & _ & _ & (rule & Hsl & Htp & _)) price Hprice.
  fold price in Hsl, Htp. split.
  - intros sl Hsome. rewrite Hsl in Hsome. unfold inline_stop in Hsome.
    destruct (truthy (validatedPercent (Rule.stop_loss_percent rule) 50))
      as [pct|] eqn:Hpct; [|discriminate].
    injection Hsome as <-.
    apply validatedPercent_range in Hpct; [|lra].
    destruct (OrderRow.side o); cbn [side_sign]; split; nra.
  - intros tp Hsome. rewrite Htp in Hsome. unfold inline_target in Hsome.
    destruct (truthy (validatedPercent (Rule.take_profit_percent rule) 100))
      as [pct|] eqn:Hpct; [|discriminate].
    injection Hsome as <-.
    apply validatedPercent_range in Hpct; [|lra].
    destruct (OrderRow.side o); cbn [side_sign]; split; nra.
Qed.

(** *** Failing writes *)

Lemma auto_execute_no_order (attempt : ScanIO) (item : Watchlist.t)
  (a : Analysis) (ty : SignalType) (rule : Rule.t) (row_id : string)
  (st : Store) :
  order_row attempt = None ->
  auto_execute attempt item a ty rule row_id st = st.
Proof.
  intro H. unfold auto_execute. rewrite H.
  destruct (userSettings st (Watchlist.user_id item)) as [us|]; [|reflexivity].
  destruct (Trader.auto_trade_enabled us); [|reflexivity].
  destruct (_ && _); reflexivity.
Qed.

Lemma run_scan_fold (io : nat -> ScanIO) (rules : list Rule.t)
  (P : Scan -> Prop) (entries : list (Watchlist.t * list Bar)) (sc : Scan) :
  P sc ->
  (forall item a ty sc rule, P sc -> P (process_match io item a ty sc rule)) ->
  P (fold_left (process_item io rules) entries sc).
Proof.
  intros Hsc Hstep. apply fold_left_keeps; [exact Hsc|].
  intros sc1 entry _ Hsc1. unfold process_item.
  destruct (analyse (fst entry) (snd entry)) as [a|]; [|exact Hsc1].
  apply fold_left_keeps; [exact Hsc1|].
  intros sc2 ty _ Hsc2. unfold process_type.
  apply fold_left_keeps; [exact Hsc2|].
  intros sc3 rule _ Hsc3. now apply Hstep.
Qed.

(** X26. When every insert of a signal row fails, a scan writes nothing
    and reports no signal: no order is placed for a signal that could not
    be stored. *)
Theorem failed_signal_inserts_write_nothing (bars_for : nat -> list Bar)
  (io : nat -> ScanIO) (s : Store) :
  (forall k, signal_row (io k) = None) ->
  fst (scan bars_for io s) = s
  /\ scan_signals (snd (scan bars_for io s)) = [].
Proof.
  intro Hio. unfold scan.
  destruct (userIds s); [split; reflexivity|].
  destruct (watchlistItems s) eqn:Hw; [split; reflexivity|].
  cbn [fst snd scan_signals]. unfold run_scan.
  apply (run_scan_fold io _ (fun sc => store sc = s /\ signalsGenerated sc = []));
    [split; reflexivity|].
  intros item a ty sc rule [H1 H2]. unfold process_match.
  rewrite Hio. cbn [store signalsGenerated]. split; assumption.
Qed.

Lemma failed_signal_inserts_write_nothing_witness :
  (forall k : nat, signal_row ((fun _ => mkScanIO None "SCAN-1" None) k) = None)
  /\ fst (scan (fun _ => jump_bars) (fun _ => mkScanIO None "SCAN-1" None)
               scan_store) = scan_store.
Proof.
  assert (Hio : forall k : nat,
             signal_row ((fun _ : nat => mkScanIO None "SCAN-1" None) k) = None)
    by (intro k; reflexivity).
  split; [exact Hio|].
  exact (proj1 (failed_signal_inserts_write_nothing (fun _ => jump_bars)
                  (fun _ => mkScanIO None "SCAN-1" None) scan_store Hio)).
Defined.

(** X27. When every insert of an order fails, a scan leaves the orders and
    positions tables as they are, and the signals table is the old table
    followed by the reported signals, none of them marked executed. *)
Theorem failed_order_inserts_keep_signals (bars_for : nat -> list Bar)
  (io : nat -> ScanIO) (s : Store) :
  (forall k, order_row (io k) = None) ->
  orders (fst (scan bars_for io s)) = orders s
  /\ positions (fst (scan bars_for io s)) = positions s
  /\ signals (fst (scan bars_for io s))
     = signals s ++ scan_signals (snd (scan bars_for io s))
  /\ Forall (fun row => SignalRow.executed row = false)
            (scan_signals (snd (scan bars_for io s))).
Proof.
  intro Hio.
  assert (Hex : Forall (fun row => SignalRow.executed row = false)
                       (scan_signals (snd (scan bars_for io s)))).
  { destruct (scan_keeps bars_for io s) as [_ Hgen].
    eapply Forall_impl; [|exact Hgen].
    intros row (k & item & a & rule & _ & _ & _ & _ & _ & _ & _ & _ & _
                & _ & _ & H).
    rewrite H. reflexivity. }
  split; [|split; [|split; [|exact Hex]]]; clear Hex; unfold scan;
    (destruct (userIds s); [cbn; now rewrite ?app_nil_r|]);
    (destruct (watchlistItems s) eqn:Hw; [cbn; now rewrite ?app_nil_r|]);
    cbn [fst snd scan_signals]; unfold run_scan;
    apply (run_scan_fold io _
             (fun sc => orders (store sc) = orders s
                        /\ positions (store sc) = positions s
                        /\ signals (store sc) = signals s ++ signalsGenerated sc));
    try (cbn [store signalsGenerated]; now rewrite app_nil_r);
    intros item a ty sc rule (H1 & H2 & H3); unfold process_match;
    (destruct (signal_row (io (matches_seen sc))) as [row_id|];
     cbn [store signalsGenerated]; [|auto]);
    rewrite auto_execute_no_order by apply Hio;
    cbn [with_signal orders positions signals];
    rewrite H3, app_assoc; auto.
Qed.

Lemma failed_order_inserts_keep_signals_witness :
  (forall k : nat,
      order_row ((fun _ => mkScanIO (Some "s1"%string) "SCAN-1" None) k) = None)
  /\ orders (fst (scan (fun _ => jump_bars)
                       (fun _ => mkScanIO (Some "s1"%string) "SCAN-1" None)
                       scan_store)) = orders scan_store.
Proof.
  assert (Hio : forall k : nat,
             order_row ((fun _ : nat => mkScanIO (Some "s1"%string) "SCAN-1" None) k)
             = None)
    by (intro k; reflexivity).
  split; [exact Hio|].
  exact (proj1 (failed_order_inserts_keep_signals (fun _ => jump_bars)
                  (fun _ => mkScanIO (Some "s1"%string) "SCAN-1" None)
                  scan_store Hio)).
Defined.

End ScanExtra.

(* ===================================================================== *)
(** ** Further properties of the auto-invest function *)
(* ===================================================================== *)

Module AutoInvestExtra.

Import AutoInvest.
Import AutoInvestSpec.
Import Lqa.
Local Open Scope Q_scope.

(** Division by the literal 100, written as a product. *)
Ltac percent := unfold Qdiv; change (/ 100) with (1 # 100).

(** *** The CORS headers *)

Lemma endsWith_iff (s suffix : string) :
  endsWith s suffix = true <-> exists pre, s = (pre ++ suffix)%string.
Proof.
  split.
  - induction s as [|a rest IH]; cbn [endsWith].
    + destruct (String.eqb_spec "" suffix) as [<-|_]; [|discriminate].
      intros _. exists ""%string. reflexivity.
    + destruct (String.eqb_spec (String a rest) suffix) as [<-|_].
      * intros _. exists ""%string. reflexivity.
      * intro H. destruct (IH H) as [pre ->].
        exists (String a pre). reflexivity.
  - intros [pre ->]. induction pre as [|a pre IH]; cbn [String.append].
    + destruct suffix; cbn [endsWith]; rewrite String.eqb_refl; reflexivity.
    + cbn [endsWith]. rewrite IH.
      destruct (String a (pre ++ suffix) =? suffix)%string; reflexivity.
Qed.

Lemma allowedOrigins_first (frontend_url : option string) :
  exists rest, allowedOrigins frontend_url = "http://localhost:3000"%string :: rest.
Proof. unfold allowedOrigins. cbn. eexists. reflexivity. Qed.

Lemma allowedOrigins_nonempty_strings (frontend_url : option string) (o : string) :
  In o (allowedOrigins frontend_url) -> o <> ""%string.
Proof.
  unfold allowedOrigins. intro H. apply filter_In in H. destruct H as [_ H].
  apply negb_true_iff, String.eqb_neq in H. exact H.
Qed.

Lemma isAllowed_iff (frontend_url : option string) (origin : string) :
  isAllowed frontend_url origin = true
  <-> In origin (allowedOrigins frontend_url)
      \/ endsWith origin ".lovable.app" = true
      \/ endsWith origin ".lovableproject.com" = true.
Proof.
  unfold isAllowed. rewrite existsb_exists. split.
  - intros [a [Hin H]]. apply orb_true_iff in H. destruct H as [H|H]; [|tauto].
    apply orb_true_iff in H. destruct H as [H|H]; [|tauto].
    apply String.eqb_eq in H. subst a. tauto.
  - destruct (allowedOrigins_first frontend_url) as [rest E].
    intros [H|[H|H]].
    + exists origin. split; [exact H|]. rewrite String.eqb_refl. reflexivity.
    + exists "http://localhost:3000"%string. rewrite E. split; [left; reflexivity|].
      rewrite H. apply orb_true_iff. left. apply orb_true_r.
    + exists "http://localhost:3000"%string. rewrite E. split; [left; reflexivity|].
      rewrite H. apply orb_true_r.
Qed.

(** X6. The [Access-Control-Allow-Origin] header is never empty.  It is the
    request's origin only when that origin is one of the configured
    origins or ends in [.lovable.app] or [.lovableproject.com], and
    [http://localhost:3000] in every other case, a missing [Origin] header
    included, whatever [FRONTEND_URL] is; every configured origin (a
    non-empty [FRONTEND_URL] among them) and every origin with one of the
    two suffixes are echoed. *)
Theorem cors_allow_origin (frontend_url origin_header : option string) :
  let h := allow_origin (getCorsHeaders frontend_url origin_header) in
  h <> ""%string
  /\ (h = "http://localhost:3000"%string
      \/ (origin_header = Some h
          /\ (In h (allowedOrigins frontend_url)
              \/ (exists pre, h = (pre ++ ".lovable.app")%string)
              \/ (exists pre, h = (pre ++ ".lovableproject.com")%string))))
  /\ (origin_header = None -> h = "http://localhost:3000"%string)
  /\ (forall u, frontend_url = Some u -> u <> ""%string ->
        origin_header = Some u -> h = u)
  /\ (forall pre, origin_header = Some (pre ++ ".lovable.app")%string ->
        h = (pre ++ ".lovable.app")%string)
  /\ (forall pre, origin_header = Some (pre ++ ".lovableproject.com")%string ->
        h = (pre ++ ".lovableproject.com")%string)
  /\ (forall o, origin_header = Some o ->
        In o (allowedOrigins frontend_url) -> h = o).
Proof.
  intro h. unfold h, getCorsHeaders. cbn [allow_origin].
  destruct (allowedOrigins_first frontend_url) as [rest Efirst].
  assert (Hfallback : or_string (hd ""%string (allowedOrigins frontend_url))
                                "http://localhost:3000"
                      = "http://localhost:3000"%string)
    by (rewrite Efirst; reflexivity).
  rewrite Hfallback.
  assert (Hempty : isAllowed frontend_url "" = false).
  { destruct (isAllowed frontend_url "") eqn:E; [|reflexivity].
    apply isAllowed_iff in E. destruct E as [E|[E|E]]; try discriminate E.
    exfalso. apply (allowedOrigins_nonempty_strings frontend_url "" E). reflexivity. }
  assert (Hsome : forall o, o <> ""%string -> or_string o "" = o).
  { intros o Ho. unfold or_string. apply String.eqb_neq in Ho. rewrite Ho. reflexivity. }
  split; [|split; [|split; [|split; [|split; [|split]]]]].
  - destruct origin_header as [o|]; [|rewrite Hempty; discriminate].
    destruct (String.eqb_spec o "") as [->|Ho].
    + cbn [or_string String.eqb]. rewrite Hempty. discriminate.
    + rewrite (Hsome o Ho). destruct (isAllowed frontend_url o); [exact Ho | discriminate].
  - destruct origin_header as [o|]; [|rewrite Hempty; left; reflexivity].
    destruct (String.eqb_spec o "") as [->|Ho].
    + cbn [or_string String.eqb]. rewrite Hempty. left. reflexivity.
    + rewrite (Hsome o Ho). destruct (isAllowed frontend_url o) eqn:E;
        [|left; reflexivity].
      right. split; [reflexivity|]. apply isAllowed_iff in E.
      rewrite !endsWith_iff in E. exact E.
  - intros ->. rewrite Hempty. reflexivity.
  - intros u -> Hu ->. rewrite (Hsome u Hu).
    assert (E : isAllowed (Some u) u = true).
    { apply isAllowed_iff. left. unfold allowedOrigins. apply filter_In. split.
      - rewrite (Hsome u Hu). simpl. tauto.
      - apply negb_true_iff, String.eqb_neq. exact Hu. }
    rewrite E. reflexivity.
  - intros pre ->.
    assert (Hne : (pre ++ ".lovable.app")%string <> ""%string)
      by (destruct pre; discriminate).
    rewrite (Hsome _ Hne).
    assert (E : isAllowed frontend_url (pre ++ ".lovable.app") = true).
    { apply isAllowed_iff. right. left. apply endsWith_iff. exists pre. reflexivity. }
    rewrite E. reflexivity.
  - intros pre ->.
    assert (Hne : (pre ++ ".lovableproject.com")%string <> ""%string)
      by (destruct pre; discriminate).
    rewrite (Hsome _ Hne).
    assert (E : isAllowed frontend_url (pre ++ ".lovableproject.com") = true).
    { apply isAllowed_iff. right. right. apply endsWith_iff. exists pre.
      reflexivity. }
    rewrite E. reflexivity.
  - intros o -> Hin.
    pose proof (allowedOrigins_nonempty_strings frontend_url o Hin) as Ho.
    rewrite (Hsome o Ho).
    assert (E : isAllowed frontend_url o = true)
      by (apply isAllowed_iff; left; exact Hin).
    rewrite E. reflexivity.
Qed.

Lemma cors_allow_origin_witness :
  allow_origin (getCorsHeaders (Some "https://app.example.com"%string)
                               (Some "https://app.example.com"%string))
  = "https://app.example.com"%string.
Proof.
  destruct (cors_allow_origin (Some "https://app.example.com"%string)
                              (Some "https://app.example.com"%string))
    as [_ [_ [_ [H _]]]].
  apply (H "https://app.example.com"%string); [reflexivity | discriminate | reflexivity].
Defined.

(** *** Protective prices *)

Lemma validated_percent_range (raw : option Q) (hi c : Q) :
  (1 # 10) <= hi ->
  validated_percent raw hi = Some c -> (1 # 10) <= c <= hi.
Proof.
  intros Hhi. unfold validated_percent. destruct raw as [x|]; [|discriminate].
  destruct (truthy (Some x)); [|discriminate].
  intro H. injection H as <-. split.
  - apply Q.le_max_l.
  - apply Q.max_lub; [exact Hhi | apply Q.le_min_l].
Qed.

(** X7. For a positive price the protective prices bracket the entry on
    the right sides: on a buy the stop-loss lies in [price/2, price) and
    the take-profit in (price, 2*price]; on a sell the stop-loss lies in
    (price, 1.5*price] and the take-profit in [0, price). *)
Theorem protective_prices_bracket (price : Q) (side : OrderSide)
  (rule : SignalRule.t) :
  0 < price ->
  (forall sl, stopLossPrice price side rule = Some sl ->
     match side with
     | buy => price * (1 # 2) <= sl /\ sl < price
     | sell => price < sl /\ sl <= price * (3 # 2)
     end)
  /\ (forall tp, takeProfitPrice price side rule = Some tp ->
     match side with
     | buy => price < tp /\ tp <= price * 2
     | sell => 0 <= tp /\ tp < price
     end).
Proof.
  intro Hp. split.
  - intro sl. unfold stopLossPrice, stopLossPercent.
    destruct (validated_percent (SignalRule.stop_loss_percent rule) 50)
      as [c|] eqn:Ec; [|discriminate].
    destruct (truthy (Some c)); [|discriminate].
    intro H. injection H as <-.
    apply validated_percent_range in Ec; [|discriminate].
    destruct side; cbn [sign]; percent; split; nra.
  - intro tp. unfold takeProfitPrice, takeProfitPercent.
    destruct (validated_percent (SignalRule.take_profit_percent rule) 100)
      as [c|] eqn:Ec; [|discriminate].
    destruct (truthy (Some c)); [|discriminate].
    intro H. injection H as <-.
    apply validated_percent_range in Ec; [|discriminate].
    destruct side; cbn [sign]; percent; split; nra.
Qed.

Lemma protective_prices_bracket_witness :
  exists sl, stopLossPrice 100 sell (rule_with (Some 20) None) = Some sl
             /\ 100 < sl.
Proof.
  eexists. split; [reflexivity|].
  destruct (protective_prices_bracket 100 sell (rule_with (Some 20) None))
    as [H _]; [reflexivity|].
  apply (H _ eq_refl).
Defined.

(** *** Users the pass leaves alone *)

Lemma users_loop_blocked env io (d0 : DB) (user : string)
  (l : list Settings.t) (r : Run) :
  (forall st r', In st l -> Settings.user_id st = user ->
     orders_of_user user (db r') = orders_of_user user d0 ->
     db (process_user env io r' st) = db r') ->
  orders_of_user user (db r) = orders_of_user user d0 ->
  orders_of_user user (db (fold_left (process_user env io) l r))
  = orders_of_user user d0.
Proof.
  revert r; induction l as [|st l IH]; intros r Hl Hr; [exact Hr|].
  cbn [fold_left]. apply IH.
  - intros st' r' Hin. apply Hl. right. exact Hin.
  - destruct (String.eqb_spec (Settings.user_id st) user) as [Heq|Hne].
    + rewrite (Hl st r (or_introl eq_refl) Heq Hr). exact Hr.
    + rewrite (process_user_other_user env io r st user Hne). exact Hr.
Qed.

Lemma pass_blocked env io d user :
  (forall st r', In st (allSettings d) -> Settings.user_id st = user ->
     orders_of_user user (db r') = orders_of_user user d ->
     db (process_user env io r' st) = db r') ->
  orders_of_user user (fst (execute_pending_signals env io d))
  = orders_of_user user d.
Proof.
  intro H. rewrite fst_execute_pending_signals. unfold run_pending.
  apply users_loop_blocked; [exact H | reflexivity].
Qed.

Lemma dailyPnL_of_user env d user :
  dailyPnL env d user
  = fold_left pnl_step
      (filter (created_today env)
         (filter (fun o => is_filled (Order.status o)) (orders_of_user user d))) 0.
Proof.
  unfold dailyPnL, todaysOrders, orders_of_user.
  rewrite (filter_and (fun o => (Order.user_id o =? user)%string
                                && is_filled (Order.status o))
                      (created_today env)).
  rewrite (filter_and (fun o => (Order.user_id o =? user)%string)
                      (fun o => is_filled (Order.status o))).
  reflexivity.
Qed.

Lemma maxDailyLoss_bounds (settings : Settings.t) :
  0 <= maxDailyLoss settings <= 1000000.
Proof.
  unfold maxDailyLoss. split.
  - apply Q.le_max_l.
  - apply Q.max_lub; [discriminate | apply Q.le_min_l].
Qed.

(** X8. [maxDailyLoss] lies in [0, 1000000].  When the day's cash flow of
    the user's filled orders (sells minus buys) is at or below
    [-maxDailyLoss], the user's iteration changes nothing in the store, and
    with the two earlier gates open it records exactly
    "Max daily loss reached"; over a whole pass no order of that user is
    added. *)
Theorem daily_loss_limit (env : Env) (io : nat -> InsertIO) (d : DB) (r : Run)
  (settings : Settings.t) (user : string) :
  0 <= maxDailyLoss settings <= 1000000
  /\ (dailyPnL env (db r) (Settings.user_id settings) <= - maxDailyLoss settings ->
      db (process_user env io r settings) = db r
      /\ executed (process_user env io r settings) = executed r
      /\ (isWithinTradingHours (currentTime env)
            (Settings.trading_hours_start settings)
            (Settings.trading_hours_end settings) = true ->
          (todaysTrades env (db r) (Settings.user_id settings)
           < maxDailyTrades settings)%Z ->
          process_user env io r settings
          = skip (SkipUser (Settings.user_id settings) "Max daily loss reached") r))
  /\ ((forall st, In st (allSettings d) -> Settings.user_id st = user ->
         dailyPnL env d user <= - maxDailyLoss st) ->
      orders_of_user user (fst (execute_pending_signals env io d))
      = orders_of_user user d).
Proof.
  assert (Hstep : forall r' st,
            dailyPnL env (db r') (Settings.user_id st) <= - maxDailyLoss st ->
            db (process_user env io r' st) = db r'
            /\ executed (process_user env io r' st) = executed r').
  { intros r' st H. unfold process_user.
    destruct (negb _); [split; reflexivity|].
    destruct (_ <=? _)%Z; [split; reflexivity|].
    apply Qle_bool_iff in H. rewrite H. split; reflexivity. }
  split; [apply maxDailyLoss_bounds|]. split.
  - intro H. destruct (Hstep r settings H) as [E1 E2].
    split; [exact E1|]. split; [exact E2|].
    intros Hh Ht. unfold process_user. rewrite Hh. cbn [negb].
    destruct (Z.leb_spec (maxDailyTrades settings)
                (todaysTrades env (db r) (Settings.user_id settings))); [lia|].
    apply Qle_bool_iff in H. rewrite H. reflexivity.
  - intro H. apply pass_blocked. intros st r' Hin Hu Hr.
    apply Hstep. rewrite Hu, dailyPnL_of_user, Hr, <- dailyPnL_of_user.
    apply H; assumption.
Qed.

Lemma daily_loss_limit_witness :
  orders_of_user "alice"
    (fst (execute_pending_signals (at_time "12:00:00") insert_ok spent_store))
  = orders_of_user "alice" spent_store.
Proof.
  destruct (daily_loss_limit (at_time "12:00:00") insert_ok spent_store
              (start_run spent_store) alice "alice") as [_ [_ H]].
  apply H. intros st [<-|[]] _. vm_compute. discriminate.
Defined.

(** *** What a pass writes *)

Lemma valid_price_some (n : number) (p : Q) :
  valid_price n = Some p -> n = Finite p /\ 0 < p.
Proof.
  destruct n as [q| | |]; try discriminate. cbn [valid_price].
  destruct (Qle_bool q 0) eqn:E; [discriminate|].
  intro H. injection H as <-. split; [reflexivity|].
  apply Qle_bool_false. exact E.
Qed.

Lemma process_signal_outcome env io settings r signal rule :
  (db (process_signal env io settings r (signal, rule)) = db r
   /\ executed (process_signal env io settings r (signal, rule)) = executed r)
  \/ exists p row_id,
       Signal.price_at_signal signal = Finite p
       /\ 0 < p
       /\ (0 < sized_quantity settings rule p)%Z
       /\ inserted (io (attempts r)) = Some row_id
       /\ db (process_signal env io settings r (signal, rule))
          = commit_execution (db r) (Signal.id signal)
              (order_of (execution_of env settings signal rule p
                           (io (attempts r)) row_id))
              (position_of (execution_of env settings signal rule p
                              (io (attempts r)) row_id))
       /\ executed (process_signal env io settings r (signal, rule))
          = executed r
            ++ [report_of (execution_of env settings signal rule p
                             (io (attempts r)) row_id)].
Proof.
  unfold process_signal.
  destruct (valid_price (Signal.price_at_signal signal)) as [p|] eqn:Ev;
    [|left; split; reflexivity].
  destruct (valid_price_some _ _ Ev) as [Hp Hpos].
  rewrite Hp, (calculatePositionSize_sized settings rule p Hpos).
  destruct (Z.leb_spec (sized_quantity settings rule p) 0) as [Hle|Hgt];
    [left; split; reflexivity|].
  destruct (inserted (io (attempts r))) as [row_id|] eqn:Ei;
    [|left; split; reflexivity].
  right. exists p, row_id. repeat split; auto.
Qed.

Lemma commit_unexecuted_from d0 d sid o pos :
  unexecuted_from d0 d -> unexecuted_from d0 (commit_execution d sid o pos).
Proof.
  intros H s Hin He. unfold commit_execution in Hin. cbn [signals] in Hin.
  apply in_map_iff in Hin. destruct Hin as [s' [<- Hin]].
  unfold mark_executed in *. destruct (Signal.id s' =? sid)%string.
  - cbn [Signal.executed] in He. discriminate He.
  - apply H; assumption.
Qed.

Lemma commit_executed_monotone d sid sid' o pos :
  is_executed sid' d = true ->
  is_executed sid' (commit_execution d sid o pos) = true.
Proof.
  intro H. destruct (String.eqb_spec sid' sid) as [->|Hne].
  - apply commit_marks.
  - rewrite commit_keeps_others by exact Hne. exact H.
Qed.

Lemma join_rule_In d signal rule :
  In (signal, rule) (join_rule d signal) ->
  In rule (signal_rules d)
  /\ Signal.signal_rule_id signal = Some (SignalRule.id rule).
Proof.
  unfold join_rule. destruct (Signal.signal_rule_id signal) as [rid|]; [|contradiction].
  destruct (find _ _) as [rule'|] eqn:Ef; [|contradiction].
  intros [H|[]]. injection H as <-.
  apply find_some in Ef. destruct Ef as [Hin Hid].
  apply String.eqb_eq in Hid. split; [exact Hin | congruence].
Qed.

Lemma pending_signals_rule d user signal rule :
  In (signal, rule) (pending_signals d user) ->
  In rule (signal_rules d)
  /\ Signal.signal_rule_id signal = Some (SignalRule.id rule).
Proof.
  intro H. unfold pending_signals in H. apply in_flat_map in H.
  destruct H as [s [_ Hs]].
  pose proof (join_rule_fst d s _ Hs) as E. cbn [fst] in E. subst s.
  apply (join_rule_In d signal rule Hs).
Qed.

Lemma signals_loop_state env io d0 settings rows :
  In settings (allSettings d0) ->
  forall r ws,
    pass_state env d0 r ws ->
    (forall signal rule, In (signal, rule) rows ->
       In signal (signals d0)
       /\ Signal.executed signal = false
       /\ Signal.user_id signal = Settings.user_id settings
       /\ In rule (signal_rules d0)
       /\ Signal.signal_rule_id signal = Some (SignalRule.id rule)) ->
    exists ws',
      pass_state env d0 (fold_left (process_signal env io settings) rows r)
                 (ws ++ ws').
Proof.
  intro Hst. induction rows as [|[signal rule] rows IH]; intros r ws Hr Hrows.
  - exists []. rewrite app_nil_r. exact Hr.
  - cbn [fold_left].
    assert (Hrest : forall s c, In (s, c) rows ->
              In s (signals d0) /\ Signal.executed s = false
              /\ Signal.user_id s = Settings.user_id settings
              /\ In c (signal_rules d0)
              /\ Signal.signal_rule_id s = Some (SignalRule.id c))
      by (intros s c Hin; apply Hrows; right; exact Hin).
    destruct (process_signal_outcome env io settings r signal rule)
      as [[Ed Ee]|[p [row_id [Hp [Hpos [Hq [Hins [Ed Ee]]]]]]]].
    + apply IH; [|exact Hrest].
      destruct Hr as [H1 [H2 [H3 [H4 [H5 [H6 [H7 H8]]]]]]].
      unfold pass_state. rewrite Ed, Ee. repeat split; assumption.
    + set (w := execution_of env settings signal rule p (io (attempts r)) row_id) in *.
      destruct (IH (process_signal env io settings r (signal, rule)) (ws ++ [w]))
        as [ws' Hws']; [|exact Hrest|].
      * destruct Hr as [H1 [H2 [H3 [H4 [H5 [H6 [H7 H8]]]]]]].
        unfold pass_state. rewrite Ed, Ee.
        unfold commit_execution. cbn [orders positions trading_settings signal_rules].
        rewrite !map_app, H1, H2, H3, !app_assoc. cbn [map].
        repeat split; auto.
        -- apply (commit_unexecuted_from d0 (db r) (Signal.id signal)
                    (order_of w) (position_of w) H6).
        -- apply Forall_app. split; [exact H7|]. constructor; [|constructor].
           destruct (Hrows signal rule (or_introl eq_refl)) as [A [B [C [D E]]]].
           exists settings, signal, rule, p, (io (attempts r)), row_id.
           repeat split; assumption.
        -- apply Forall_app. split.
           ++ eapply Forall_impl; [|exact H8].
              intros w0 [sid [Hs He]]. exists sid. split; [exact Hs|].
              apply (commit_executed_monotone (db r) (Signal.id signal) sid
                       (order_of w) (position_of w) He).
           ++ constructor; [|constructor].
              exists (Signal.id signal). split; [reflexivity|].
              apply (commit_marks (db r) (Signal.id signal) (order_of w) (position_of w)).
      * exists ([w] ++ ws'). rewrite app_assoc. exact Hws'.
Qed.

Lemma process_user_state env io d0 settings r ws :
  In settings (allSettings d0) ->
  pass_state env d0 r ws ->
  exists ws', pass_state env d0 (process_user env io r settings) (ws ++ ws').
Proof.
  intros Hst Hr.
  assert (Hskip : forall e, pass_state env d0 (skip e r) (ws ++ [])).
  { intro e. rewrite app_nil_r. exact Hr. }
  unfold process_user.
  destruct (negb _); [exists []; apply Hskip|].
  destruct (_ <=? _)%Z; [exists []; apply Hskip|].
  destruct (Qle_bool _ _); [exists []; apply Hskip|].
  apply signals_loop_state; [exact Hst | exact Hr |].
  intros signal rule Hin.
  destruct Hr as [_ [_ [_ [_ [H5 [H6 _]]]]]].
  destruct (pending_signals_selected _ _ _ Hin) as [A [B C]]. cbn [fst] in A, B, C.
  destruct (pending_signals_rule _ _ _ _ Hin) as [D E].
  rewrite H5 in D. repeat split; auto.
Qed.

Lemma users_loop_state env io d0 l :
  (forall st, In st l -> In st (allSettings d0)) ->
  forall r ws,
    pass_state env d0 r ws ->
    exists ws', pass_state env d0 (fold_left (process_user env io) l r) (ws ++ ws').
Proof.
  induction l as [|st l IH]; intros Hl r ws Hr.
  - exists []. rewrite app_nil_r. exact Hr.
  - cbn [fold_left].
    destruct (process_user_state env io d0 st r ws (Hl st (or_introl eq_refl)) Hr)
      as [w1 H1].
    destruct (IH (fun x Hx => Hl x (or_intror Hx)) _ _ H1) as [w2 H2].
    exists (w1 ++ w2). rewrite app_assoc. exact H2.
Qed.

Lemma pass_writes env io d :
  exists ws, pass_state env d (run_pending env io d) ws.
Proof.
  destruct (users_loop_state env io d (allSettings d) (fun st H => H)
              (start_run d) []) as [ws H].
  - unfold pass_state, start_run. cbn [db executed map].
    rewrite !app_nil_r. repeat split; auto.
    intros s Hs _. exact Hs.
  - exists ws. exact H.
Qed.

Lemma pass_execution_together env d w :
  pass_execution env d w -> written_together w.
Proof.
  intros [settings [signal [rule [p [attempt [row_id H]]]]]].
  destruct H as [_ [_ [_ [_ [_ [_ [_ [_ [_ ->]]]]]]]]].
  unfold written_together, execution_of. cbn.
  repeat split; try reflexivity.
Qed.

(** X9. The [executed] array of a pass lists exactly what the pass wrote,
    in order: one order row and one position row per entry.  Each position
    row points at its order row, has the same user, symbol and protective
    prices, is open, carries the order's limit price as average cost and
    current price, and the order's quantity signed by the side (negative
    for a sell); each entry repeats the order's key, symbol, side,
    quantity and price. *)
Theorem executed_report_matches_writes (env : Env) (io : nat -> InsertIO)
  (d : DB) :
  exists ws,
    orders (fst (execute_pending_signals env io d)) = orders d ++ map order_of ws
    /\ positions (fst (execute_pending_signals env io d))
       = positions d ++ map position_of ws
    /\ executed (run_pending env io d) = map report_of ws
    /\ (forall ex sk,
          snd (execute_pending_signals env io d) = ExecutionComplete ex sk ->
          ex = map report_of ws)
    /\ Forall written_together ws.
Proof.
  destruct (pass_writes env io d) as [ws [H1 [H2 [H3 [_ [_ [_ [H7 _]]]]]]]].
  exists ws. rewrite fst_execute_pending_signals.
  split; [exact H1|]. split; [exact H2|]. split; [exact H3|]. split.
  - intros ex sk. unfold execute_pending_signals.
    destruct (allSettings d); [discriminate|].
    intro H. injection H as <- _. exact H3.
  - eapply Forall_impl; [|exact H7]. apply pass_execution_together.
Qed.

Lemma sized_quantity_cap settings rule p :
  (sized_quantity settings rule p <= 1000000)%Z.
Proof. unfold sized_quantity. lia. Qed.

(** X10. Every order row a pass adds is in status [submitted] without a
    fill price, has a quantity between 1 and 1000000 and a positive limit
    price, belongs to a user whose settings have auto-trade enabled, and
    references a signal of that same user which was unexecuted in the store
    before the pass and is executed after it. *)
Theorem written_orders_sound (env : Env) (io : nat -> InsertIO) (d : DB) :
  exists news,
    orders (fst (execute_pending_signals env io d)) = orders d ++ news
    /\ Forall (fun o =>
         Order.status o = submitted
         /\ Order.filled_price o = None
         /\ (1 <= Order.quantity o <= 1000000)%Z
         /\ (exists p, Order.limit_price o = Some p /\ 0 < p)
         /\ (exists settings,
               In settings (trading_settings d)
               /\ Settings.auto_trade_enabled settings = true
               /\ Settings.user_id settings = Order.user_id o)
         /\ (exists signal,
               In signal (signals d)
               /\ Signal.executed signal = false
               /\ Signal.user_id signal = Order.user_id o
               /\ Order.signal_id o = Some (Signal.id signal)
               /\ is_executed (Signal.id signal)
                    (fst (execute_pending_signals env io d)) = true)) news.
Proof.
  destruct (pass_writes env io d) as [ws [H1 [_ [_ [_ [_ [_ [H7 H8]]]]]]]].
  exists (map order_of ws). rewrite fst_execute_pending_signals.
  split; [exact H1|].
  apply Forall_map. rewrite Forall_forall in *. intros w Hw.
  destruct (H7 w Hw)
    as [settings [signal [rule [p [attempt [row_id
        [A [B [C [D [E [F [G [Hp [Hq ->]]]]]]]]]]]]]]].
  destruct (H8 _ Hw) as [sid [Hsid Hex]].
  unfold execution_of, order_of in *. cbn [fst snd] in *.
  unfold new_order in *. cbn in Hsid |- *.
  injection Hsid as <-.
  split; [reflexivity|]. split; [reflexivity|].
  split; [pose proof (sized_quantity_cap settings rule p); lia|].
  split; [exists p; split; [reflexivity | exact Hp]|].
  split.
  - exists settings. unfold allSettings in A. apply filter_In in A.
    destruct A as [A1 A2]. repeat split; assumption.
  - exists signal. repeat split; assumption.
Qed.

(** X11. A user without a settings row that has auto-trade enabled gets no
    order from a pass, whatever signals and rules the store holds for that
    user. *)
Theorem disabled_user_untouched (env : Env) (io : nat -> InsertIO) (d : DB)
  (user : string) :
  (forall st, In st (trading_settings d) -> Settings.user_id st = user ->
     Settings.auto_trade_enabled st = false) ->
  orders_of_user user (fst (execute_pending_signals env io d))
  = orders_of_user user d.
Proof.
  intro H. apply pass_blocked. intros st r' Hin Hu _.
  unfold allSettings in Hin. apply filter_In in Hin. destruct Hin as [Hin Hen].
  rewrite (H st Hin Hu) in Hen. discriminate Hen.
Qed.

Lemma disabled_user_untouched_witness :
  orders_of_user "alice"
    (fst (execute_pending_signals (at_time "12:00:00") insert_ok idle_store))
  = orders_of_user "alice" idle_store.
Proof.
  apply disabled_user_untouched. intros st [<-|[]] _. reflexivity.
Defined.

(** *** The trade limit is tested once per user *)

Lemma process_signal_executes env io settings r signal rule p row_id :
  Signal.price_at_signal signal = Finite p -> 0 < p ->
  (0 < sized_quantity settings rule p)%Z ->
  inserted (io (attempts r)) = Some row_id ->
  db (process_signal env io settings r (signal, rule))
  = commit_execution (db r) (Signal.id signal)
      (order_of (execution_of env settings signal rule p (io (attempts r)) row_id))
      (position_of (execution_of env settings signal rule p (io (attempts r)) row_id)).
Proof.
  intros Hp Hpos Hq Hins. unfold process_signal.
  rewrite (valid_price_positive _ p Hp Hpos), Hp,
          (calculatePositionSize_sized settings rule p Hpos).
  destruct (Z.leb_spec (sized_quantity settings rule p) 0) as [Hle|_]; [lia|].
  rewrite Hins. reflexivity.
Qed.

Lemma signals_loop_all_execute env io settings rows :
  (forall signal rule, In (signal, rule) rows ->
     exists p, Signal.price_at_signal signal = Finite p /\ 0 < p
               /\ (0 < sized_quantity settings rule p)%Z) ->
  (forall k, inserted (io k) <> None) ->
  forall r,
    exists news,
      orders (db (fold_left (process_signal env io settings) rows r))
      = orders (db r) ++ news
      /\ length news = length rows
      /\ Forall (fun o => Order.user_id o = Settings.user_id settings
                          /\ Order.created_at o = now env) news.
Proof.
  intros Hrows Hio. induction rows as [|[signal rule] rows IH]; intro r.
  - exists []. rewrite app_nil_r. auto.
  - cbn [fold_left].
    destruct (Hrows signal rule (or_introl eq_refl)) as [p [Hp [Hpos Hq]]].
    destruct (inserted (io (attempts r))) as [row_id|] eqn:Hins;
      [|exfalso; apply (Hio _ Hins)].
    destruct (IH (fun s c H => Hrows s c (or_intror H))
                 (process_signal env io settings r (signal, rule)))
      as [news [E [L F]]].
    rewrite (process_signal_executes env io settings r signal rule p row_id
               Hp Hpos Hq Hins) in E.
    unfold commit_execution in E. cbn [orders] in E.
    set (o := order_of (execution_of env settings signal rule p
                          (io (attempts r)) row_id)) in *.
    exists (o :: news). rewrite E, <- app_assoc. split; [reflexivity|].
    split; [simpl; lia|]. constructor; [|exact F].
    split; reflexivity.
Qed.

(** X12. The daily trade limit is tested once per user, before the user's
    signals are looked at: when the three gates are open, every pending
    signal is valid and the inserts succeed, all pending signals are
    executed and today's order count of the user grows by their number,
    whatever [maxDailyTrades] is. *)
Theorem limit_checked_once (env : Env) (io : nat -> InsertIO) (r : Run)
  (settings : Settings.t) :
  let user := Settings.user_id settings in
  isWithinTradingHours (currentTime env)
    (Settings.trading_hours_start settings)
    (Settings.trading_hours_end settings) = true ->
  (todaysTrades env (db r) user < maxDailyTrades settings)%Z ->
  - maxDailyLoss settings < dailyPnL env (db r) user ->
  (forall signal rule, In (signal, rule) (pending_signals (db r) user) ->
     exists p, Signal.price_at_signal signal = Finite p /\ 0 < p
               /\ (0 < sized_quantity settings rule p)%Z) ->
  (forall k, inserted (io k) <> None) ->
  (today_start env <= now env)%Z ->
  todaysTrades env (db (process_user env io r settings)) user
  = (todaysTrades env (db r) user
     + Z.of_nat (length (pending_signals (db r) user)))%Z.
Proof.
  intros user Hh Ht Hl Hrows Hio Hnow. unfold process_user. fold user.
  rewrite Hh. cbn [negb].
  destruct (Z.leb_spec (maxDailyTrades settings) (todaysTrades env (db r) user));
    [lia|].
  apply Qle_bool_false in Hl. rewrite Hl.
  destruct (signals_loop_all_execute env io settings
              (pending_signals (db r) user) Hrows Hio r) as [news [E [L F]]].
  unfold todaysTrades. rewrite E, filter_app, length_app, Nat2Z.inj_add.
  f_equal. f_equal. rewrite <- L. f_equal.
  clear E L. induction news as [|o news IH]; [reflexivity|].
  inversion F as [|? ? [Hu Hc] F']; subst. cbn [filter].
  unfold created_today at 1. fold user in Hu. rewrite Hu, Hc, String.eqb_refl.
  destruct (Z.leb_spec (today_start env) (now env)); [|lia].
  cbn [andb]. f_equal. apply IH. exact F'.
Qed.

Lemma limit_checked_once_witness :
  todaysTrades (at_time "12:00:00")
    (db (process_user (at_time "12:00:00") insert_ok
           (start_run (store_with (rule_with None None)
                                  (signal_at bb_breakout_up (Finite 100))))
           alice)) "alice"
  = (0 + 1)%Z.
Proof.
  apply (limit_checked_once (at_time "12:00:00") insert_ok
           (start_run (store_with (rule_with None None)
                                  (signal_at bb_breakout_up (Finite 100))))
           alice).
  - reflexivity.
  - reflexivity.
  - reflexivity.
  - intros signal rule [H|[]]. injection H as <- <-.
    exists 100. repeat split; reflexivity.
  - intro k. discriminate.
  - discriminate.
Defined.

(** *** The risk report *)

Lemma value_fold_lower (l : list Position.t) (a : Q) :
  a <= fold_left value_step l a.
Proof.
  revert a; induction l as [|pos l IH]; intro a; cbn [fold_left].
  - apply Qle_refl.
  - eapply Qle_trans; [|apply IH]. unfold value_step.
    pose proof (Qabs_nonneg (or_default (Position.current_price pos) 0
                             * inject_Z (Position.quantity pos))) as H.
    lra.
Qed.

(** X13. In the risk report the position value is never negative.  An
    entry is within limits only when both limits are set and strictly
    above the day's order count and the position value; and then, for a
    stored limit of at most 1000 trades, the trade-count gate of the
    execution pass is open for that user. *)
Theorem risk_report_consistent (env : Env) (d : DB) (settings : Settings.t) :
  let st := risk_status env d settings in
  0 <= position_value st
  /\ (within_limits st = true ->
      (exists m, Settings.max_daily_trades settings = Some m
                 /\ (0 <= trades_today st < m)%Z)
      /\ (exists x, Settings.max_position_size settings = Some x
                    /\ position_value st < x)
      /\ (forall m, Settings.max_daily_trades settings = Some m ->
            (m <= 1000)%Z ->
            (todaysTrades env d (Settings.user_id settings)
             < maxDailyTrades settings)%Z)).
Proof.
  intro st.
  assert (Hv : 0 <= position_value st).
  { unfold st, risk_status, totalPositionValue. cbn [position_value].
    apply value_fold_lower. }
  assert (Ht : (0 <= trades_today st)%Z).
  { unfold st, risk_status, todaysTrades. cbn [trades_today]. lia. }
  split; [exact Hv|].
  intro Hw. unfold st, risk_status in Hw, Hv, Ht |- *.
  cbn [within_limits position_value trades_today] in *.
  apply andb_true_iff in Hw. destruct Hw as [W1 W2].
  unfold lt_nullableZ in W1. unfold lt_nullable in W2.
  apply Z.ltb_lt in W1. apply Qltb_true in W2.
  destruct (Settings.max_daily_trades settings) as [m|] eqn:Em; [|lia].
  destruct (Settings.max_position_size settings) as [x|] eqn:Ex; [|lra].
  split; [exists m; split; [reflexivity | lia]|].
  split; [exists x; split; [reflexivity | exact W2]|].
  intros m' Hm' Hle. injection Hm' as <-.
  unfold maxDailyTrades. rewrite Em. unfold or_defaultZ.
  destruct (Z.eqb_spec m 0); lia.
Qed.

Lemma risk_report_consistent_witness :
  (todaysTrades (at_time "12:00:00")
     (store_with (rule_with None None) (signal_at bb_breakout_up (Finite 100)))
     "alice"
   < maxDailyTrades alice)%Z.
Proof.
  destruct (risk_report_consistent (at_time "12:00:00")
              (store_with (rule_with None None)
                          (signal_at bb_breakout_up (Finite 100))) alice)
    as [_ H].
  destruct H as [_ [_ H]]; [reflexivity|].
  apply (H 10%Z); [reflexivity | discriminate].
Defined.

(** *** The trailing-stop pass: what it leaves alone *)

Lemma same_holding_refl row : same_holding row row.
Proof. unfold same_holding. repeat split. Qed.

Lemma same_holding_trans a b c :
  same_holding a b -> same_holding b c -> same_holding a c.
Proof. unfold same_holding. intuition congruence. Qed.

Lemma write_stop_same_holding src q c row :
  same_holding row (write_stop src q c row).
Proof.
  unfold write_stop. destruct (_ =? _)%string;
    [unfold same_holding; repeat split | apply same_holding_refl].
Qed.

Lemma entry_effect_same_holding io n e row :
  same_holding row (entry_effect io n e row).
Proof.
  unfold entry_effect. destruct (_ && _);
    [apply write_stop_same_holding | apply same_holding_refl].
Qed.

Lemma row_after_same_holding io entries :
  forall n row, same_holding row (row_after io n entries row).
Proof.
  induction entries as [|e rest IH]; intros n row; cbn [row_after].
  - apply same_holding_refl.
  - eapply same_holding_trans; [apply entry_effect_same_holding | apply IH].
Qed.

Lemma trailing_loop_tables io entries :
  forall t,
    let t' := fold_left (process_position io) entries t in
    trading_settings (t_db t') = trading_settings (t_db t)
    /\ signal_rules (t_db t') = signal_rules (t_db t)
    /\ signals (t_db t') = signals (t_db t)
    /\ orders (t_db t') = orders (t_db t).
Proof.
  induction entries as [|[position tsp] rest IH]; intro t; cbn [fold_left].
  - repeat split.
  - destruct (IH (process_position io t (position, tsp))) as [A [B [C D]]].
    cbv zeta. rewrite A, B, C, D.
    unfold process_position, refresh_position. cbn [fst t_db].
    destruct (_ && _); repeat split.
Qed.

(** X14. A trailing-stop pass writes nothing but [current_price],
    [unrealized_pnl] and [trailing_stop_price] of position rows: settings,
    rules, signals and orders are untouched, no row is added or removed,
    and every row keeps its key, user, order, symbol, quantity, average
    cost, stop-loss and take-profit prices and stays open or closed as it
    was; alerts do not close a position. *)
Theorem trailing_pass_keeps_holdings (io : nat -> TickIO) (d : DB) :
  let d' := fst (update_trailing_stops io d) in
  trading_settings d' = trading_settings d
  /\ signal_rules d' = signal_rules d
  /\ signals d' = signals d
  /\ orders d' = orders d
  /\ Forall2 same_holding (positions d) (positions d').
Proof.
  intro d'.
  destruct (trailing_loop_tables io (trailing_positions d) (start_trail d))
    as [A [B [C D]]].
  unfold d'. rewrite trailing_pass_rows, fst_update_trailing_stops.
  unfold run_trailing.
  split; [exact A|]. split; [exact B|]. split; [exact C|]. split; [exact D|].
  induction (positions d) as [|row l IH]; cbn [map]; constructor.
  - apply row_after_same_holding.
  - exact IH.
Qed.

(** *** The trailing-stop pass: bounds *)

Lemma trailingPercent_bounds (tsp : Q) : (1 # 10) <= trailingPercent tsp <= 50.
Proof.
  unfold trailingPercent. split.
  - apply Q.le_max_l.
  - apply Q.max_lub; [discriminate | apply Q.le_min_l].
Qed.

(** X15. For a position with a positive average cost and a draw in [0, 1)
    the mock quote stays within 5 percent of the cost, and the candidate
    stop computed from it is positive, at least half the quote and
    strictly below the quote. *)
Theorem trailing_candidate_bounds (position : Position.t) (rnd tsp : Q) :
  0 < Position.avg_cost position ->
  0 <= rnd < 1 ->
  let quote := mock_price position rnd in
  let candidate := newTrailingStop quote tsp in
  Position.avg_cost position * (19 # 20) <= quote
  /\ quote < Position.avg_cost position * (21 # 20)
  /\ quote * (1 # 2) <= candidate
  /\ candidate < quote
  /\ 0 < candidate.
Proof.
  intros Hc [Hr0 Hr1] quote candidate.
  assert (Hq1 : Position.avg_cost position * (19 # 20) <= quote)
    by (unfold quote, mock_price; nra).
  assert (Hq2 : quote < Position.avg_cost position * (21 # 20))
    by (unfold quote, mock_price; nra).
  assert (Hq0 : 0 < quote) by nra.
  pose proof (trailingPercent_bounds tsp) as [Hp1 Hp2].
  unfold candidate, newTrailingStop. percent.
  set (c := trailingPercent tsp) in *. clearbody c quote.
  repeat split; nra.
Qed.

Lemma trailing_candidate_bounds_witness :
  newTrailingStop (mock_price (held_position 110 None) (1 # 2)) 5
  < mock_price (held_position 110 None) (1 # 2).
Proof.
  destruct (trailing_candidate_bounds (held_position 110 None) (1 # 2) 5)
    as [_ [_ [_ [H _]]]].
  - reflexivity.
  - split; [discriminate | reflexivity].
  - exact H.
Defined.

(** X16. In one iteration with a positive quote, a position whose stop is
    written (no stop stored, or the candidate above the stored stop) gets
    no trailing-stop alert: the alert is judged against the stop stored
    before the write, which lies below the quote. *)
Theorem written_stop_raises_no_trailing_alert (quote tsp : Q) (write_ok : bool)
  (t : Trail) (position : Position.t) :
  0 < quote ->
  stop_rises position (newTrailingStop quote tsp) = true ->
  exists extra,
    alerts (refresh_position quote write_ok t (position, tsp))
    = alerts t ++ extra
    /\ Forall (fun a => ~ is_trailing_alert a) extra.
Proof.
  intros Hq Hrise. unfold refresh_position. cbn [alerts].
  exists (alerts_of position quote). split; [reflexivity|].
  assert (Hc : newTrailingStop quote tsp < quote).
  { pose proof (trailingPercent_bounds tsp) as [Hp1 Hp2].
    unfold newTrailingStop. percent.
    set (c := trailingPercent tsp) in *. clearbody c. nra. }
  unfold alerts_of.
  assert (Hlast :
    Forall (fun a => ~ is_trailing_alert a)
      match Position.trailing_stop_price position with
      | Some ts =>
          if truthy (Some ts) && Qle_bool quote ts
          then [TrailingStopHit (Position.symbol position) quote] else []
      | None => []
      end).
  { destruct (Position.trailing_stop_price position) as [ts|] eqn:Ets;
      [|constructor].
    destruct (truthy (Some ts) && Qle_bool quote ts) eqn:E; [|constructor].
    exfalso. apply andb_true_iff in E. destruct E as [E1 E2].
    apply Qle_bool_iff in E2.
    apply (stop_rises_set position ts _ Ets) in Hrise.
    destruct Hrise as [Hz|Hlt].
    - unfold truthy in E1. apply negb_true_iff in E1.
      apply Qeq_bool_iff in Hz. congruence.
    - lra. }
  apply Forall_app. split.
  - destruct (Position.stop_loss_price position) as [sl|]; [|constructor].
    destruct (_ && _); [|constructor]. constructor; [|constructor]. intros [].
  - apply Forall_app. split; [|exact Hlast].
    destruct (Position.take_profit_price position) as [tp|]; [|constructor].
    destruct (_ && _); [|constructor]. constructor; [|constructor]. intros [].
Qed.

Lemma written_stop_raises_no_trailing_alert_witness :
  exists extra,
    alerts (refresh_position 110 true (start_trail (held_store 110 (Some 100)))
              (held_position 110 (Some 100), 5))
    = [] ++ extra
    /\ Forall (fun a => ~ is_trailing_alert a) extra.
Proof.
  apply (written_stop_raises_no_trailing_alert 110 5 true
           (start_trail (held_store 110 (Some 100)))
           (held_position 110 (Some 100))); reflexivity.
Defined.

(** *** The trailing-stop pass: repeating it *)

Lemma DB_ext (a b : DB) :
  trading_settings a = trading_settings b -> signal_rules a = signal_rules b ->
  signals a = signals b -> orders a = orders b -> positions a = positions b ->
  a = b.
Proof. destruct a, b; cbn; intros; subst; reflexivity. Qed.

Lemma join_order_map (f : Position.t -> Position.t) (d d1 : DB) (row : Position.t) :
  orders d1 = orders d ->
  Position.order_id (f row) = Position.order_id row ->
  join_order d1 (f row) = map (fun e => (f (fst e), snd e)) (join_order d row).
Proof.
  intros Ho Hf. unfold join_order. rewrite Ho, Hf.
  destruct (Position.order_id row); [|reflexivity].
  destruct (find _ _) as [o|]; [|reflexivity].
  destruct (Order.trailing_stop_percent o); reflexivity.
Qed.

Lemma trailing_positions_map (f : Position.t -> Position.t) (d d1 : DB) :
  orders d1 = orders d ->
  positions d1 = map f (positions d) ->
  (forall row, same_holding row (f row)) ->
  trailing_positions d1
  = map (fun e => (f (fst e), snd e)) (trailing_positions d).
Proof.
  intros Ho Hp Hf. unfold trailing_positions. rewrite Hp. clear Hp.
  induction (positions d) as [|row l IH]; [reflexivity|].
  cbn [map filter].
  destruct (Hf row) as [_ [_ [Hoid [_ [_ [_ [_ [_ [Hopen _]]]]]]]]].
  rewrite Hopen. destruct (Position.is_open row); [|exact IH].
  cbn [flat_map]. rewrite map_app, IH.
  rewrite (join_order_map f d d1 row Ho Hoid). reflexivity.
Qed.

Lemma entry_effect_again io n row tsp :
  entry_effect io n (entry_effect io n (row, tsp) row, tsp)
    (entry_effect io n (row, tsp) row)
  = entry_effect io n (row, tsp) row.
Proof.
  unfold entry_effect at 2 3 4. cbn [fst snd].
  set (quote := mock_price row (random (io n))).
  set (candidate := newTrailingStop quote tsp).
  destruct (stop_rises row candidate && update_ok (io n)) eqn:Efire.
  - set (w := write_stop row quote candidate row).
    assert (Hcost : Position.avg_cost w = Position.avg_cost row)
      by (unfold w, write_stop; rewrite String.eqb_refl; reflexivity).
    unfold entry_effect. cbn [fst snd].
    assert (Hq : mock_price w (random (io n)) = quote)
      by (unfold mock_price, quote; rewrite Hcost; reflexivity).
    rewrite Hq. fold candidate.
    destruct (stop_rises w candidate && update_ok (io n)); [|reflexivity].
    unfold w, write_stop. rewrite String.eqb_refl.
    cbn [Position.id Position.avg_cost Position.quantity]. rewrite String.eqb_refl.
    reflexivity.
  - unfold entry_effect. cbn [fst snd]. fold quote. fold candidate.
    rewrite Efire. reflexivity.
Qed.

(** X17. With unique position keys, running the trailing-stop pass a
    second time with the same draws and the same update outcomes changes
    nothing: the store after two passes is the store after one. *)
Theorem trailing_pass_idempotent (io : nat -> TickIO) (d : DB) :
  NoDup (map Position.id (positions d)) ->
  fst (update_trailing_stops io (fst (update_trailing_stops io d)))
  = fst (update_trailing_stops io d).
Proof.
  intro Hnd.
  set (d1 := fst (update_trailing_stops io d)).
  set (g := row_after io 0 (trailing_positions d)).
  assert (Hp1 : positions d1 = map g (positions d)) by apply trailing_pass_rows.
  destruct (trailing_loop_tables io (trailing_positions d) (start_trail d))
    as [A [B [C D]]].
  assert (Ho1 : orders d1 = orders d).
  { unfold d1. rewrite fst_update_trailing_stops. exact D. }
  assert (Hg : forall row, same_holding row (g row))
    by (intro row; apply row_after_same_holding).
  pose proof (trailing_positions_map g d d1 Ho1 Hp1 Hg) as HE1.
  destruct (trailing_loop_tables io (trailing_positions d1) (start_trail d1))
    as [A1 [B1 [C1 D1]]].
  apply DB_ext; try (rewrite fst_update_trailing_stops; assumption).
  rewrite trailing_pass_rows, Hp1, map_map. apply map_ext_in.
  intros row Hin. rewrite HE1.
  assert (HndE : NoDup (map (fun e => Position.id (fst e)) (trailing_positions d)))
    by (apply trailing_positions_NoDup; exact Hnd).
  assert (Hids : map (fun e => Position.id (fst e))
                     (map (fun e => (g (fst e), snd e)) (trailing_positions d))
                 = map (fun e => Position.id (fst e)) (trailing_positions d)).
  { rewrite map_map. apply map_ext. intro e. cbn [fst]. apply (Hg (fst e)). }
  destruct (in_dec string_dec (Position.id row)
              (map (fun e => Position.id (fst e)) (trailing_positions d)))
    as [Hsel|Hnot].
  - apply in_map_iff in Hsel. destruct Hsel as [[p0 tsp] [Hid He]].
    cbn [fst] in Hid.
    assert (Hp0 : p0 = row).
    { apply (NoDup_key_inj Position.id (positions d)); auto.
      apply (trailing_positions_In d (p0, tsp) He). }
    subst p0. apply In_nth_error in He. destruct He as [j Hj].
    assert (Eg : g row = entry_effect io j (row, tsp) row).
    { apply (row_after_unique io (trailing_positions d) 0 j (row, tsp) row); auto. }
    pose proof (row_after_unique io
                  (map (fun e => (g (fst e), snd e)) (trailing_positions d))
                  0 j (g row, tsp) (g row)) as Hu.
    rewrite Hids in Hu. specialize (Hu HndE).
    rewrite nth_error_map, Hj in Hu. specialize (Hu eq_refl eq_refl).
    cbn [Nat.add] in Hu. rewrite Hu, Eg. apply entry_effect_again.
  - apply row_after_absent. intros e He Heq. apply Hnot.
    rewrite <- Hids. destruct (Hg row) as [Hidg _]. rewrite <- Hidg, <- Heq.
    apply (in_map (fun e => Position.id (fst e))). exact He.
Qed.

Lemma trailing_pass_idempotent_witness :
  fst (update_trailing_stops (draws (1 # 2))
         (fst (update_trailing_stops (draws (1 # 2)) (held_store 110 (Some 100)))))
  = fst (update_trailing_stops (draws (1 # 2)) (held_store 110 (Some 100))).
Proof.
  apply trailing_pass_idempotent.
  simpl. constructor; [intros [] | constructor].
Defined.

End AutoInvestExtra.
